(** * The Poloniex adapter of ccxt-js: normalizer, order cache, balances, errors

    A shallow embedding of [src/js/poloniex.js], the module that [src/ccxt.js]
    loads under the name [poloniex].

    Conventions of the embedding.
    - A JS number is an IEEE-754 binary64 value: Rocq's primitive [float].
    - "a number or [undefined]" is [option float]; "a string or [undefined]"
      is [option string].  A payload key that is missing and a key whose value
      is [undefined] are both [None]: every reader used by the adapter
      ([safeString], [safeFloat], ...) treats them alike.
    - A JS object used as a dictionary ([this.orders], [this.markets_by_id],
      the [balances] of [fetchWalletBalance]) is a [gmap string _]; a JS object
      whose key order is observable (the exception tables, a response that is
      walked with [Object.keys]) is an association list.  The keys of the
      dictionaries (order numbers, market ids, currency codes) are assumed
      not to collide with the member names of [Object.prototype]; the
      message that [handleErrors] looks up in the exception tables is
      arbitrary, and there the inherited members are modelled.
    - An [async] method is a function from the state it reads and the results
      of the network calls it awaits to the new state and its [outcome]; a
      thrown exception is [Thrown].  [loadMarkets] is assumed to have run:
      [this.markets] and [this.markets_by_id] are given.
    - [js/base/Exchange.js] and [js/base/functions] are not part of the
      sources.  What the adapter needs from them is either a member of the
      classes [Runtime] and [BaseExchange] (a parameter of the development)
      or a definition marked "Modelled from the spec". *)

From Stdlib Require Import Floats ZArith Ascii String.
From stdpp Require Import gmap strings list fin_maps.

Local Open Scope string_scope.

(** ** JS values and control flow *)

(** A scalar of a decoded JSON payload. *)
Inductive json : Type :=
| JStr (s : string)
| JNum (x : float).

(** The error classes that [poloniex.js] imports from [./base/errors]. *)
Inductive ErrorKind : Type :=
| ExchangeError | ExchangeNotAvailable | RequestTimeout | AuthenticationError
| PermissionDenied | DDoSProtection | InsufficientFunds | OrderNotFound
| OrderNotCached | InvalidOrder | AccountSuspended | CancelPending
| InvalidNonce.

#[global] Instance ErrorKind_eq_dec : EqDecision ErrorKind.
Proof. solve_decision. Defined.

(** What a [throw] carries: [new Kind (message)], the engine's own
    [TypeError] (a property read on [undefined], a call of a non-function,
    [new] of what is no constructor), or [new Object (s)], the String object
    of [s], which is no [Error]. *)
Inductive exn : Type :=
| Raise (kind : ErrorKind) (message : string)
| TypeError
| StringObject (s : string).

(** [e instanceof CancelPending]: no class of the taxonomy extends it. *)
Definition instanceof (e : exn) (k : ErrorKind) : bool :=
  match e with
  | Raise k' _ => bool_decide (k' = k)
  | TypeError => false
  | StringObject _ => false
  end.

Inductive outcome (A : Type) : Type :=
| Returned (a : A)
| Thrown (e : exn).
Arguments Returned {A} a.
Arguments Thrown {A} e.

#[global] Instance outcome_ret : MRet outcome := λ A a, Returned a.
#[global] Instance outcome_bind : MBind outcome := λ A B f m,
  match m with
  | Returned a => f a
  | Thrown e => Thrown e
  end.
#[global] Instance outcome_fmap : FMap outcome := λ A B f m,
  match m with
  | Returned a => Returned (f a)
  | Thrown e => Thrown e
  end.

(** [xs.forEach (x => ...)] and [for (...)] over a list when the body may
    throw: the first exception ends the loop. *)
Fixpoint forEach {A S : Type} (body : S → A → outcome S) (s : S) (xs : list A)
  : outcome S :=
  match xs with
  | [] => Returned s
  | x :: xs' => s' ← body s x; forEach body s' xs'
  end.

(** ** Strings *)

(** ['' + x] for a string or [undefined]. *)
Definition str (o : option string) : string := default "undefined" o.

(** The property key under which a value is stored: [obj[x]] with
    [x === undefined] uses the key ["undefined"]. *)
Definition key_of (o : option string) : string := str o.

(** [message.indexOf (key) >= 0]. *)
Fixpoint includes (s key : string) : bool :=
  String.prefix key s ||
  match s with
  | EmptyString => false
  | String _ s' => includes s' key
  end.

Fixpoint split_from (sep : Ascii.ascii) (cur s : string) : list string :=
  match s with
  | EmptyString => [cur]
  | String c s' =>
      if Ascii.eqb c sep then cur :: split_from sep "" s'
      else split_from sep (cur +:+ String c "") s'
  end.

(** [s.split (sep)] for a one-character separator. *)
Definition split (sep : Ascii.ascii) (s : string) : list string :=
  split_from sep "" s.

Definition underscore : Ascii.ascii := "_"%char.

(** ** Numbers *)

(** [ToNumber] of a number or [undefined]: [undefined] becomes [NaN]. *)
Definition num (o : option float) : float := default nan o.

(** [a * b], [a + b], [a / b], [a < b] on operands that may be [undefined]. *)
Definition js_mul (a b : option float) : float := PrimFloat.mul (num a) (num b).
Definition js_add (a b : option float) : float := PrimFloat.add (num a) (num b).
Definition js_sub (a b : option float) : float := PrimFloat.sub (num a) (num b).
Definition js_lt (a b : option float) : bool := PrimFloat.ltb (num a) (num b).
Definition js_le (a b : option float) : bool := PrimFloat.leb (num a) (num b).

(** [if (x)] on a number: zero and [NaN] are falsy. *)
Definition truthy (x : float) : bool := negb (is_zero x || is_nan x).

Definition float_of_nat (n : nat) : float :=
  PrimFloat.of_uint63 (Uint63.of_Z (Z.of_nat n)).

(** The built-ins of the JS engine that read a payload scalar. *)
Class Runtime : Type := {
  (** [parseFloat (x)] *)
  parseFloat : json → float;
  (** [parseInt (x, 10)] *)
  parseInt : json → float;
  (** [Number (x)] *)
  toNumber : json → float;
  (** [String (x)] of a number *)
  numberToString : float → string;
  (** [Date.parse (x)] *)
  Date_parse : option json → float;
}.

(** ** Helpers of the base class

    [js/base/functions/type.js] and [generic.js] are not under [src/]. *)

Section Readers.
Context `{Runtime}.

(** Modelled from the spec: [safeString (o, k)] of the base class (not under
    [src/]); §4.2 has the normalizer read payload fields into canonical
    values, a missing field giving [undefined]. *)
Definition safeString (v : option json) : option string :=
  match v with
  | Some (JStr s) => Some s
  | Some (JNum x) => Some (numberToString x)
  | None => None
  end.

(** Modelled from the spec: [safeFloat (o, k)] of the base class (not under
    [src/]): the field parsed as a number, [undefined] unless the result is
    a finite number. *)
Definition safeFloat (v : option json) : option float :=
  match v with
  | Some j => let n := parseFloat j in if is_finite n then Some n else None
  | None => None
  end.

(** Modelled from the spec: [safeInteger (o, k)] of the base class (not under
    [src/]), as [safeFloat] with [parseInt]. *)
Definition safeInteger (v : option json) : option float :=
  match v with
  | Some j => let n := parseInt j in if is_finite n then Some n else None
  | None => None
  end.

(** [safeFloat (o, k, default)] and [safeFloat2 (o, k1, k2)]. *)
Definition safeFloat_or (v : option json) (d : option float) : option float :=
  match safeFloat v with Some n => Some n | None => d end.
Definition safeFloat2 (v1 v2 : option json) : option float :=
  safeFloat_or v1 (safeFloat v2).
Definition safeString_or (v : option json) (d : option string) : option string :=
  match safeString v with Some s => Some s | None => d end.

(** [Number (x)] of a field that may be missing: [Number (undefined)] is [NaN]. *)
Definition Number (v : option json) : float :=
  match v with Some j => toNumber j | None => nan end.

End Readers.

(** Modelled from the spec: [sum (a, b)] of the base class (not under
    [src/]).  §3 and §8 read a Balance's total as [free + used]; operands that
    are [undefined] are left out, and the sum of none is [undefined]. *)
Definition sum (a b : option float) : option float :=
  match a, b with
  | Some x, Some y => Some (PrimFloat.add x y)
  | Some x, None => Some x
  | None, Some y => Some y
  | None, None => None
  end.

(** A dictionary whose key order matters, in insertion order. *)
Definition table (V : Type) : Type := list (string * V).

Fixpoint table_get {V : Type} (t : table V) (k : string) : option V :=
  match t with
  | [] => None
  | (k', v) :: t' => if String.eqb k' k then Some v else table_get t' k
  end.

(** [Object.keys (t)] *)
Definition table_keys {V : Type} (t : table V) : list string := t.*1.

(** The member names that every plain object inherits from
    [Object.prototype]: [key in obj] and [obj[key]] find them as well as the
    object's own keys. *)
Definition Object_prototype : list string :=
  [ "constructor"; "__defineGetter__"; "__defineSetter__"; "hasOwnProperty";
    "__lookupGetter__"; "__lookupSetter__"; "isPrototypeOf";
    "propertyIsEnumerable"; "toString"; "valueOf"; "__proto__";
    "toLocaleString" ].

(** What [obj[key]] finds in an object literal whose values are error
    classes: a class of the literal; under ['constructor'] the function
    [Object]; under another inherited name a method or, for ['__proto__'],
    an object, none of which is a constructor. *)
Inductive Member : Type :=
| OwnClass (kind : ErrorKind)
| ObjectFunction
| NotAConstructor.

(** [key in obj] and [obj[key]] at once: [None] when [key in obj] is false. *)
Definition js_member (obj : table ErrorKind) (key : string) : option Member :=
  match table_get obj key with
  | Some kind => Some (OwnClass kind)
  | None =>
      if bool_decide (key = "constructor") then Some ObjectFunction
      else if bool_decide (key ∈ Object_prototype) then Some NotAConstructor
      else None
  end.

(** [throw new C (message)] *)
Definition throw_new {A : Type} (C : Member) (message : string) : outcome A :=
  match C with
  | OwnClass kind => Thrown (Raise kind message)
  | ObjectFunction => Thrown (StringObject message)
  | NotAConstructor => Thrown TypeError
  end.

(** Modelled from the spec: [findBroadlyMatchedKey (broad, string)] of the
    base class (not under [src/]).  §4.1 step 2: scan the table of substrings;
    the first substring found in the message wins, table order being the
    tie-break; [undefined] when none is found. *)
Fixpoint findBroadlyMatchedKey {V : Type} (broad : table V) (message : string)
  : option string :=
  match broad with
  | [] => None
  | (key, _) :: rest =>
      if includes message key then Some key
      else findBroadlyMatchedKey rest message
  end.

(** ** [describe ()]: the tables of the adapter *)

(** ['commonCurrencies'] *)
Definition commonCurrencies : table string :=
  [ ("AIR", "AirCoin"); ("APH", "AphroditeCoin"); ("BCC", "BTCtalkcoin");
    ("BDG", "Badgercoin"); ("BTM", "Bitmark"); ("CON", "Coino");
    ("GOLD", "GoldEagles"); ("GPUC", "GPU"); ("HOT", "Hotcoin");
    ("ITC", "Information Coin"); ("PLX", "ParallaxCoin"); ("KEY", "KEYCoin");
    ("STR", "XLM"); ("SOC", "SOCC"); ("XAP", "API Coin") ].

(** ['exceptions']['exact'] *)
Definition exceptions_exact : table ErrorKind :=
  [ ("You may only place orders that reduce your position.", InvalidOrder);
    ("Invalid order number, or you are not the person who placed the order.", OrderNotFound);
    ("Permission denied", PermissionDenied);
    ("Connection timed out. Please try again.", RequestTimeout);
    ("Internal error. Please try again.", ExchangeNotAvailable);
    ("Order not found, or you are not the person who placed it.", OrderNotFound);
    ("Invalid API key/secret pair.", AuthenticationError);
    ("Please do not make more than 8 API calls per second.", DDoSProtection);
    ("Rate must be greater than zero.", InvalidOrder) ].

(** ['exceptions']['broad'] *)
Definition exceptions_broad : table ErrorKind :=
  [ ("Total must be at least", InvalidOrder);
    ("This account is frozen.", AccountSuspended);
    ("Not enough", InsufficientFunds);
    ("Nonce must be greater", InvalidNonce);
    ("You have already called cancelOrder or moveOrder on this order.", CancelPending);
    ("Amount must be at least", InvalidOrder);
    ("is either completed or does not exist", InvalidOrder) ].

(** ['api']['private']['post']: each entry [e] defines the method
    ['privatePost' + capitalize (e)]. *)
Definition private_post : list string :=
  [ "buy"; "cancelLoanOffer"; "cancelOrder"; "cancelAllOrders";
    "closeMarginPosition"; "createLoanOffer"; "generateNewAddress";
    "getMarginPosition"; "marginBuy"; "marginSell"; "moveOrder";
    "returnActiveLoans"; "returnAvailableAccountBalances"; "returnBalances";
    "returnCompleteBalances"; "returnDepositAddresses";
    "returnDepositsWithdrawals"; "returnFeeInfo"; "returnLendingHistory";
    "returnMarginAccountSummary"; "returnOpenLoanOffers"; "returnOpenOrders";
    "returnOrderTrades"; "returnOrderStatus"; "returnTradableBalances";
    "returnTradeHistory"; "sell"; "toggleAutoRenew"; "transferBalance";
    "withdraw" ].

(** ['has']['createMarketOrder'] *)
Definition has_createMarketOrder : bool := false.

(** ** The data model *)

(** A market of [this.markets] / [this.markets_by_id], as [fetchMarkets]
    builds it. *)
Record Market : Type := {
  market_id : string;
  market_symbol : string;
  market_baseId : string;
  market_quoteId : string;
  market_base : string;
  market_quote : string;
  market_active : bool;
}.

(** A trade as the exchange sends it: the keys [parseTrade] reads. *)
Record RawTrade : Type := {
  rt_globalTradeID : option json;
  rt_orderNumber : option json;
  rt_date : option json;
  rt_currencyPair : option string;
  rt_type : option json;
  rt_rate : option json;
  rt_total : option json;
  rt_amount : option json;
  rt_fee : option json;
}.

(** The object literal that [parseTrade] returns, key by key. *)
Record Trade : Type := {
  t_timestamp : option float;
  t_datetime : option string;
  t_symbol : option string;
  t_id : option string;
  t_order : option string;
  t_type : option string;
  t_side : option string;
  t_price : option float;
  t_amount : option float;
  t_cost : option float;
  t_fee : float;
}.

(** An order as the exchange sends it, or as [createOrder] and
    [parseOpenOrders] complete it: the keys [parseOrder] reads. *)
Record RawOrder : Type := {
  ro_timestamp : option json;
  ro_date : option json;
  ro_resultingTrades : option (list RawTrade);
  ro_currencyPair : option json;
  ro_price : option json;
  ro_rate : option json;
  ro_amount : option json;
  ro_startingAmount : option json;
  ro_status : option json;
  ro_type : option json;
  ro_side : option json;
  ro_orderNumber : option json;
}.

(** The object literal that [parseOrder] returns, key by key; an entry of
    the order cache [this.orders]. *)
Record Order : Type := {
  o_id : option string;
  o_timestamp : option float;
  o_datetime : option string;
  o_lastTradeTimestamp : option float;
  o_status : option string;
  o_symbol : option string;
  o_type : option string;
  o_side : option string;
  o_price : option float;
  o_cost : option float;
  o_amount : option float;
  o_filled : option float;
  o_remaining : option float;
  o_trades : option (list Trade);
  o_fee : option float;
}.

(** A per-asset account of [fetchBalance]. *)
Record Account : Type := {
  acc_free : option float;
  acc_used : option float;
  acc_total : option float;
}.

(** What the adapter inherits from [js/base/Exchange.js], which is not
    under [src/]: each member is a parameter of the development. *)
Class BaseExchange : Type := {
  (** ['commonCurrencies'] of the base class's [describe ()], which
      [deepExtend] merges under the adapter's own table *)
  inherited_commonCurrencies : table string;
  parse8601 : option json → option float;
  iso8601 : option float → option string;
  (** [this.xToPrecision (symbol, x)]: the formatted number, or the exception
      of the lookup [this.markets[symbol].precision] *)
  priceToPrecision : option string → option float → outcome json;
  costToPrecision : option string → option float → outcome json;
  feeToPrecision : option string → option float → outcome json;
  amountToPrecision : option string → option float → outcome json;
  (** what [parseTrades] does to the list of parsed trades before it
      returns it (ordering by timestamp, filtering by the market's symbol) *)
  parseTrades_view : list Trade → option Market → list Trade;
  (** [this.filterBySinceLimit (array, since, limit)] *)
  filterBySinceLimit_orders :
    list Order → option float → option float → list Order;
  filterBySinceLimit_trades :
    list Trade → option float → option float → list Trade;
  (** [this.parseBalance (result)] *)
  BalanceView : Type;
  parseBalance : gmap string Account → BalanceView;
  (** [this.parseOrderBook (orderbook)] *)
  RawOrderBook : Type;
  OrderBook : Type;
  parseOrderBook : RawOrderBook → OrderBook;
  (** the ['seq'] key of a raw order book *)
  orderbook_seq : RawOrderBook → option json;
  (** [this.currencyId (code)] *)
  currencyId : option string → option string;
  (** what [this.market (symbol)] throws for a symbol that is not listed *)
  market_not_found : string → exn;
}.

(** The markets of one exchange instance, once loaded. *)
Record Markets : Type := {
  markets : gmap string Market;
  markets_by_id : gmap string Market;
}.

Section Normalizer.
Context `{Runtime} `{BaseExchange}.
Context (M : Markets).

(** Modelled from the spec: [commonCurrencyCode (currency)] of the base class
    (not under [src/]).  §4.2: a fixed table translating legacy or rebranded
    ticker symbols to canonical codes; a code without an entry stays as it
    is. *)
Definition commonCurrencyCode (currency : string) : string :=
  match table_get commonCurrencies currency with
  | Some code => code
  | None => default currency (table_get inherited_commonCurrencies currency)
  end.

(** Modelled from the spec: [this.market (symbol)] of the base class (not
    under [src/]): the market of [this.markets] (§3: markets are keyed by
    symbol), an exception when the symbol is not listed. *)
Definition market (symbol : string) : outcome Market :=
  match markets M !! symbol with
  | Some m => Returned m
  | None => Thrown (market_not_found symbol)
  end.

(** [const [ quoteId, baseId ] = id.split ('_')] followed by
    [base = this.commonCurrencyCode (baseId)], [quote = ...],
    [symbol = base + '/' + quote]: the block shared, letter for letter, by
    [fetchOrderBooks], [fetchTickers] and [fetchMyTrades]. *)
Definition symbol_of_id (id : string) : string :=
  let parts := split underscore id in
  let quoteId := parts !! 0%nat in
  let baseId := parts !! 1%nat in
  let base := commonCurrencyCode <$> baseId in
  let quote := commonCurrencyCode <$> quoteId in
  str base +:+ "/" +:+ str quote.

(** [parseTrade (trade, market = undefined)] *)
Definition parseTrade (trade : RawTrade) (market : option Market) : Trade :=
  let id := safeString (rt_globalTradeID trade) in
  let orderId := safeString (rt_orderNumber trade) in
  let timestamp := parse8601 (JStr <$> safeString (rt_date trade)) in
  let '(market, symbol) :=
    match market, rt_currencyPair trade with
    | None, Some currencyPair =>
        match markets_by_id M !! currencyPair with
        | Some m => (Some m, None)
        | None =>
            let parts := split underscore currencyPair in
            let quote := parts !! 0%nat in
            let base := parts !! 1%nat in
            (None, Some (str base +:+ "/" +:+ str quote))
        end
    | _, _ => (market, None)
    end in
  let symbol :=
    match market with
    | Some m => Some (market_symbol m)
    | None => symbol
    end in
  let side := safeString (rt_type trade) in
  let price := safeFloat (rt_rate trade) in
  let cost := safeFloat (rt_total trade) in
  let amount := safeFloat (rt_amount trade) in
  let feePer := safeFloat (rt_fee trade) in
  let fee :=
    if bool_decide (side = Some "buy") then js_mul amount feePer
    else if bool_decide (side = Some "sell") then js_mul cost feePer
    else 0%float in
  {| t_timestamp := timestamp;
     t_datetime := iso8601 timestamp;
     t_symbol := symbol;
     t_id := id;
     t_order := orderId;
     t_type := Some "limit";
     t_side := side;
     t_price := price;
     t_amount := amount;
     t_cost := cost;
     t_fee := fee |}.

(** [this.parseTrades (trades, market)] of the base class: [this.parseTrade]
    over the payload, then the base class's ordering and filtering. *)
Definition parseTrades (trades : list RawTrade) (market : option Market)
  : list Trade :=
  parseTrades_view ((λ trade, parseTrade trade market) <$> trades) market.

(** [parseOrderStatus (status)] *)
Definition parseOrderStatus (status : option string) : option string :=
  let statuses : table string :=
    [ ("Open", "open"); ("Partially filled", "open") ] in
  match status with
  | Some s => Some (default s (table_get statuses s))
  | None => None
  end.

(** The running variables of the [trades.forEach] loop in [parseOrder]. *)
Record TradeTotals : Type := {
  tt_filled : option float;
  tt_cost : float;
  tt_fee : float;
  tt_tradePrice : float;
  tt_lastTradeTimestamp : option float;
}.

Definition parseOrder_trade (acc : TradeTotals) (trade : Trade) : TradeTotals :=
  let tradeAmount := t_amount trade in
  let tradeCost := t_cost trade in
  (* a parsed trade has no 'date' key *)
  let tradeTimestamp := parse8601 None in
  {| tt_filled := sum (tt_filled acc) tradeAmount;
     tt_cost := js_add (Some (tt_cost acc)) tradeCost;
     tt_fee := PrimFloat.add (tt_fee acc) (t_fee trade);
     tt_tradePrice := js_add (Some (tt_tradePrice acc)) (t_price trade);
     tt_lastTradeTimestamp :=
       if js_lt (tt_lastTradeTimestamp acc) tradeTimestamp then tradeTimestamp
       else tt_lastTradeTimestamp acc |}.

(** [parseOrder (order, market = undefined)] *)
Definition parseOrder (order : RawOrder) (market : option Market)
  : outcome Order :=
  let timestamp :=
    match safeInteger (ro_timestamp order) with
    | Some t => if truthy t then Some t else parse8601 (ro_date order)
    | None => parse8601 (ro_date order)
    end in
  let trades := (λ ts, parseTrades ts market) <$> ro_resultingTrades order in
  let marketId := safeString (ro_currencyPair order) in
  let market :=
    match marketId ≫= (λ k, markets_by_id M !! k) with
    | Some m => Some m
    | None => market
    end in
  let symbol := market_symbol <$> market in
  let price := safeFloat2 (ro_price order) (ro_rate order) in
  let remaining := safeFloat (ro_amount order) in
  let amount := safeFloat_or (ro_startingAmount order) remaining in
  let '(filled, cost) :=
    match amount, remaining with
    | Some a, Some r =>
        let filled := PrimFloat.sub a r in
        (Some filled,
         match price with
         | Some p => PrimFloat.mul filled p
         | None => 0%float
         end)
    | _, _ => (None, 0%float)
    end in
  let '(filled, cost, fee, lastTradeTimestamp, price) :=
    match filled, trades with
    | None, Some ts =>
        let acc := foldl parseOrder_trade
          {| tt_filled := Some 0%float; tt_cost := 0%float; tt_fee := 0%float;
             tt_tradePrice := 0%float; tt_lastTradeTimestamp := None |} ts in
        (tt_filled acc, tt_cost acc, tt_fee acc, tt_lastTradeTimestamp acc,
         if truthy (tt_tradePrice acc)
         then Some (PrimFloat.div (tt_tradePrice acc) (float_of_nat (length ts)))
         else price)
    | _, _ => (filled, cost, 0%float, None, price)
    end in
  let status := parseOrderStatus (safeString (ro_status order)) in
  let type := safeString (ro_type order) in
  let side := safeString_or (ro_side order) type in
  let type := if bool_decide (type = side) then None else type in
  let id := safeString (ro_orderNumber order) in
  price' ← priceToPrecision symbol price;
  cost' ← costToPrecision symbol (Some cost);
  fee' ← feeToPrecision symbol (Some fee);
  mret {| o_id := id;
          o_timestamp := timestamp;
          o_datetime := iso8601 timestamp;
          o_lastTradeTimestamp := lastTradeTimestamp;
          o_status := status;
          o_symbol := symbol;
          o_type := type;
          o_side := side;
          o_price := Some (toNumber price');
          o_cost := Some (toNumber cost');
          o_amount := amount;
          o_filled := filled;
          o_remaining := remaining;
          o_trades := trades;
          o_fee := Some (toNumber fee') |}.

End Normalizer.

(** ** The order cache and its reconciler *)

(** [Object.keys (obj)] of a dictionary.  The engine's enumeration order is
    not modelled; it decides the order of the list [fetchOrders] returns and
    nothing in the cache. *)
Definition object_keys {V : Type} (obj : gmap string V) : list string :=
  (map_to_list obj).*1.

(** [this.extend (a, b)], that is [Object.assign ({}, a, b)], on two orders:
    [b] owns every key of an order, so each key is taken from [b]. *)
Definition extend_order (a b : Order) : Order :=
  {| o_id := o_id b;
     o_timestamp := o_timestamp b;
     o_datetime := o_datetime b;
     o_lastTradeTimestamp := o_lastTradeTimestamp b;
     o_status := o_status b;
     o_symbol := o_symbol b;
     o_type := o_type b;
     o_side := o_side b;
     o_price := o_price b;
     o_cost := o_cost b;
     o_amount := o_amount b;
     o_filled := o_filled b;
     o_remaining := o_remaining b;
     o_trades := o_trades b;
     o_fee := o_fee b |}.

(** [this.extend (a, b)] on two raw orders: a key of [b] overrides [a]'s. *)
Definition extend_raw (a b : RawOrder) : RawOrder :=
  let pick {A} (f : RawOrder → option A) : option A :=
    match f b with Some v => Some v | None => f a end in
  {| ro_timestamp := pick ro_timestamp;
     ro_date := pick ro_date;
     ro_resultingTrades := pick ro_resultingTrades;
     ro_currencyPair := pick ro_currencyPair;
     ro_price := pick ro_price;
     ro_rate := pick ro_rate;
     ro_amount := pick ro_amount;
     ro_startingAmount := pick ro_startingAmount;
     ro_status := pick ro_status;
     ro_type := pick ro_type;
     ro_side := pick ro_side;
     ro_orderNumber := pick ro_orderNumber |}.

(** [order['status'] = status] *)
Definition set_status (status : string) (o : Order) : Order :=
  {| o_id := o_id o;
     o_timestamp := o_timestamp o;
     o_datetime := o_datetime o;
     o_lastTradeTimestamp := o_lastTradeTimestamp o;
     o_status := Some status;
     o_symbol := o_symbol o;
     o_type := o_type o;
     o_side := o_side o;
     o_price := o_price o;
     o_cost := o_cost o;
     o_amount := o_amount o;
     o_filled := o_filled o;
     o_remaining := o_remaining o;
     o_trades := o_trades o;
     o_fee := o_fee o |}.

(** The closing branch of [fetchOrders]:
    [order = this.extend (order, { 'status': 'closed', 'cost': undefined,
    'filled': order['amount'], 'remaining': 0.0 })], then
    [order['cost'] = order['filled'] * order['price']] when [cost] is
    [undefined] and [filled] is not. *)
Definition close_order (order : Order) : Order :=
  let status := Some "closed" in
  let cost : option float := None in
  let filled := o_amount order in
  let remaining := Some 0%float in
  let cost :=
    match cost with
    | None =>
        match filled with
        | Some _ => Some (js_mul filled (o_price order))
        | None => None
        end
    | Some c => Some c
    end in
  {| o_id := o_id order;
     o_timestamp := o_timestamp order;
     o_datetime := o_datetime order;
     o_lastTradeTimestamp := o_lastTradeTimestamp order;
     o_status := status;
     o_symbol := o_symbol order;
     o_type := o_type order;
     o_side := o_side order;
     o_price := o_price order;
     o_cost := cost;
     o_amount := o_amount order;
     o_filled := filled;
     o_remaining := remaining;
     o_trades := o_trades order;
     o_fee := o_fee order |}.

(** The body of [privatePostReturnOpenOrders]'s answer: an array for one
    market, an object keyed by market id for ['all']. *)
Inductive OpenOrdersResponse : Type :=
| OrdersOfMarket (orders : list RawOrder)
| OrdersByMarket (byId : table (list RawOrder)).

(** [indexBy (orders, 'id')]; the loop
    [this.orders[openOrders[j]['id']] = openOrders[j]] is the same fold
    started from the cache. *)
Definition upsert (cache : gmap string Order) (openOrders : list Order)
  : gmap string Order :=
  foldl (λ c o, <[key_of (o_id o) := o]> c) cache openOrders.

Definition indexBy_id (openOrders : list Order) : gmap string Order :=
  upsert ∅ openOrders.

Section OrderCache.
Context `{Runtime} `{BaseExchange}.
Context (M : Markets).

(** [parseOpenOrders (orders, market, result)]: [extended] is
    [this.extend (order, { 'status': 'open', 'type': 'limit',
    'side': order['type'], 'price': order['rate'] })]. *)
Definition parseOpenOrders (orders : list RawOrder) (market : option Market)
  (result : list Order) : outcome (list Order) :=
  forEach (λ result order,
    let extended :=
      {| ro_timestamp := ro_timestamp order;
         ro_date := ro_date order;
         ro_resultingTrades := ro_resultingTrades order;
         ro_currencyPair := ro_currencyPair order;
         ro_price := ro_rate order;
         ro_rate := ro_rate order;
         ro_amount := ro_amount order;
         ro_startingAmount := ro_startingAmount order;
         ro_status := Some (JStr "open");
         ro_type := Some (JStr "limit");
         ro_side := ro_type order;
         ro_orderNumber := ro_orderNumber order |} in
    parsed ← parseOrder M extended market;
    mret (result ++ [parsed])%list) result orders.

(** The first half of [fetchOrders]: the response turned into [openOrders]. *)
Definition fetchOrders_parse (market : option Market)
  (response : OpenOrdersResponse) : outcome (list Order) :=
  match market, response with
  | Some m, OrdersOfMarket orders => parseOpenOrders orders (Some m) []
  | Some _, OrdersByMarket _ => Thrown TypeError
  | None, OrdersByMarket byId =>
      forEach (λ openOrders '(marketId, orders),
        let m := markets_by_id M !! marketId in
        parseOpenOrders orders m openOrders) [] byId
  | None, OrdersOfMarket [] => Returned []
  | None, OrdersOfMarket (_ :: _) => Thrown TypeError
  end.

(** One turn of the loop [for (let k = 0; k < cachedOrderIds.length; k++)]
    of [fetchOrders]; [id] is a key of [this.orders]. *)
Definition reconcile_step (openOrdersIndexedById : gmap string Order)
  (market : option Market) (symbol : option string)
  (st : gmap string Order * list Order) (id : string)
  : gmap string Order * list Order :=
  let '(orders, result) := st in
  match orders !! id with
  | None => st
  | Some cached =>
      let orders :=
        match openOrdersIndexedById !! id with
        | Some fresh => <[id := extend_order cached fresh]> orders
        | None =>
            if bool_decide (o_status cached = Some "open")
            then <[id := close_order cached]> orders
            else orders
        end in
      match orders !! id with
      | None => (orders, result)
      | Some order =>
          match market with
          | Some _ =>
              if bool_decide (o_symbol order = symbol)
              then (orders, result ++ [order])%list
              else (orders, result)
          | None => (orders, result ++ [order])%list
          end
      end
  end.

(** The second half of [fetchOrders]: upsert, index, reconcile. *)
Definition fetchOrders_reconcile (market : option Market)
  (symbol : option string) (openOrders : list Order)
  (cache : gmap string Order) : gmap string Order * list Order :=
  let orders := upsert cache openOrders in
  let openOrdersIndexedById := indexBy_id openOrders in
  let cachedOrderIds := object_keys orders in
  foldl (reconcile_step openOrdersIndexedById market symbol)
    (orders, []) cachedOrderIds.

(** [fetchOrders (symbol, since, limit)]: [response] is what
    [privatePostReturnOpenOrders] answers (or throws); the result is the new
    [this.orders] and what the method returns (or throws). *)
Definition fetchOrders (symbol : option string) (since limit : option float)
  (response : outcome OpenOrdersResponse) (cache : gmap string Order)
  : gmap string Order * outcome (list Order) :=
  let parsed :=
    market ← match symbol with
              | Some s => Some <$> market M s
              | None => Returned None
              end;
    response ← response;
    openOrders ← fetchOrders_parse market response;
    mret (market, openOrders) in
  match parsed with
  | Thrown e => (cache, Thrown e)
  | Returned (market, openOrders) =>
      let '(orders, result) :=
        fetchOrders_reconcile market symbol openOrders cache in
      (orders, Returned (filterBySinceLimit_orders result since limit))
  end.

(** [if (id in this.orders) this.orders[id]['status'] = 'canceled'] *)
Definition mark_canceled (id : string) (cache : gmap string Order)
  : gmap string Order :=
  match cache !! id with
  | Some order => <[id := set_status "canceled" order]> cache
  | None => cache
  end.

(** [cancelOrder (id)]: [response] is what [privatePostCancelOrder] answers
    (or throws). *)
Definition cancelOrder {R : Type} (id : string) (response : outcome R)
  (cache : gmap string Order) : gmap string Order * outcome R :=
  match response with
  | Thrown e =>
      let cache :=
        if instanceof e CancelPending then mark_canceled id cache else cache in
      (cache, Thrown e)
  | Returned response => (mark_canceled id cache, Returned response)
  end.

(** Modelled from the spec: [capitalize (s)] of the base class (not under
    [src/]); §9 names the dispatch by a method name built at run time from
    the side. *)
Definition capitalize (s : string) : string :=
  match s with
  | EmptyString => EmptyString
  | String c s' =>
      let n := Ascii.nat_of_ascii c in
      String (if (97 <=? n)%nat && (n <=? 122)%nat
              then Ascii.ascii_of_nat (n - 32) else c) s'
  end.

(** Modelled from the spec: [this[method]] is a function, that is one of
    the methods that the base class (not under [src/]) generates from
    ['api']['private']['post']; §9 has the endpoint selected by a method name
    built at run time. *)
Definition has_method (method : string) : bool :=
  bool_decide (method ∈ (λ e, "privatePost" +:+ capitalize e) <$> private_post).

(** [createOrder (symbol, type, side, amount, price)]: [response] is what
    [this[method]] answers (or throws), [now] is [this.milliseconds ()]. *)
Definition createOrder (symbol type side : string) (amount : float)
  (price : option float) (response : outcome RawOrder) (now : float)
  (cache : gmap string Order) : gmap string Order * outcome Order :=
  let type := if bool_decide (type = "market") then "limit" else type in
  let method := "privatePost" +:+ capitalize side in
  let parsed :=
    market ← market M symbol;
    rate ← priceToPrecision (Some symbol) price;
    amount' ← amountToPrecision (Some symbol) (Some amount);
    response ← (if has_method method then response else Thrown TypeError);
    let timestamp := now in
    parseOrder M (extend_raw
      {| ro_timestamp := Some (JNum timestamp);
         ro_date := None; ro_resultingTrades := None; ro_currencyPair := None;
         ro_price := JNum <$> price;
         ro_rate := None;
         ro_amount := Some (JNum amount);
         ro_startingAmount := None;
         ro_status := Some (JStr "open");
         ro_type := Some (JStr type);
         ro_side := Some (JStr side);
         ro_orderNumber := None |} response) (Some market) in
  match parsed with
  | Thrown e => (cache, Thrown e)
  | Returned order =>
      let id := o_id order in
      (<[key_of id := order]> cache, Returned (extend_order order order))
  end.

End OrderCache.

(** ** Error classification *)

(** The parsed body handed to [handleErrors]: its ['error'] key. *)
Record ResponseBody : Type := {
  body_error : option string;
}.

(** [handleErrors (code, reason, url, method, headers, body, response)] *)
Definition handleErrors (response : option ResponseBody) : outcome unit :=
  match response with
  | None => Returned ()
  | Some response =>
      match body_error response with
      | Some message =>
          let exact := exceptions_exact in
          match js_member exact message with
          | Some C => throw_new C message
          | None =>
              let broad := exceptions_broad in
              let broadKey := findBroadlyMatchedKey broad message in
              match broadKey with
              | Some key =>
                  match js_member broad key with
                  | Some C => throw_new C message
                  | None => Thrown TypeError
                  end
              | None => Thrown (Raise ExchangeError message)
              end
          end
      | None => Returned ()
      end
  end.

(** ** Balances *)

(** An entry of [privatePostReturnCompleteBalances]'s answer. *)
Record RawBalance : Type := {
  rb_available : option json;
  rb_onOrders : option json;
}.

(** [{ available: 0, on_orders: 0, total: 0 }] and the three of them that
    [initSymbol] stores for an asset. *)
Record WalletEntry : Type := {
  available : float;
  on_orders : float;
  total : float;
}.

Record WalletBalance : Type := {
  exchange : WalletEntry;
  margin : WalletEntry;
  lending : WalletEntry;
}.

(** A loan offer of [returnOpenLoanOffers] / [returnActiveLoans], and the
    object the adapter makes of it. *)
Record RawOffer : Type := {
  rl_id : option json;
  rl_currency : option string;
  rl_rate : option json;
  rl_amount : option json;
  rl_duration : option json;
  rl_date : option json;
}.

Record Offer : Type := {
  l_id : option json;
  l_symbol : option string;
  l_rate : float;
  l_amount : float;
  l_duration : float;
  l_timestamp : float;
}.

(** The answer of [privatePostReturnActiveLoans]: its ['provided'] key. *)
Record ActiveLoansResponse : Type := {
  provided : option (list RawOffer);
}.

Definition zero_entry : WalletEntry :=
  {| available := 0; on_orders := 0; total := 0 |}.

(** [initSymbol (symbol, balances)] *)
Definition initSymbol (symbol : string) (balances : gmap string WalletBalance)
  : gmap string WalletBalance :=
  match balances !! symbol with
  | Some _ => balances
  | None =>
      <[symbol := {| exchange := zero_entry; margin := zero_entry;
                     lending := zero_entry |}]> balances
  end.

(** [balances[symbol][wallet] = f (balances[symbol][wallet])]; a [wallet]
    that [initSymbol] did not create reads as [undefined], and the property
    access on it throws. *)
Definition update_wallet (symbol wallet : string)
  (f : WalletEntry → WalletEntry) (balances : gmap string WalletBalance)
  : outcome (gmap string WalletBalance) :=
  match balances !! symbol with
  | None => Thrown TypeError
  | Some b =>
      if bool_decide (wallet = "exchange") then
        Returned (<[symbol := {| exchange := f (exchange b);
                                 margin := margin b;
                                 lending := lending b |}]> balances)
      else if bool_decide (wallet = "margin") then
        Returned (<[symbol := {| exchange := exchange b;
                                 margin := f (margin b);
                                 lending := lending b |}]> balances)
      else if bool_decide (wallet = "lending") then
        Returned (<[symbol := {| exchange := exchange b;
                                 margin := margin b;
                                 lending := f (lending b) |}]> balances)
      else Thrown TypeError
  end.

(** [entry.available += x], [entry.on_orders += x] and
    [entry.total = entry.available + entry.on_orders]. *)
Definition add_available (x : float) (e : WalletEntry) : WalletEntry :=
  {| available := PrimFloat.add (available e) x;
     on_orders := on_orders e;
     total := total e |}.

Definition add_on_orders (x : float) (e : WalletEntry) : WalletEntry :=
  {| available := available e;
     on_orders := PrimFloat.add (on_orders e) x;
     total := total e |}.

Definition calc_total (e : WalletEntry) : WalletEntry :=
  {| available := available e;
     on_orders := on_orders e;
     total := PrimFloat.add (available e) (on_orders e) |}.

(** The last loop of [fetchWalletBalance] on one asset:
    [Object.keys (balances[symbol]).forEach (wallet => ...)]. *)
Definition calc_totals (b : WalletBalance) : WalletBalance :=
  {| exchange := calc_total (exchange b);
     margin := calc_total (margin b);
     lending := calc_total (lending b) |}.

Section Balances.
Context `{Runtime} `{BaseExchange}.

(** The loop of [fetchBalance]: [result[code] = account]. *)
Definition fetchBalance_accounts (response : table RawBalance)
  : gmap string Account :=
  foldl (λ result '(currencyId, balance),
    let code := commonCurrencyCode currencyId in
    let free := safeFloat (rb_available balance) in
    let used := safeFloat (rb_onOrders balance) in
    let account := {| acc_free := free; acc_used := used;
                      acc_total := Some 0%float |} in
    let account := {| acc_free := acc_free account;
                      acc_used := acc_used account;
                      acc_total := sum (acc_free account) (acc_used account) |} in
    <[code := account]> result) ∅ response.

(** [fetchBalance ()]: [response] is what
    [privatePostReturnCompleteBalances] answers (or throws). *)
Definition fetchBalance (response : outcome (table RawBalance))
  : outcome BalanceView :=
  response ← response;
  mret (parseBalance (fetchBalance_accounts response)).

(** [parseOpenLoans (symbol, symbolOpenLoans)] *)
Definition parseOpenLoans (symbol : string) (symbolOpenLoans : list RawOffer)
  : list Offer :=
  (λ offer,
    {| l_id := rl_id offer;
       l_symbol := Some (commonCurrencyCode symbol);
       l_rate := Number (rl_rate offer);
       l_amount := Number (rl_amount offer);
       l_duration := Number (rl_duration offer);
       l_timestamp := Date_parse (rl_date offer) |}) <$> symbolOpenLoans.

(** [fetchOpenLoans (symbol = undefined)]: [response] is what
    [privatePostReturnOpenLoanOffers] answers (or throws). *)
Definition fetchOpenLoans (symbol : option string)
  (response : outcome (table (list RawOffer))) : outcome (list Offer) :=
  let currency := currencyId symbol in
  response ← response;
  match symbol with
  | None =>
      mret (foldl (λ offers '(currencyId, symbolOpenLoans),
              offers ++ parseOpenLoans currencyId symbolOpenLoans)%list
            [] response)
  | Some _ =>
      match table_get response (key_of currency) with
      | Some symbolOpenLoans =>
          mret (parseOpenLoans (key_of currency) symbolOpenLoans)
      | None => mret []
      end
  end.

(** [fetchActiveLoans (symbol = undefined)]: [response] is what
    [privatePostReturnActiveLoans] answers (or throws). *)
Definition fetchActiveLoans (symbol : option string)
  (response : outcome ActiveLoansResponse) : outcome (list Offer) :=
  response ← response;
  match provided response with
  | None => Thrown TypeError
  | Some offers =>
      mret (foldl (λ result offer,
              let currency := commonCurrencyCode <$> rl_currency offer in
              if bool_decide (symbol = None) || bool_decide (currency = symbol)
              then result ++
                [ {| l_id := rl_id offer;
                     l_symbol := currency;
                     l_rate := Number (rl_rate offer);
                     l_amount := Number (rl_amount offer);
                     l_duration := Number (rl_duration offer);
                     l_timestamp := Date_parse (rl_date offer) |} ]
              else result)%list [] offers)
  end.

(** [fetchWalletBalance ()] up to, and without, its last loop: the three
    accumulations.  The arguments are the answers (or exceptions) of
    [privatePostReturnAvailableAccountBalances],
    [privatePostReturnCompleteBalances], [privatePostReturnOpenLoanOffers]
    and [privatePostReturnActiveLoans], awaited in this order. *)
Definition fetchWalletBalance_accumulate
  (availableResponse : outcome (table (table json)))
  (completeResponse : outcome (table RawBalance))
  (openLoansResponse : outcome (table (list RawOffer)))
  (activeLoansResponse : outcome ActiveLoansResponse)
  : outcome (gmap string WalletBalance) :=
  let balances : gmap string WalletBalance := ∅ in
  (* calc available *)
  available ← availableResponse;
  balances ← forEach (λ balances '(wallet, symbols),
    forEach (λ balances '(symbol, value),
      let currency := commonCurrencyCode symbol in
      let balances := initSymbol currency balances in
      update_wallet currency wallet (add_available (toNumber value)) balances)
      balances symbols) balances available;
  (* calc on_orders in exchange *)
  openOrdersBalances ← completeResponse;
  balances ← forEach (λ balances '(symbol, balance),
    let onOrders := Number (rb_onOrders balance) in
    if PrimFloat.eqb onOrders 0 then Returned balances
    else
      let currency := commonCurrencyCode symbol in
      let balances := initSymbol currency balances in
      update_wallet currency "exchange" (add_on_orders onOrders) balances)
    balances openOrdersBalances;
  (* calc on_orders in lending *)
  open_loans ← fetchOpenLoans None openLoansResponse;
  active_loans ← fetchActiveLoans None activeLoansResponse;
  let loans := (open_loans ++ active_loans)%list in
  forEach (λ balances offer,
    let symbol := key_of (l_symbol offer) in
    let balances := initSymbol symbol balances in
    update_wallet symbol "lending" (add_on_orders (l_amount offer)) balances)
    balances loans.

(** [fetchWalletBalance ()] *)
Definition fetchWalletBalance
  (availableResponse : outcome (table (table json)))
  (completeResponse : outcome (table RawBalance))
  (openLoansResponse : outcome (table (list RawOffer)))
  (activeLoansResponse : outcome ActiveLoansResponse)
  : outcome (gmap string WalletBalance) :=
  balances ← fetchWalletBalance_accumulate availableResponse completeResponse
                openLoansResponse activeLoansResponse;
  (* calc total *)
  mret (foldl (λ balances symbol,
          match balances !! symbol with
          | Some b => <[symbol := calc_totals b]> balances
          | None => balances
          end) balances (object_keys balances)).

End Balances.

(** ** Tickers, order books and the account's trades *)




Section Public.
Context `{Runtime} `{BaseExchange}.
Context (M : Markets).

(** The symbol that [fetchOrderBooks], [fetchTickers] and [fetchMyTrades]
    give to a market id:
    [if (id in this.markets_by_id) symbol = this.markets_by_id[id]['symbol']]
    and the split of the id otherwise. *)
Definition resolve_symbol (id : string) : string :=
  match markets_by_id M !! id with
  | Some m => market_symbol m
  | None => symbol_of_id id
  end.




(** [this.extend (trade, { 'symbol': symbol })] *)
Definition set_symbol (symbol : string) (t : Trade) : Trade :=
  {| t_timestamp := t_timestamp t;
     t_datetime := t_datetime t;
     t_symbol := Some symbol;
     t_id := t_id t;
     t_order := t_order t;
     t_type := t_type t;
     t_side := t_side t;
     t_price := t_price t;
     t_amount := t_amount t;
     t_cost := t_cost t;
     t_fee := t_fee t |}.

(** The trades that the ['all'] branch of [fetchMyTrades] collects for one
    key of the response. *)
Definition fetchMyTrades_of_id (id : string) (trades : list RawTrade)
  : list Trade :=
  match markets_by_id M !! id with
  | Some market => parseTrades M trades (Some market)
  | None =>
      let symbol := symbol_of_id id in
      (λ trade, set_symbol symbol (parseTrade M trade None)) <$> trades
  end.


End Public.

(** ** Orders by status, single orders, edits and mass cancels *)

(** ['id'] of [describe ()] *)
Definition exchange_id : string := "poloniex".

(** [order['id'] = id] and [order['amount'] = amount] *)
Definition set_id (id : option string) (o : Order) : Order :=
  {| o_id := id;
     o_timestamp := o_timestamp o;
     o_datetime := o_datetime o;
     o_lastTradeTimestamp := o_lastTradeTimestamp o;
     o_status := o_status o;
     o_symbol := o_symbol o;
     o_type := o_type o;
     o_side := o_side o;
     o_price := o_price o;
     o_cost := o_cost o;
     o_amount := o_amount o;
     o_filled := o_filled o;
     o_remaining := o_remaining o;
     o_trades := o_trades o;
     o_fee := o_fee o |}.

Definition set_amount (amount : float) (o : Order) : Order :=
  {| o_id := o_id o;
     o_timestamp := o_timestamp o;
     o_datetime := o_datetime o;
     o_lastTradeTimestamp := o_lastTradeTimestamp o;
     o_status := o_status o;
     o_symbol := o_symbol o;
     o_type := o_type o;
     o_side := o_side o;
     o_price := o_price o;
     o_cost := o_cost o;
     o_amount := Some amount;
     o_filled := o_filled o;
     o_remaining := o_remaining o;
     o_trades := o_trades o;
     o_fee := o_fee o |}.

(** The object [{ id: id, status: 'canceled' }] that [fetchOrder] returns
    for an order of which the exchange knows nothing. *)
Definition canceled_stub (id : string) : Order :=
  {| o_id := Some id; o_timestamp := None; o_datetime := None;
     o_lastTradeTimestamp := None; o_status := Some "canceled";
     o_symbol := None; o_type := None; o_side := None; o_price := None;
     o_cost := None; o_amount := None; o_filled := None; o_remaining := None;
     o_trades := None; o_fee := None |}.

(** [trade.orderNumber = id] *)
Definition set_orderNumber (id : string) (trade : RawTrade) : RawTrade :=
  {| rt_globalTradeID := rt_globalTradeID trade;
     rt_orderNumber := Some (JStr id);
     rt_date := rt_date trade;
     rt_currencyPair := rt_currencyPair trade;
     rt_type := rt_type trade;
     rt_rate := rt_rate trade;
     rt_total := rt_total trade;
     rt_amount := rt_amount trade;
     rt_fee := rt_fee trade |}.

(** The answer of [privatePostReturnOrderStatus]: its ['result'] key, an
    object keyed by order number. *)
Record OrderStatusResponse : Type := {
  os_result : option (gmap string RawOrder);
}.

(** The answer of [privatePostCancelAllOrders]: its ['orderNumbers'] key. *)
Record CancelAllResponse : Type := {
  ca_orderNumbers : option (list json);
}.

(** [filterOrdersByStatus (orders, status)] *)
Definition filterOrdersByStatus (orders : list Order) (status : string)
  : list Order :=
  foldl (λ result order,
    if bool_decide (o_status order = Some status)
    then (result ++ [order])%list else result) [] orders.

Section Orders.
Context `{Runtime} `{BaseExchange}.
Context (M : Markets).

(** [x.toString ()] of a payload scalar. *)
Definition json_toString (x : json) : string :=
  match x with
  | JStr s => s
  | JNum n => numberToString n
  end.

(** [fetchOpenOrders (symbol, since, limit)]: [response] is what
    [privatePostReturnOpenOrders] answers (or throws). *)
Definition fetchOpenOrders (symbol : option string) (since limit : option float)
  (response : outcome OpenOrdersResponse) (cache : gmap string Order)
  : gmap string Order * outcome (list Order) :=
  let '(cache, orders) := fetchOrders M symbol since limit response cache in
  (cache, orders ← orders; mret (filterOrdersByStatus orders "open")).

(** [fetchOrderStatus (id, symbol)] *)
Definition fetchOrderStatus (id : string) (symbol : option string)
  (response : outcome OpenOrdersResponse) (cache : gmap string Order)
  : gmap string Order * outcome string :=
  let '(cache, orders) := fetchOpenOrders symbol None None response cache in
  (cache,
   orders ← orders;
   let indexed := indexBy_id orders in
   mret (if bool_decide (is_Some (indexed !! id)) then "open" else "closed")).

(** [fetchOpenOrder (id)]: [result] is what
    [this.safeValue (response['result'], id)] finds in the answer of
    [privatePostReturnOrderStatus], or the exception of that call. *)
Definition fetchOpenOrder (id : string) (result : outcome (option RawOrder))
  (cache : gmap string Order) : gmap string Order * outcome Order :=
  match result with
  | Thrown e => (cache, Thrown e)
  | Returned None =>
      (cache,
       Thrown (Raise OrderNotFound
                 (exchange_id +:+ " order id " +:+ id +:+ " not found")))
  | Returned (Some result) =>
      match parseOrder M result None with
      | Thrown e => (cache, Thrown e)
      | Returned order =>
          let order := set_id (Some id) order in
          (<[id := order]> cache, Returned order)
      end
  end.

(** The order that [fetchOrder] makes of the trades of an order, [first]
    being [trades[0]].  Its keys ['total'] and ['fee'], which [parseOrder]
    does not read, are left out. *)
Definition order_of_trades (id : string) (first : RawTrade)
  (trades : list RawTrade) : RawOrder :=
  let startingAmount :=
    foldl (λ startingAmount trade,
             PrimFloat.add startingAmount (Number (rt_amount trade)))
          0%float trades in
  {| ro_timestamp := None;
     ro_date := rt_date first;
     ro_resultingTrades := Some (set_orderNumber id <$> trades);
     ro_currencyPair := JStr <$> rt_currencyPair first;
     ro_price := None;
     ro_rate := Some (JNum (Number (rt_rate first)));
     ro_amount := None;
     ro_startingAmount := Some (JNum startingAmount);
     ro_status := Some (JStr "closed");
     ro_type := rt_type first;
     ro_side := None;
     ro_orderNumber := Some (JStr id) |}.

(** [fetchOrder (id)]: [response] is what [privatePostReturnOrderStatus]
    answers (or throws), [tradesResponse] what [privatePostReturnOrderTrades]
    does. *)
Definition fetchOrder (id : string) (response : outcome OrderStatusResponse)
  (tradesResponse : outcome (list RawTrade)) (cache : gmap string Order)
  : gmap string Order * outcome Order :=
  match response with
  | Thrown e => (cache, Thrown e)
  | Returned response =>
      match os_result response with
      | None => (cache, Thrown TypeError)
      | Some results =>
          let result := results !! id in
          let trades :=
            match tradesResponse with
            | Returned trades => Some trades
            | Thrown _ => None
            end in
          match result with
          | None =>
              match trades with
              | Some trades =>
                  match trades !! 0%nat with
                  | None => (cache, Thrown TypeError)
                  | Some first =>
                      (cache, parseOrder M (order_of_trades id first trades) None)
                  end
              | None => (cache, Returned (canceled_stub id))
              end
          | Some result =>
              match parseOrder M result None with
              | Thrown e => (cache, Thrown e)
              | Returned order =>
                  let order := set_id (Some id) order in
                  (<[id := order]> cache, Returned order)
              end
          end
      end
  end.

(** [editOrder (id, symbol, type, side, amount, price)]: [response] is what
    [privatePostMoveOrder] answers (or throws).  [newid] is the
    ['orderNumber'] of the answer; an order number that the exchange sends
    as a number is shown as the string under which the order is filed. *)
Definition editOrder (id : string) (symbol : option string)
  (amount price : option float) (response : outcome RawOrder)
  (cache : gmap string Order) : gmap string Order * outcome Order :=
  let price := num price in
  let request :=
    rate ← priceToPrecision symbol (Some price);
    amount' ← match amount with
               | Some a => Some <$> amountToPrecision symbol (Some a)
               | None => Returned None
               end;
    response in
  match request with
  | Thrown e => (cache, Thrown e)
  | Returned response =>
      match cache !! id with
      | Some cached =>
          let canceled := set_status "canceled" cached in
          let cache := <[id := canceled]> cache in
          let newid := safeString (ro_orderNumber response) in
          match priceToPrecision symbol (Some price) with
          | Thrown e => (cache, Thrown e)
          | Returned rate =>
              let moved :=
                {| o_id := newid;
                   o_timestamp := o_timestamp canceled;
                   o_datetime := o_datetime canceled;
                   o_lastTradeTimestamp := o_lastTradeTimestamp canceled;
                   o_status := Some "open";
                   o_symbol := o_symbol canceled;
                   o_type := o_type canceled;
                   o_side := o_side canceled;
                   o_price := Some (toNumber rate);
                   o_cost := o_cost canceled;
                   o_amount := o_amount canceled;
                   o_filled := o_filled canceled;
                   o_remaining := o_remaining canceled;
                   o_trades := o_trades canceled;
                   o_fee := o_fee canceled |} in
              let moved :=
                match amount with
                | Some a => set_amount a moved
                | None => moved
                end in
              (<[key_of newid := moved]> cache, Returned moved)
          end
      | None =>
          let parsed :=
            market ← match symbol with
                      | Some s => Some <$> market M s
                      | None => Returned None
                      end;
            parseOrder M response market in
          match parsed with
          | Thrown e => (cache, Thrown e)
          | Returned result =>
              (<[key_of (o_id result) := result]> cache, Returned result)
          end
      end
  end.

(** [cancelAllOrders (symbol)]: [response] is what
    [privatePostCancelAllOrders] answers (or throws). *)
Definition cancelAllOrders (symbol : option string)
  (response : outcome CancelAllResponse) (cache : gmap string Order)
  : gmap string Order * outcome CancelAllResponse :=
  let request :=
    market ← match symbol with
              | Some s => Some <$> market M s
              | None => Returned None
              end;
    response in
  match request with
  | Thrown e => (cache, Thrown e)
  | Returned response =>
      let orderIds := default [] (ca_orderNumbers response) in
      (foldl (λ cache orderId, mark_canceled (json_toString orderId) cache)
         cache orderIds,
       Returned response)
  end.

End Orders.

(** ** Closed orders, rebuilt from the account's trades *)

(** An entry of the object that [parseClosedOrdersTrades] returns. *)
Record ClosedOrder : Type := {
  co_orderNumber : option json;
  co_date : option json;
  co_currencyPair : string;
  co_status : string;
  co_type : option json;
  co_rate : float;
  co_total : float;
  co_startingAmount : float;
  co_resultingTrades : list RawTrade;
  co_fee : float;
}.

Section ClosedOrders.
Context `{Runtime} `{BaseExchange}.
Context (M : Markets).

(** The body of the loop of [parseClosedOrdersTrades], once
    [orders[trade.orderNumber]] exists. *)
Definition add_trade (trade : RawTrade) (order : ClosedOrder) : ClosedOrder :=
  {| co_orderNumber := co_orderNumber order;
     co_date := co_date order;
     co_currencyPair := co_currencyPair order;
     co_status := co_status order;
     co_type := co_type order;
     co_rate := co_rate order;
     co_total := PrimFloat.add (co_total order) (Number (rt_total trade));
     co_startingAmount :=
       PrimFloat.add (co_startingAmount order) (Number (rt_amount trade));
     co_resultingTrades := (co_resultingTrades order ++ [trade])%list;
     co_fee := co_fee order |}.

(** [parseClosedOrdersTrades (symbol, trades)] *)
Definition parseClosedOrdersTrades (symbol : string) (trades : list RawTrade)
  : gmap string ClosedOrder :=
  foldl (λ orders trade,
    let key := key_of (safeString (rt_orderNumber trade)) in
    let orders :=
      match orders !! key with
      | Some _ => orders
      | None =>
          <[key := {| co_orderNumber := rt_orderNumber trade;
                      co_date := rt_date trade;
                      co_currencyPair := symbol;
                      co_status := "closed";
                      co_type := rt_type trade;
                      co_rate := Number (rt_rate trade);
                      co_total := 0;
                      co_startingAmount := 0;
                      co_resultingTrades := [];
                      co_fee := 0 |}]> orders
      end in
    match orders !! key with
    | Some order => <[key := add_trade trade order]> orders
    | None => orders
    end) ∅ trades.

(** An entry of [parseClosedOrdersTrades] as [parseOrder] reads it. *)
Definition raw_of_closed (order : ClosedOrder) : RawOrder :=
  {| ro_timestamp := None;
     ro_date := co_date order;
     ro_resultingTrades := Some (co_resultingTrades order);
     ro_currencyPair := Some (JStr (co_currencyPair order));
     ro_price := None;
     ro_rate := Some (JNum (co_rate order));
     ro_amount := None;
     ro_startingAmount := Some (JNum (co_startingAmount order));
     ro_status := Some (JStr (co_status order));
     ro_type := co_type order;
     ro_side := None;
     ro_orderNumber := co_orderNumber order |}.

(** [fetchClosedOrders (symbol, since, limit)] for a given [symbol]:
    [response] is what [privatePostReturnTradeHistory] answers (or throws).
    The order of [Object.values (orders)] is the engine's. *)
Definition fetchClosedOrders (symbol : string) (since limit : option float)
  (response : outcome (list RawTrade)) : outcome (list Order) :=
  market ← market M symbol;
  trades ← response;
  let orders := parseClosedOrdersTrades (market_id market) trades in
  parseOrders ← forEach (λ parseOrders order,
      parsed ← parseOrder M (raw_of_closed order) (Some market);
      mret (parseOrders ++ [parsed])%list) [] (map_to_list orders).*2;
  mret (filterBySinceLimit_orders parseOrders since limit).

End ClosedOrders.

(** ** The loan book *)

(** The answer of [publicGetReturnLoanOrders]: its ['offers'] key. *)
Record LoanOrdersResponse : Type := {
  lo_offers : option (list RawOffer);
}.

Record LoanBookOffer : Type := {
  lb_rate : float;
  lb_amount : float;
}.

Section LoanBook.
Context `{Runtime} `{BaseExchange}.

(** [fetchLoanBook (symbol, count = 1)] for an integer [count]:
    [response] is what [publicGetReturnLoanOrders] answers (or throws).  The
    [return false] of the callback does not end the [forEach]; it ends the
    turn. *)
Definition fetchLoanBook (symbol : option string) (count : Z)
  (response : outcome LoanOrdersResponse) : outcome (list LoanBookOffer) :=
  let currency := currencyId symbol in
  response ← response;
  match lo_offers response with
  | None => mret []
  | Some raw =>
      mret (foldl (λ offers offer,
              if (count <=? Z.of_nat (length offers))%Z then offers
              else (offers ++ [ {| lb_rate := Number (rl_rate offer);
                                   lb_amount := Number (rl_amount offer) |} ])%list)
            [] raw)
  end.

End LoanBook.

(** ** Deposits and withdrawals *)

Fixpoint split_str_from (sep : string) (skip : nat) (cur s : string)
  : list string :=
  match s with
  | EmptyString => [cur]
  | String c s' =>
      match skip with
      | S skip' => split_str_from sep skip' cur s'
      | O =>
          if String.prefix sep s
          then cur :: split_str_from sep (String.length sep - 1) "" s'
          else split_str_from sep 0 (cur +:+ String c "") s'
      end
  end.

(** [s.split (sep)] for a separator of one character or more: [skip]
    counts the characters of a separator that are still to be passed. *)
Definition split_str (sep s : string) : list string :=
  split_str_from sep 0 "" s.

(** A currency of [this.currencies_by_id]: its ['code']. *)
Record Currency : Type := {
  currency_code : string;
}.

(** A deposit or a withdrawal as the exchange sends it, with the ['type']
    that [fetchTransactions] adds: the keys [parseTransaction] reads. *)
Record RawTransaction : Type := {
  rx_timestamp : option json;
  rx_currency : option json;
  rx_status : option json;
  rx_txid : option json;
  rx_type : option json;
  rx_withdrawalNumber : option json;
  rx_depositNumber : option json;
  rx_amount : option json;
  rx_address : option json;
  rx_fee : option json;
}.

(** The object literal that [parseTransaction] returns, key by key, but for
    ['info'], which is the payload itself. *)
Record Transaction : Type := {
  x_id : option string;
  x_currency : option string;
  x_amount : option float;
  x_address : option string;
  x_tag : option string;
  x_status : option string;
  x_type : option string;
  x_updated : option float;
  x_txid : option string;
  x_timestamp : option float;
  x_datetime : option string;
  x_fee_currency : option string;
  x_fee_cost : float;
}.

Section Transactions.
Context `{Runtime} `{BaseExchange}.
Context (currencies_by_id : gmap string Currency).

(** [parseTransactionStatus (status)] *)
Definition parseTransactionStatus (status : option string) : option string :=
  let statuses : table string := [ ("COMPLETE", "ok") ] in
  match status with
  | Some s => Some (default s (table_get statuses s))
  | None => None
  end.

(** [parseTransaction (transaction, currency = undefined)]; the [currency]
    argument is overwritten before it is read. *)
Definition parseTransaction (transaction : RawTransaction) : Transaction :=
  let timestamp := safeInteger (rx_timestamp transaction) in
  let timestamp := (λ t, PrimFloat.mul t 1000) <$> timestamp in
  let currencyId := safeString (rx_currency transaction) in
  let currency := currencyId ≫= (λ k, currencies_by_id !! k) in
  let code :=
    match currency with
    | None => commonCurrencyCode <$> currencyId
    | Some currency => Some (currency_code currency)
    end in
  let status := safeString_or (rx_status transaction) (Some "pending") in
  let txid := safeString (rx_txid transaction) in
  let '(status, txid) :=
    match status with
    | Some s =>
        let parts := split_str ": " s in
        let numParts := List.length parts in
        let status := parts !! 0%nat in
        let txid :=
          if (1 <? numParts)%nat && bool_decide (txid = None)
          then parts !! 1%nat else txid in
        (parseTransactionStatus status, txid)
    | None => (status, txid)
    end in
  let type := safeString (rx_type transaction) in
  let id := safeString_or (rx_withdrawalNumber transaction)
              (safeString (rx_depositNumber transaction)) in
  let amount := safeFloat (rx_amount transaction) in
  let address := safeString (rx_address transaction) in
  let feeCost := default 0%float (safeFloat (rx_fee transaction)) in
  let amount :=
    if bool_decide (type = Some "withdrawal")
    then Some (js_sub amount (Some feeCost)) else amount in
  {| x_id := id;
     x_currency := code;
     x_amount := amount;
     x_address := address;
     x_tag := None;
     x_status := status;
     x_type := type;
     x_updated := None;
     x_txid := txid;
     x_timestamp := timestamp;
     x_datetime := iso8601 timestamp;
     x_fee_currency := code;
     x_fee_cost := feeCost |}.

End Transactions.

(** ** Fees *)

(** The object literal that [calculateFee] returns, key by key. *)
Record FeeQuote : Type := {
  fq_type : string;
  fq_currency : string;
  fq_rate : option float;
  fq_cost : float;
}.

Section Fees.
Context `{Runtime} `{BaseExchange}.
Context (M : Markets).
(** [market[takerOrMaker]], the fee rate that a market holds under the key
    ['taker'] or ['maker']; the [Market] record does not carry the rates. *)
Context (market_rate : Market → string → option float).

(** [calculateFee (symbol, type, side, amount, price, takerOrMaker)] *)
Definition calculateFee (symbol type side : string) (amount : float)
  (price : option float) (takerOrMaker : string) : outcome FeeQuote :=
  match markets M !! symbol with
  | None => Thrown TypeError
  | Some market =>
      let key := "quote" in
      let rate := market_rate market takerOrMaker in
      rounded ← costToPrecision (Some symbol) (Some (js_mul (Some amount) rate));
      let cost := parseFloat rounded in
      let '(cost, key) :=
        if bool_decide (side = "sell")
        then (PrimFloat.mul cost (num price), key)
        else (cost, "base") in
      rounded ← feeToPrecision (Some symbol) (Some cost);
      mret {| fq_type := takerOrMaker;
              fq_currency := if bool_decide (key = "quote")
                             then market_quote market else market_base market;
              fq_rate := rate;
              fq_cost := parseFloat rounded |}
  end.

End Fees.

(** ** A concrete instance, for closed examples

    The members are exact on the payloads used below (JSON numbers for
    numeric keys, JSON strings for textual keys, no dates, values that need
    no rounding at eight decimals, no [since] and no [limit]). *)

Definition example_runtime : Runtime := {|
  parseFloat := λ j, match j with JNum x => x | JStr _ => nan end;
  parseInt := λ j, match j with JNum x => x | JStr _ => nan end;
  toNumber := λ j, match j with JNum x => x | JStr _ => nan end;
  numberToString := λ _, "NaN";
  Date_parse := λ _, nan;
|}.

Definition example_toPrecision (symbol : option string) (x : option float)
  : outcome json :=
  match symbol, x with
  | Some _, Some v => Returned (JNum v)
  | _, _ => Thrown TypeError
  end.

Definition example_base : BaseExchange := {|
  inherited_commonCurrencies := [];
  parse8601 := λ _, None;
  iso8601 := λ _, None;
  priceToPrecision := example_toPrecision;
  costToPrecision := example_toPrecision;
  feeToPrecision := example_toPrecision;
  amountToPrecision := example_toPrecision;
  parseTrades_view := λ trades _, trades;
  filterBySinceLimit_orders := λ orders _ _, orders;
  filterBySinceLimit_trades := λ trades _ _, trades;
  BalanceView := gmap string Account;
  parseBalance := λ result, result;
  RawOrderBook := unit;
  OrderBook := unit;
  parseOrderBook := λ book, book;
  orderbook_seq := λ _, None;
  currencyId := λ code, code;
  market_not_found := λ symbol, Raise ExchangeError symbol;
|}.

(** The market of the spec's scenarios:
    [{"BTC_ETH": {symbol: "ETH/BTC", base: "ETH", quote: "BTC"}}]. *)
Definition example_market : Market :=
  {| market_id := "BTC_ETH"; market_symbol := "ETH/BTC";
     market_baseId := "ETH"; market_quoteId := "BTC";
     market_base := "ETH"; market_quote := "BTC"; market_active := true |}.

Definition example_markets : Markets :=
  {| markets := {[ "ETH/BTC" := example_market ]};
     markets_by_id := {[ "BTC_ETH" := example_market ]} |}.

Definition no_markets : Markets :=
  {| markets := ∅; markets_by_id := ∅ |}.

(** An order object with the keys [id], [status], [amount] and [price]. *)
Definition example_order (id status : string) (amount price : float) : Order :=
  {| o_id := Some id; o_timestamp := None; o_datetime := None;
     o_lastTradeTimestamp := None; o_status := Some status; o_symbol := None;
     o_type := None; o_side := None; o_price := Some price; o_cost := None;
     o_amount := Some amount; o_filled := None; o_remaining := None;
     o_trades := None; o_fee := None |}.

(** [{orderNumber: id, type: side, rate: rate, amount: amount}], an entry of
    an open-orders listing. *)
Definition example_open_order (id side : string) (rate amount : float)
  : RawOrder :=
  {| ro_timestamp := None; ro_date := None; ro_resultingTrades := None;
     ro_currencyPair := None; ro_price := None; ro_rate := Some (JNum rate);
     ro_amount := Some (JNum amount); ro_startingAmount := None;
     ro_status := None; ro_type := Some (JStr side); ro_side := None;
     ro_orderNumber := Some (JStr id) |}.

(** [{currencyPair: pair, type: side, rate, amount, total, fee}], a trade of
    a trade history. *)
Definition example_trade (pair : option string) (side : string)
  (rate amount total fee : float) : RawTrade :=
  {| rt_globalTradeID := None; rt_orderNumber := None; rt_date := None;
     rt_currencyPair := pair; rt_type := Some (JStr side);
     rt_rate := Some (JNum rate); rt_total := Some (JNum total);
     rt_amount := Some (JNum amount); rt_fee := Some (JNum fee) |}.

(** The answer [{orderNumber: id}] of [privatePostBuy] / [privatePostSell]. *)
Definition example_created (id : string) : RawOrder :=
  {| ro_timestamp := None; ro_date := None; ro_resultingTrades := None;
     ro_currencyPair := None; ro_price := None; ro_rate := None;
     ro_amount := None; ro_startingAmount := None; ro_status := None;
     ro_type := None; ro_side := None; ro_orderNumber := Some (JStr id) |}.

(** [{currencyPair: pair, orderNumber, type: side, rate, amount, total}], a
    trade of an order, without a ['fee']. *)
Definition example_order_trade (pair : option string)
  (orderNumber side : string) (rate amount total : float) : RawTrade :=
  {| rt_globalTradeID := None; rt_orderNumber := Some (JStr orderNumber);
     rt_date := None; rt_currencyPair := pair; rt_type := Some (JStr side);
     rt_rate := Some (JNum rate); rt_total := Some (JNum total);
     rt_amount := Some (JNum amount); rt_fee := None |}.

(** A loan offer of a currency for an amount. *)
Definition example_offer (currency : option string) (amount : float) : RawOffer :=
  {| rl_id := None; rl_currency := currency; rl_rate := None;
     rl_amount := Some (JNum amount); rl_duration := None; rl_date := None |}.

(** [{currency, status, type, amount, fee}], a deposit or a withdrawal. *)
Definition example_transaction (currency status type : string)
  (amount fee : float) : RawTransaction :=
  {| rx_timestamp := None; rx_currency := Some (JStr currency);
     rx_status := Some (JStr status); rx_txid := None;
     rx_type := Some (JStr type); rx_withdrawalNumber := None;
     rx_depositNumber := None; rx_amount := Some (JNum amount);
     rx_address := None; rx_fee := Some (JNum fee) |}.

(** Fee rates of a market: a maker rate of 0.5 and a taker rate of 0.25. *)
Definition example_rate (market : Market) (key : string) : option float :=
  if bool_decide (key = "maker") then Some 0.5%float
  else if bool_decide (key = "taker") then Some 0.25%float
  else None.

(** ** Observations on responses, trades, orders and balances *)

(** The ids that an open-orders response lists: the cache keys of its
    entries. *)
Definition listed_ids `{Runtime} (response : OpenOrdersResponse) : list string :=
  let ids (orders : list RawOrder) :=
    (λ order, key_of (safeString (ro_orderNumber order))) <$> orders in
  match response with
  | OrdersOfMarket orders => ids orders
  | OrdersByMarket byId => mjoin ((λ entry, ids entry.2) <$> byId)
  end.

(** The object that [parseOpenOrders] hands to [parseOrder] for an order of
    the listing: the order with its status forced to ['open']. *)
Definition listed_as_open (order : RawOrder) : RawOrder :=
  {| ro_timestamp := ro_timestamp order;
     ro_date := ro_date order;
     ro_resultingTrades := ro_resultingTrades order;
     ro_currencyPair := ro_currencyPair order;
     ro_price := ro_rate order;
     ro_rate := ro_rate order;
     ro_amount := ro_amount order;
     ro_startingAmount := ro_startingAmount order;
     ro_status := Some (JStr "open");
     ro_type := Some (JStr "limit");
     ro_side := ro_type order;
     ro_orderNumber := ro_orderNumber order |}.

(** The orders of an open-orders response in the order in which
    [fetchOrders] parses them, each with the market it is parsed with: the
    market of the call for one market's array, and for ['all'] what
    [this.markets_by_id] holds under the key of the order's array. *)
Definition listed_orders (M : Markets) (market : option Market)
  (response : OpenOrdersResponse) : list (option Market * RawOrder) :=
  match response with
  | OrdersOfMarket orders => (λ order, (market, order)) <$> orders
  | OrdersByMarket byId =>
      mjoin ((λ entry,
                (λ order, (markets_by_id M !! entry.1, order)) <$> entry.2)
             <$> byId)
  end.

(** The market of a call of [fetchOrders]: [this.market (symbol)] when a
    symbol is given, [undefined] otherwise. *)
Definition market_of `{BaseExchange} (M : Markets) (symbol : option string)
  : outcome (option Market) :=
  match symbol with
  | Some s => Some <$> market M s
  | None => Returned None
  end.

(** A numeric key of the object [parseTrade] returns; a key that the object
    does not have reads as [undefined]. *)
Definition trade_number (t : Trade) (key : string) : option float :=
  if bool_decide (key = "timestamp") then t_timestamp t
  else if bool_decide (key = "price") then t_price t
  else if bool_decide (key = "amount") then t_amount t
  else if bool_decide (key = "cost") then t_cost t
  else if bool_decide (key = "fee") then Some (t_fee t)
  else None.

(** What one entry of the reconcile loop becomes. *)
Definition reconciled (openOrdersIndexedById : gmap string Order)
  (id : string) (cached : Order) : Order :=
  match openOrdersIndexedById !! id with
  | Some fresh => extend_order cached fresh
  | None =>
      if bool_decide (o_status cached = Some "open") then close_order cached
      else cached
  end.

(** What a listing parses to: one order per entry, under the entry's id,
    with the status forced to ['open']. *)
Definition listing_of `{Runtime} (orders : list RawOrder) (parsed : list Order) : Prop :=
  (λ o, key_of (o_id o)) <$> parsed
  = (λ order, key_of (safeString (ro_orderNumber order))) <$> orders
  ∧ Forall (λ o, o_status o = Some "open") parsed.

(** What holds of every wallet entry of every asset. *)
Definition all_entries (P : WalletEntry → Prop)
  (balances : gmap string WalletBalance) : Prop :=
  ∀ symbol b, balances !! symbol = Some b →
    P (exchange b) ∧ P (margin b) ∧ P (lending b).

(** Whether [fetchOrders] puts an order of the cache in its result:
    [market !== undefined] and [order['symbol'] === symbol], or no market. *)
Definition in_result (market : option Market) (symbol : option string)
  (order : Order) : bool :=
  match market with
  | Some _ => bool_decide (o_symbol order = symbol)
  | None => true
  end.

(** The wallets that [initSymbol] creates for an asset. *)
Definition wallets : list string := [ "exchange"; "margin"; "lending" ].

(** What [fetchActiveLoans] makes of one offer of the ['provided'] list. *)
Definition active_offer `{Runtime} `{BaseExchange} (offer : RawOffer) : Offer :=
  {| l_id := rl_id offer;
     l_symbol := commonCurrencyCode <$> rl_currency offer;
     l_rate := Number (rl_rate offer);
     l_amount := Number (rl_amount offer);
     l_duration := Number (rl_duration offer);
     l_timestamp := Date_parse (rl_date offer) |}.

(** The key under which [parseClosedOrdersTrades] files the order of a
    trade: [trade.orderNumber] as a property key. *)
Definition trade_order_key `{Runtime} (trade : RawTrade) : string :=
  key_of (safeString (rt_orderNumber trade)).

(** The entry that the trades of one order number, in the order of the
    trade history, add up to: none when there is no such trade. *)
Definition closed_order_of `{Runtime} (symbol : string) (mine : list RawTrade)
  : option ClosedOrder :=
  match mine with
  | [] => None
  | first :: _ =>
      Some {| co_orderNumber := rt_orderNumber first;
              co_date := rt_date first;
              co_currencyPair := symbol;
              co_status := "closed";
              co_type := rt_type first;
              co_rate := Number (rt_rate first);
              co_total :=
                foldl (λ total trade, PrimFloat.add total (Number (rt_total trade)))
                  0%float mine;
              co_startingAmount :=
                foldl (λ total trade, PrimFloat.add total (Number (rt_amount trade)))
                  0%float mine;
              co_resultingTrades := mine;
              co_fee := 0 |}
  end.

(** ** The other revisions of the adapter

    [src/unnamed/part_000] holds two other revisions of [poloniex.js].
    [src/ccxt.js] loads neither, and neither is a program the engine accepts
    (a stray [;] inside an object literal of [fetchOrders] in the first, an
    [await] inside a callback that is not [async] in the second).  Their
    [parseTrade], the same in both, is embedded here because the Trade of
    the spec (a [filled], a [total], a fee with a currency) is the one it
    returns. *)

Module Revision.

(** The ['fee'] object of a trade. *)
Record Fee : Type := {
  f_type : option string;
  f_rate : option float;
  f_cost : json;
  f_amount : json;
  f_currency : option string;
}.

(** The object literal that the revision's [parseTrade] returns. *)
Record Trade : Type := {
  t_timestamp : option float;
  t_datetime : option string;
  t_symbol : option string;
  t_id : option string;
  t_order : option string;
  t_type : option string;
  t_side : option string;
  t_price : option float;
  t_amount : option float;
  t_cost : option float;
  t_total : option float;
  t_filled : option float;
  t_fee : option Fee;
}.

Section Normalizer.
Context `{Runtime} `{BaseExchange}.
Context (M : Markets).

(** [parseTrade (trade, market = undefined)] of the revisions;
    [feeAmount] and [feeCost] are the number [0] or the string that
    [feeToPrecision] returns, and [amount - feeAmount] converts its
    operands to numbers. *)
Definition parseTrade (trade : RawTrade) (market : option Market)
  : outcome Trade :=
  let id := safeString (rt_globalTradeID trade) in
  let orderId := safeString (rt_orderNumber trade) in
  let timestamp := parse8601 (JStr <$> safeString (rt_date trade)) in
  let '(market, symbol, base, quote) :=
    match market, rt_currencyPair trade with
    | None, Some currencyPair =>
        match markets_by_id M !! currencyPair with
        | Some m => (Some m, None, None, None)
        | None =>
            let parts := split underscore currencyPair in
            let quote := parts !! 0%nat in
            let base := parts !! 1%nat in
            (None, Some (str base +:+ "/" +:+ str quote), base, quote)
        end
    | _, _ => (market, None, None, None)
    end in
  let '(symbol, base, quote) :=
    match market with
    | Some m => (Some (market_symbol m), Some (market_base m),
                 Some (market_quote m))
    | None => (symbol, base, quote)
    end in
  let side := safeString (rt_type trade) in
  let price := safeFloat (rt_rate trade) in
  let total := safeFloat (rt_total trade) in
  let amount := safeFloat (rt_amount trade) in
  let filled := amount in
  let cost := total in
  let feeCost := JNum 0 in
  let feeAmount := JNum 0 in
  '(filled, cost, fee) ←
    match rt_fee trade with
    | Some _ =>
        let rate := safeFloat (rt_fee trade) in
        '(currency, feeAmount, filled, feeCost, cost) ←
          (if bool_decide (side = Some "buy") then
             let currency := base in
             feeAmount ← feeToPrecision symbol (Some (js_mul amount rate));
             let filled := Some (PrimFloat.sub (num amount) (toNumber feeAmount)) in
             mret (currency, feeAmount, filled, feeCost, cost)
           else
             let currency := quote in
             match total with
             | Some total' =>
                 feeCost ← feeToPrecision symbol (Some (js_mul total rate));
                 let cost := Some (PrimFloat.sub total' (toNumber feeCost)) in
                 mret (currency, feeAmount, filled, feeCost, cost)
             | None => mret (currency, feeAmount, filled, feeCost, cost)
             end);
        mret (filled, cost,
              Some {| f_type := None; f_rate := rate; f_cost := feeCost;
                      f_amount := feeAmount; f_currency := currency |})
    | None => mret (filled, cost, None)
    end;
  mret {| t_timestamp := timestamp;
          t_datetime := iso8601 timestamp;
          t_symbol := symbol;
          t_id := id;
          t_order := orderId;
          t_type := Some "limit";
          t_side := side;
          t_price := price;
          t_amount := amount;
          t_cost := cost;
          t_total := total;
          t_filled := filled;
          t_fee := fee |}.

(** The base and quote assets that [parseTrade] charges a fee in: those of
    the market, or the raw ids of the pair when the market is not listed. *)
Definition assets (trade : RawTrade) (market : option Market)
  : option string * option string :=
  let resolved :=
    match market, rt_currencyPair trade with
    | None, Some currencyPair => markets_by_id M !! currencyPair
    | _, _ => market
    end in
  match resolved, market, rt_currencyPair trade with
  | Some m, _, _ => (Some (market_base m), Some (market_quote m))
  | None, None, Some currencyPair =>
      (split underscore currencyPair !! 1%nat,
       split underscore currencyPair !! 0%nat)
  | None, _, _ => (None, None)
  end.

End Normalizer.

End Revision.

(** * Properties *)

(** ** Control flow *)

Lemma bind_Returned {A B : Type} (m : outcome A) (k : A → outcome B) (b : B) :
  m ≫= k = Returned b → ∃ a, m = Returned a ∧ k a = Returned b.
Proof. destruct m as [a|e]; [eauto | discriminate]. Qed.

(** A loop that returns maintains whatever each of its turns maintains. *)
Lemma forEach_invariant {A S : Type} (P : S → Prop)
  (body : S → A → outcome S) (xs : list A) :
  (∀ s x s', P s → x ∈ xs → body s x = Returned s' → P s') →
  ∀ s s', P s → forEach body s xs = Returned s' → P s'.
Proof.
  induction xs as [|x xs IH]; intros Hbody s s' Hs Hrun; simpl in Hrun.
  - by injection Hrun as <-.
  - apply bind_Returned in Hrun as (s1 & Hx & Hrest).
    eapply IH; [ | | exact Hrest].
    + intros ? y ? ? Hy. apply Hbody; [done | by apply elem_of_cons; right].
    + eapply Hbody; [exact Hs | by apply elem_of_cons; left | exact Hx].
Qed.

(** ** Dictionaries *)

Lemma elem_of_object_keys {V : Type} (obj : gmap string V) (k : string) :
  k ∈ object_keys obj ↔ is_Some (obj !! k).
Proof.
  unfold object_keys. rewrite list_elem_of_fmap. split.
  - intros ([k' v] & -> & Hin). apply elem_of_map_to_list in Hin. eauto.
  - intros [v Hv]. exists (k, v). split; [done | by apply elem_of_map_to_list].
Qed.

Lemma NoDup_object_keys {V : Type} (obj : gmap string V) :
  NoDup (object_keys obj).
Proof. apply NoDup_fst_map_to_list. Qed.

(** [if (k in obj) obj[k] = f (obj[k])] is [alter]. *)
Lemma update_if_present {V : Type} (f : V → V) (k : string) (obj : gmap string V) :
  match obj !! k with Some v => <[k := f v]> obj | None => obj end
  = alter f k obj.
Proof.
  apply map_eq. intros i. rewrite lookup_alter.
  destruct (obj !! k) as [v|] eqn:Hk.
  - rewrite lookup_insert. repeat case_decide; subst; simplify_eq; by rewrite ?Hk.
  - case_decide; subst; by rewrite ?Hk.
Qed.

(** A loop over distinct keys that rewrites the entry of its key, and no
    other, rewrites each entry once. *)
Lemma foldl_alter_lookup {V : Type} (f : string → V → V) (ks : list string)
  (obj : gmap string V) (i : string) :
  NoDup ks →
  foldl (λ m k, alter (f k) k m) obj ks !! i
  = if decide (i ∈ ks) then f i <$> obj !! i else obj !! i.
Proof.
  revert obj. induction ks as [|k ks IH]; intros obj Hnd; simpl.
  - done.
  - apply NoDup_cons in Hnd as [Hk Hnd]. rewrite IH by done.
    rewrite lookup_alter.
    destruct (decide (i ∈ ks)) as [Hi|Hi], (decide (i ∈ k :: ks)) as [Hin|Hin],
      (decide (k = i)) as [Heq|Hki]; subst; try done; exfalso;
      rewrite elem_of_cons in Hin; intuition congruence.
Qed.

(** ** The order cache *)

(** The last order of a list stored under a key, if any. *)
Lemma upsert_lookup (openOrders : list Order) (cache : gmap string Order)
  (id : string) :
  upsert cache openOrders !! id
  = match indexBy_id openOrders !! id with
    | Some fresh => Some fresh
    | None => cache !! id
    end.
Proof.
  unfold indexBy_id, upsert.
  induction openOrders as [|o os IH] using rev_ind; simpl.
  - by rewrite lookup_empty.
  - rewrite !foldl_app. simpl. rewrite !lookup_insert.
    case_decide; [done | exact IH].
Qed.

Lemma indexBy_id_Some (openOrders : list Order) (id : string) (fresh : Order) :
  indexBy_id openOrders !! id = Some fresh →
  fresh ∈ openOrders ∧ key_of (o_id fresh) = id.
Proof.
  unfold indexBy_id, upsert.
  induction openOrders as [|o os IH] using rev_ind; simpl.
  - by rewrite lookup_empty.
  - rewrite foldl_app. simpl. rewrite lookup_insert. case_decide as Hk.
    + intros [= <-]. split; [apply elem_of_app; right; by apply list_elem_of_singleton | done].
    + intros Hf. destruct (IH Hf). split; [apply elem_of_app; by left | done].
Qed.

Lemma indexBy_id_None (openOrders : list Order) (id : string) :
  indexBy_id openOrders !! id = None ↔
  id ∉ (λ o, key_of (o_id o)) <$> openOrders.
Proof.
  unfold indexBy_id, upsert.
  induction openOrders as [|o os IH] using rev_ind; simpl.
  - rewrite lookup_empty. split; [intros _ Hin; by apply elem_of_nil in Hin | done].
  - rewrite foldl_app, fmap_app. simpl. rewrite lookup_insert, not_elem_of_app.
    case_decide as Hk.
    + split; [done | intros [_ Hn]; exfalso; apply Hn; subst; by apply list_elem_of_singleton].
    + rewrite IH. split; [intros Hn; split; [done |] | by intros [Hn _]].
      intros Hin%list_elem_of_singleton. by subst.
Qed.

(** The last order of a list stored under a key, with its place. *)
Lemma indexBy_id_last (openOrders : list Order) (id : string) (fresh : Order) :
  indexBy_id openOrders !! id = Some fresh →
  ∃ i, openOrders !! i = Some fresh
       ∧ key_of (o_id fresh) = id
       ∧ ∀ j o, (i < j)%nat → openOrders !! j = Some o → key_of (o_id o) ≠ id.
Proof.
  unfold indexBy_id, upsert.
  induction openOrders as [|o os IH] using rev_ind; simpl.
  - by rewrite lookup_empty.
  - rewrite foldl_app. simpl. rewrite lookup_insert. case_decide as Hk.
    + intros [= <-]. exists (List.length os). split; [| split; [done |]].
      * rewrite lookup_app_r by done. by rewrite Nat.sub_diag.
      * intros j o' Hlt Hj. apply lookup_lt_Some in Hj.
        rewrite length_app in Hj. simpl in Hj. lia.
    + intros (i & Hi & Hkey & Hlast)%IH. exists i.
      split; [by apply lookup_app_l_Some |]. split; [done |].
      intros j o' Hlt Hj.
      destruct (decide (j < List.length os)%nat) as [Hin | Hout].
      * rewrite lookup_app_l in Hj by done. by eapply Hlast.
      * rewrite lookup_app_r in Hj by lia.
        destruct (j - List.length os)%nat; [| done].
        injection Hj as <-. done.
Qed.

(** Reconciling an entry twice against the same listing changes nothing
    more: an entry that was closed is no longer open. *)
Lemma reconciled_idem (idx : gmap string Order) (id : string) (o : Order) :
  reconciled idx id (reconciled idx id o) = reconciled idx id o.
Proof.
  unfold reconciled. destruct (idx !! id) as [fresh|]; [done |].
  destruct (bool_decide (o_status o = Some "open")) eqn:Hopen.
  - by rewrite bool_decide_false.
  - by rewrite Hopen.
Qed.

Section OrderCacheFacts.
Context `{Runtime} `{BaseExchange}.
Context (M : Markets).

Lemma reconcile_step_orders (idx : gmap string Order) (market : option Market)
  (symbol : option string) (st : gmap string Order * list Order) (id : string) :
  (reconcile_step idx market symbol st id).1
  = alter (reconciled idx id) id st.1.
Proof.
  destruct st as [orders result]. unfold reconcile_step. simpl.
  rewrite <- update_if_present.
  destruct (orders !! id) as [cached|] eqn:Hid; [| done].
  unfold reconciled.
  destruct (idx !! id) as [fresh|].
  - rewrite lookup_insert_eq. by destruct market; [case_bool_decide |].
  - case_bool_decide.
    + rewrite lookup_insert_eq. by destruct market; [case_bool_decide |].
    + rewrite Hid, insert_id by done. by destruct market; [case_bool_decide |].
Qed.

Lemma reconcile_loop_orders (idx : gmap string Order) (market : option Market)
  (symbol : option string) (ks : list string)
  (st : gmap string Order * list Order) :
  (foldl (reconcile_step idx market symbol) st ks).1
  = foldl (λ m k, alter (reconciled idx k) k m) st.1 ks.
Proof.
  revert st. induction ks as [|k ks IH]; intros st; simpl; [done |].
  by rewrite IH, reconcile_step_orders.
Qed.

(** The cache after the second half of [fetchOrders], entry by entry. *)
Lemma fetchOrders_reconcile_lookup (market : option Market)
  (symbol : option string) (openOrders : list Order)
  (cache : gmap string Order) (id : string) :
  (fetchOrders_reconcile market symbol openOrders cache).1 !! id
  = reconciled (indexBy_id openOrders) id <$> upsert cache openOrders !! id.
Proof.
  unfold fetchOrders_reconcile. rewrite reconcile_loop_orders. simpl.
  rewrite foldl_alter_lookup by apply NoDup_object_keys.
  case_decide as Hin; [done |].
  rewrite elem_of_object_keys, <- eq_None_not_Some in Hin. by rewrite Hin.
Qed.

Lemma parseOrder_type_side (order : RawOrder) (market : option Market) (o : Order) :
  parseOrder M order market = Returned o →
  o_side o = safeString_or (ro_side order) (safeString (ro_type order)) ∧
  o_type o = if bool_decide (safeString (ro_type order) = o_side o)
             then None else safeString (ro_type order).
Proof.
  unfold parseOrder. intros Hp.
  repeat match type of Hp with
  | context [let '(_, _) := ?x in _] => destruct x
  end.
  apply bind_Returned in Hp as (price' & _ & Hp).
  apply bind_Returned in Hp as (cost' & _ & Hp).
  apply bind_Returned in Hp as (fee' & _ & Hp).
  by injection Hp as <-.
Qed.

Lemma parseOrder_id_status (order : RawOrder) (market : option Market) (o : Order) :
  parseOrder M order market = Returned o →
  o_id o = safeString (ro_orderNumber order) ∧
  o_status o = parseOrderStatus (safeString (ro_status order)).
Proof.
  unfold parseOrder. intros Hp.
  repeat match type of Hp with
  | context [let '(_, _) := ?x in _] => destruct x
  end.
  apply bind_Returned in Hp as (price' & _ & Hp).
  apply bind_Returned in Hp as (cost' & _ & Hp).
  apply bind_Returned in Hp as (fee' & _ & Hp).
  by injection Hp as <-.
Qed.

Lemma parseOpenOrders_listing (orders : list RawOrder) (market : option Market)
  (result openOrders : list Order) :
  parseOpenOrders M orders market result = Returned openOrders →
  ∃ parsed, openOrders = (result ++ parsed)%list ∧ listing_of orders parsed.
Proof.
  unfold parseOpenOrders.
  revert result. induction orders as [|order orders IH]; intros result Hp; simpl in Hp.
  - injection Hp as <-. exists []. by rewrite app_nil_r.
  - apply bind_Returned in Hp as (result' & Hone & Hrest).
    apply bind_Returned in Hone as (o & Ho & [= <-]).
    apply parseOrder_id_status in Ho as [Hid Hst].
    apply IH in Hrest as (parsed & -> & Hkeys & Hopen).
    exists (o :: parsed). split; [by rewrite <- app_assoc |].
    split; [| constructor; [exact Hst | exact Hopen]].
    rewrite !fmap_cons. f_equal; [by rewrite Hid | exact Hkeys].
Qed.

Lemma fetchOrders_parse_listing (market : option Market)
  (response : OpenOrdersResponse) (openOrders : list Order) :
  fetchOrders_parse M market response = Returned openOrders →
  (λ o, key_of (o_id o)) <$> openOrders = listed_ids response
  ∧ Forall (λ o, o_status o = Some "open") openOrders.
Proof.
  unfold fetchOrders_parse.
  destruct market as [m|], response as [orders|byId]; try discriminate.
  - intros (parsed & -> & Hl)%parseOpenOrders_listing. exact Hl.
  - destruct orders; [| discriminate]. intros [= <-]. by split.
  - enough (Hgen : ∀ acc,
      forEach (λ openOrders '(marketId, orders),
        parseOpenOrders M orders (markets_by_id M !! marketId) openOrders)
        acc byId = Returned openOrders →
      ∃ parsed, openOrders = (acc ++ parsed)%list ∧
        (λ o, key_of (o_id o)) <$> parsed = listed_ids (OrdersByMarket byId) ∧
        Forall (λ o, o_status o = Some "open") parsed).
    { intros (parsed & -> & Hl)%Hgen. exact Hl. }
    induction byId as [|[marketId orders] byId IH]; intros acc Hp; simpl in Hp.
    + injection Hp as <-. exists []. by rewrite app_nil_r.
    + apply bind_Returned in Hp as (acc' & Hone & Hrest).
      apply parseOpenOrders_listing in Hone as (p1 & -> & Hk1 & Ho1).
      apply IH in Hrest as (p2 & -> & Hk2 & Ho2).
      exists (p1 ++ p2)%list. split; [by rewrite <- app_assoc |].
      split; [| by apply Forall_app].
      simpl in *. by rewrite fmap_app, Hk1, Hk2.
Qed.

(** [fetchOrders] either throws and leaves the cache as it was, or parses
    the response and reconciles the cache against it. *)
Lemma fetchOrders_cases (symbol : option string) (since limit : option float)
  (response : outcome OpenOrdersResponse) (cache : gmap string Order) :
  (∃ e, ∀ cache0,
     fetchOrders M symbol since limit response cache0 = (cache0, Thrown e))
  ∨ (∃ market r openOrders,
        response = Returned r
        ∧ fetchOrders_parse M market r = Returned openOrders
        ∧ ∀ cache0,
          fetchOrders M symbol since limit response cache0
          = ((fetchOrders_reconcile market symbol openOrders cache0).1,
             Returned (filterBySinceLimit_orders
               (fetchOrders_reconcile market symbol openOrders cache0).2
               since limit))).
Proof.
  unfold fetchOrders.
  destruct (match symbol with
            | Some s => Some <$> market M s
            | None => Returned None
            end) as [market|e]; simpl; [| by eauto].
  destruct response as [r|e]; simpl; [| by eauto].
  destruct (fetchOrders_parse M market r) as [openOrders|e] eqn:Hparse;
    simpl; [| by eauto].
  right. exists market, r, openOrders. do 2 (split; [done |]). intros cache0.
  by destruct (fetchOrders_reconcile market symbol openOrders cache0).
Qed.

(** An entry that is not open and that the response does not list is left
    as it is, whether the call returns or throws. *)
Lemma fetchOrders_unlisted_not_open (symbol : option string)
  (since limit : option float) (response : outcome OpenOrdersResponse)
  (cache : gmap string Order) (id : string) (o : Order) :
  cache !! id = Some o →
  o_status o ≠ Some "open" →
  (∀ r, response = Returned r → id ∉ listed_ids r) →
  (fetchOrders M symbol since limit response cache).1 !! id = Some o.
Proof.
  intros Hid Hst Hunlisted.
  destruct (fetchOrders_cases symbol since limit response cache)
    as [[e He] | (market & r & openOrders & -> & Hparse & Heq)];
    [by rewrite He |].
  rewrite Heq. simpl. rewrite fetchOrders_reconcile_lookup, upsert_lookup.
  apply fetchOrders_parse_listing in Hparse as [Hkeys _].
  assert (Hnone : indexBy_id openOrders !! id = None).
  { apply indexBy_id_None. rewrite Hkeys. by apply Hunlisted. }
  rewrite Hnone, Hid. simpl. unfold reconciled.
  by rewrite Hnone, bool_decide_false.
Qed.

(** [parseOpenOrders] appends to [result], order by order, what
    [parseOrder] makes of each order of the listing. *)
Lemma parseOpenOrders_each (orders : list RawOrder) (market : option Market)
  (result openOrders : list Order) :
  parseOpenOrders M orders market result = Returned openOrders →
  ∃ parsed, openOrders = (result ++ parsed)%list
    ∧ Forall2 (λ order o, parseOrder M (listed_as_open order) market = Returned o)
        orders parsed.
Proof.
  unfold parseOpenOrders.
  revert result. induction orders as [|order orders IH]; intros result Hp; simpl in Hp.
  - injection Hp as <-. exists []. by rewrite app_nil_r.
  - apply bind_Returned in Hp as (result' & Hone & Hrest).
    apply bind_Returned in Hone as (o & Ho & [= <-]).
    apply IH in Hrest as (parsed & -> & Hall).
    exists (o :: parsed). split; [by rewrite <- app_assoc |].
    by constructor.
Qed.

(** What the first half of [fetchOrders] returns is, order by order, what
    [parseOrder] makes of the listing. *)
Lemma fetchOrders_parse_each (market : option Market)
  (response : OpenOrdersResponse) (openOrders : list Order) :
  fetchOrders_parse M market response = Returned openOrders →
  Forall2 (λ entry o, parseOrder M (listed_as_open entry.2) entry.1 = Returned o)
    (listed_orders M market response) openOrders.
Proof.
  unfold fetchOrders_parse, listed_orders.
  destruct market as [m|], response as [orders|byId]; try discriminate.
  - intros (parsed & -> & Hall)%parseOpenOrders_each. simpl.
    by apply Forall2_fmap_l.
  - destruct orders; [| discriminate]. intros [= <-]. constructor.
  - enough (Hgen : ∀ acc,
      forEach (λ openOrders '(marketId, orders),
        parseOpenOrders M orders (markets_by_id M !! marketId) openOrders)
        acc byId = Returned openOrders →
      ∃ parsed, openOrders = (acc ++ parsed)%list ∧
        Forall2 (λ entry o,
                   parseOrder M (listed_as_open entry.2) entry.1 = Returned o)
          (mjoin ((λ entry,
                     (λ order, (markets_by_id M !! entry.1, order)) <$> entry.2)
                  <$> byId)) parsed).
    { intros (parsed & -> & Hall)%Hgen. exact Hall. }
    induction byId as [|[marketId orders] byId IH]; intros acc Hp; simpl in Hp.
    + injection Hp as <-. exists []. rewrite app_nil_r. split; [done | constructor].
    + apply bind_Returned in Hp as (acc' & Hone & Hrest).
      apply parseOpenOrders_each in Hone as (p1 & -> & Hall1).
      apply IH in Hrest as (p2 & -> & Hall2).
      exists (p1 ++ p2)%list. split; [by rewrite <- app_assoc |].
      rewrite fmap_cons. simpl. apply Forall2_app; [| done].
      by apply Forall2_fmap_l.
Qed.

(** A call of [fetchOrders] that returns has parsed the whole listing and
    reconciled the cache against it. *)
Lemma fetchOrders_returns_parsed (symbol : option string)
  (since limit : option float) (response : outcome OpenOrdersResponse)
  (cache cache' : gmap string Order) (result : list Order) :
  fetchOrders M symbol since limit response cache = (cache', Returned result) →
  ∃ market r openOrders,
    response = Returned r
    ∧ market_of M symbol = Returned market
    ∧ fetchOrders_parse M market r = Returned openOrders
    ∧ cache' = (fetchOrders_reconcile market symbol openOrders cache).1.
Proof.
  unfold fetchOrders. fold (market_of M symbol).
  destruct (market_of M symbol) as [market|e]; simpl; [| discriminate].
  destruct response as [r|e]; simpl; [| discriminate].
  destruct (fetchOrders_parse M market r) as [openOrders|e] eqn:Hparse;
    simpl; [| discriminate].
  destruct (fetchOrders_reconcile market symbol openOrders cache)
    as [orders listed] eqn:Hrec.
  intros [= <- <-]. exists market, r, openOrders. by rewrite Hrec.
Qed.

(** An entry that the response lists is replaced by what [parseOrder] makes
    of the last order of the listing that bears its id; that order is
    open. *)
Lemma fetchOrders_listed_replaced (symbol : option string)
  (since limit : option float) (r : OpenOrdersResponse)
  (cache cache' : gmap string Order) (result : list Order) (id : string) :
  fetchOrders M symbol since limit (Returned r) cache = (cache', Returned result) →
  id ∈ listed_ids r →
  ∃ market i entry o',
    market_of M symbol = Returned market
    ∧ listed_orders M market r !! i = Some entry
    ∧ key_of (safeString (ro_orderNumber entry.2)) = id
    ∧ (∀ j later, (i < j)%nat → listed_orders M market r !! j = Some later →
         key_of (safeString (ro_orderNumber later.2)) ≠ id)
    ∧ parseOrder M (listed_as_open entry.2) entry.1 = Returned o'
    ∧ cache' !! id = Some o'
    ∧ o_status o' = Some "open".
Proof.
  intros Hrun Hlisted.
  apply fetchOrders_returns_parsed in Hrun
    as (market & r' & openOrders & [= <-] & Hmarket & Hparse & ->).
  pose proof (fetchOrders_parse_each _ _ _ Hparse) as Heach.
  apply fetchOrders_parse_listing in Hparse as [Hkeys Hopen].
  destruct (indexBy_id openOrders !! id) as [fresh|] eqn:Hidx.
  - pose proof (indexBy_id_last _ _ _ Hidx) as (i & Hi & Hkey & Hlast).
    destruct (Forall2_lookup_r _ _ _ _ _ Heach Hi) as (entry & Hentry & Hp).
    exists market, i, entry, fresh. split; [done |]. split; [done |].
    pose proof (parseOrder_id_status _ _ _ Hp) as [Hid _]. simpl in Hid.
    split; [by rewrite <- Hid |]. split; [| split; [done |]; split].
    + intros j later Hlt Hj.
      destruct (Forall2_lookup_l _ _ _ _ _ Heach Hj) as (o & Ho & Hpo).
      pose proof (parseOrder_id_status _ _ _ Hpo) as [Hido _]. simpl in Hido.
      rewrite <- Hido. by eapply Hlast.
    + rewrite fetchOrders_reconcile_lookup, upsert_lookup, Hidx. simpl.
      unfold reconciled. rewrite Hidx. by destruct fresh.
    + apply indexBy_id_Some in Hidx as [Hin _].
      by eapply Forall_forall in Hopen.
  - apply indexBy_id_None in Hidx. rewrite Hkeys in Hidx. contradiction.
Qed.

(** An open entry that the response does not list is closed. *)
Lemma fetchOrders_unlisted_open (symbol : option string)
  (since limit : option float) (r : OpenOrdersResponse)
  (cache cache' : gmap string Order) (result : list Order)
  (id : string) (o : Order) :
  fetchOrders M symbol since limit (Returned r) cache = (cache', Returned result) →
  cache !! id = Some o →
  o_status o = Some "open" →
  id ∉ listed_ids r →
  cache' !! id = Some (close_order o).
Proof.
  intros Hrun Hid Hst Hunlisted.
  destruct (fetchOrders_cases symbol since limit (Returned r) cache)
    as [[e He] | (market & r' & openOrders & [= <-] & Hparse & Heq)];
    [congruence |].
  rewrite Heq in Hrun. injection Hrun as <- _.
  rewrite fetchOrders_reconcile_lookup, upsert_lookup.
  apply fetchOrders_parse_listing in Hparse as [Hkeys _].
  assert (Hnone : indexBy_id openOrders !! id = None).
  { apply indexBy_id_None. by rewrite Hkeys. }
  rewrite Hnone, Hid. simpl. unfold reconciled.
  by rewrite Hnone, bool_decide_true.
Qed.

(** C1 (amended): an entry of the cache whose status is ['closed'] or
    ['canceled'] is left as it is by a call to [fetchOrders] whose
    open-orders response does not list its id, and by a call that throws
    (which leaves the whole cache as it was); when the response lists the id
    and the call returns, the entry is replaced by the listed order, that is
    by what [parseOrder] makes of the last order of the listing that bears
    the id, and its status is ['open']. *)
Theorem fetchOrders_terminal_unless_listed (symbol : option string)
  (since limit : option float) (response : outcome OpenOrdersResponse)
  (cache : gmap string Order) (id : string) (o : Order) :
  cache !! id = Some o →
  o_status o = Some "closed" ∨ o_status o = Some "canceled" →
  ((∀ r, response = Returned r → id ∉ listed_ids r) →
   (fetchOrders M symbol since limit response cache).1 !! id = Some o)
  ∧ (∀ e, (fetchOrders M symbol since limit response cache).2 = Thrown e →
       (fetchOrders M symbol since limit response cache).1 = cache
       ∧ (fetchOrders M symbol since limit response cache).1 !! id = Some o)
  ∧ (∀ r cache' result,
       response = Returned r →
       fetchOrders M symbol since limit response cache
         = (cache', Returned result) →
       id ∈ listed_ids r →
       ∃ market i entry o',
         market_of M symbol = Returned market
         ∧ listed_orders M market r !! i = Some entry
         ∧ key_of (safeString (ro_orderNumber entry.2)) = id
         ∧ (∀ j later, (i < j)%nat →
              listed_orders M market r !! j = Some later →
              key_of (safeString (ro_orderNumber later.2)) ≠ id)
         ∧ parseOrder M (listed_as_open entry.2) entry.1 = Returned o'
         ∧ cache' !! id = Some o'
         ∧ o_status o' = Some "open").
Proof.
  intros Hid Hst. split; [| split].
  - intros Hunlisted. apply fetchOrders_unlisted_not_open; [done | | done].
    destruct Hst as [-> | ->]; discriminate.
  - intros e Hthrown.
    destruct (fetchOrders_cases symbol since limit response cache)
      as [[e' He] | (market & r & openOrders & -> & Hparse & Heq)].
    + by rewrite He.
    + rewrite Heq in Hthrown. discriminate.
  - intros r cache' result -> Hrun Hlisted.
    by eapply fetchOrders_listed_replaced.
Qed.

(** C3: a cached order with status ['open'] whose id is absent from the
    open-orders response of a call to [fetchOrders] (that returns) becomes
    ['closed'], with [filled = amount], [remaining = 0] and, the amount being
    a number, [cost = filled * price]; every other key keeps its value.  In
    particular the cached order [{id: "1", status: "open", amount: 10,
    price: 2}] becomes [{id: "1", status: "closed", filled: 10,
    remaining: 0, cost: 20}] (with [amount: 10] and [price: 2]). *)
Theorem fetchOrders_closes_unlisted_open_order :
  (∀ (symbol : option string) (since limit : option float)
     (r : OpenOrdersResponse) (cache cache' : gmap string Order)
     (result : list Order) (id : string) (o : Order),
     fetchOrders M symbol since limit (Returned r) cache
       = (cache', Returned result) →
     cache !! id = Some o →
     o_status o = Some "open" →
     id ∉ listed_ids r →
     ∃ o', cache' !! id = Some o'
       ∧ o_status o' = Some "closed"
       ∧ o_filled o' = o_amount o
       ∧ o_remaining o' = Some 0%float
       ∧ (∀ a, o_amount o = Some a →
            o_cost o' = Some (js_mul (o_filled o') (o_price o')))
       ∧ o' = close_order o)
  ∧ (∀ since limit : option float,
       (fetchOrders M None since limit (Returned (OrdersByMarket []))
          {[ "1" := example_order "1" "open" 10 2 ]}).1 !! "1"
       = Some {| o_id := Some "1"; o_timestamp := None; o_datetime := None;
                 o_lastTradeTimestamp := None; o_status := Some "closed";
                 o_symbol := None; o_type := None; o_side := None;
                 o_price := Some 2%float; o_cost := Some 20%float;
                 o_amount := Some 10%float; o_filled := Some 10%float;
                 o_remaining := Some 0%float; o_trades := None;
                 o_fee := None |}).
Proof.
  split.
  - intros symbol since limit r cache cache' result id o Hrun Hid Hst Hun.
    exists (close_order o). split; [by eapply fetchOrders_unlisted_open |].
    repeat split. intros a Ha. simpl. by rewrite Ha.
  - intros since limit. unfold fetchOrders. simpl.
    pose proof (fetchOrders_reconcile_lookup None None []
                  {[ "1" := example_order "1" "open" 10 2 ]} "1") as Hlookup.
    destruct (fetchOrders_reconcile None None [] _) as [orders result].
    simpl in *. rewrite Hlookup. vm_compute. reflexivity.
Qed.

(** C5: calling [fetchOrders] twice in succession with the same open-orders
    response leaves, after the second call, the order cache that the first
    call left: the same ids (the cache is a dictionary, an id has one
    entry) and for each id the same order, status included.  This holds for
    every starting cache, whether the calls return or throw. *)
Theorem fetchOrders_idempotent (symbol : option string) (since limit : option float)
  (response : outcome OpenOrdersResponse) (cache : gmap string Order) :
  (fetchOrders M symbol since limit response
     (fetchOrders M symbol since limit response cache).1).1
  = (fetchOrders M symbol since limit response cache).1.
Proof.
  destruct (fetchOrders_cases symbol since limit response cache)
    as [[e He] | (market & r & openOrders & -> & Hparse & Heq)].
  - by rewrite !He.
  - rewrite !Heq. simpl.
    apply map_eq. intros id.
    rewrite !fetchOrders_reconcile_lookup, !upsert_lookup.
    rewrite fetchOrders_reconcile_lookup, upsert_lookup.
    destruct (indexBy_id openOrders !! id) as [fresh|] eqn:Hidx; [done |].
    destruct (cache !! id) as [o|]; [| done].
    simpl. by rewrite reconciled_idem.
Qed.

Lemma extend_order_self (o : Order) : extend_order o o = o.
Proof. by destruct o. Qed.

(** [createOrder] either throws and leaves the cache as it was, or caches
    the parsed order under its id and returns a copy of it. *)
Lemma createOrder_Returned (symbol type side : string) (amount : float)
  (price : option float) (response : outcome RawOrder) (now : float)
  (cache cache' : gmap string Order) (order : Order) :
  createOrder M symbol type side amount price response now cache
    = (cache', Returned order) →
  cache' = <[key_of (o_id order) := order]> cache
  ∧ has_method ("privatePost" +:+ capitalize side) = true
  ∧ ∃ m r,
      market M symbol = Returned m
      ∧ response = Returned r
      ∧ parseOrder M (extend_raw
          {| ro_timestamp := Some (JNum now);
             ro_date := None; ro_resultingTrades := None;
             ro_currencyPair := None;
             ro_price := JNum <$> price;
             ro_rate := None;
             ro_amount := Some (JNum amount);
             ro_startingAmount := None;
             ro_status := Some (JStr "open");
             ro_type := Some (JStr (if bool_decide (type = "market")
                                    then "limit" else type));
             ro_side := Some (JStr side);
             ro_orderNumber := None |} r) (Some m) = Returned order.
Proof.
  unfold createOrder.
  destruct (market M symbol) as [m|e]; simpl; [| discriminate].
  destruct (priceToPrecision (Some symbol) price); simpl; [| discriminate].
  destruct (amountToPrecision (Some symbol) (Some amount)); simpl; [| discriminate].
  destruct (has_method ("privatePost" +:+ capitalize side)); simpl; [| discriminate].
  destruct response as [r|e]; simpl; [| discriminate].
  match goal with |- context [parseOrder M ?raw ?mk] =>
    destruct (parseOrder M raw mk) as [o|e] eqn:Hparse end; [| discriminate].
  rewrite extend_order_self. intros [= <- <-]. eauto 10.
Qed.

(** C10: [createOrder] with [type = 'market'] does what it does with
    [type = 'limit'], on every input: no error is raised on account of the
    type, although the adapter declares [createMarketOrder: false], and an
    exception of the call is one that the same call with ['limit'] throws.
    Whenever the market is known, the price and the amount can be rounded,
    the method of the side exists and the exchange answers, the call
    returns what [parseOrder] makes of the answer laid over
    [{timestamp, status: 'open', type: 'limit', side, price, amount}], and
    has cached that order under its id; a call that returns is such a call.
    The returned order has type ['limit'] when the exchange's answer
    carries no ['type'] or ['side'] key of its own, and status ['open'] when
    it carries no ['status']. *)
Theorem createOrder_market_is_limit :
  (∀ (symbol side : string) (amount : float) (price : option float)
     (response : outcome RawOrder) (now : float) (cache : gmap string Order),
     createOrder M symbol "market" side amount price response now cache
     = createOrder M symbol "limit" side amount price response now cache)
  ∧ has_createMarketOrder = false
  ∧ (∀ (symbol side : string) (amount : float) (price : option float)
       (r : RawOrder) (now : float) (cache : gmap string Order)
       (m : Market) (rate amount' : json) (order : Order),
       market M symbol = Returned m →
       priceToPrecision (Some symbol) price = Returned rate →
       amountToPrecision (Some symbol) (Some amount) = Returned amount' →
       has_method ("privatePost" +:+ capitalize side) = true →
       parseOrder M (extend_raw
         {| ro_timestamp := Some (JNum now);
            ro_date := None; ro_resultingTrades := None;
            ro_currencyPair := None;
            ro_price := JNum <$> price;
            ro_rate := None;
            ro_amount := Some (JNum amount);
            ro_startingAmount := None;
            ro_status := Some (JStr "open");
            ro_type := Some (JStr "limit");
            ro_side := Some (JStr side);
            ro_orderNumber := None |} r) (Some m) = Returned order →
       createOrder M symbol "market" side amount price (Returned r) now cache
       = (<[key_of (o_id order) := order]> cache, Returned order))
  ∧ (∀ (symbol side : string) (amount : float) (price : option float)
       (response : outcome RawOrder) (now : float)
       (cache cache' : gmap string Order) (order : Order),
       createOrder M symbol "market" side amount price response now cache
         = (cache', Returned order) →
       ∃ m r,
         market M symbol = Returned m
         ∧ has_method ("privatePost" +:+ capitalize side) = true
         ∧ response = Returned r
         ∧ parseOrder M (extend_raw
             {| ro_timestamp := Some (JNum now);
                ro_date := None; ro_resultingTrades := None;
                ro_currencyPair := None;
                ro_price := JNum <$> price;
                ro_rate := None;
                ro_amount := Some (JNum amount);
                ro_startingAmount := None;
                ro_status := Some (JStr "open");
                ro_type := Some (JStr "limit");
                ro_side := Some (JStr side);
                ro_orderNumber := None |} r) (Some m) = Returned order
         ∧ cache' = <[key_of (o_id order) := order]> cache
         ∧ cache' !! key_of (o_id order) = Some order
         ∧ o_id order = safeString (ro_orderNumber r)
         ∧ (ro_type r = None → ro_side r = None →
            o_type order = Some "limit" ∧ o_side order = Some side)
         ∧ (ro_status r = None → o_status order = Some "open"))
  ∧ (∀ (symbol side : string) (amount : float) (price : option float)
       (response : outcome RawOrder) (now : float)
       (cache cache' : gmap string Order) (e : exn),
       createOrder M symbol "market" side amount price response now cache
         = (cache', Thrown e) →
       cache' = cache
       ∧ createOrder M symbol "limit" side amount price response now cache
         = (cache, Thrown e)).
Proof.
  split; [done |]. split; [done |]. split; [| split].
  - intros symbol side amount price r now cache m rate amount' order
      Hmarket Hrate Hamount Hmethod Hparse.
    unfold createOrder. rewrite Hmarket, Hrate, Hamount, Hmethod.
    cbn [mbind outcome_bind]. rewrite bool_decide_true by done.
    rewrite Hparse. by rewrite extend_order_self.
  - intros symbol side amount price response now cache cache' order Hrun.
    apply createOrder_Returned in Hrun
      as (-> & Hmethod & m & r & Hmarket & -> & Hparse).
    rewrite bool_decide_true in Hparse by done.
    exists m, r. do 5 (split; [done |]).
    split; [by apply lookup_insert_eq |].
    pose proof (parseOrder_id_status _ _ _ Hparse) as [Hid Hstatus].
    pose proof (parseOrder_type_side _ _ _ Hparse) as [Hs Ht].
    simpl in Hid, Hstatus, Hs, Ht.
    split; [by destruct (ro_orderNumber r) |]. split.
    + intros Htype Hside. rewrite Htype in Hs, Ht. rewrite Hside in Hs.
      simpl in Hs, Ht. unfold safeString_or in Hs. simpl in Hs.
      split; [| exact Hs].
      rewrite Ht, Hs.
      destruct (decide (side = "limit")) as [-> | Hne].
      * vm_compute in Hmethod. discriminate.
      * rewrite bool_decide_false; [done | congruence].
    + intros Hnone. rewrite Hnone in Hstatus. exact Hstatus.
  - intros symbol side amount price response now cache cache' e Hrun.
    assert (cache' = cache) as ->.
    { unfold createOrder in Hrun.
      repeat match type of Hrun with
      | context [match ?x with Returned _ => _ | Thrown _ => _ end] =>
          destruct x; simpl in Hrun; try discriminate
      end; by injection Hrun as <-. }
    split; [done | exact Hrun].
Qed.

End OrderCacheFacts.

(** C4: when [privatePostCancelOrder] throws [CancelPending], [cancelOrder]
    re-throws it, and by then the cached order with that id, if there is
    one, has status ['canceled'] (nothing else of the cache changes).  So
    after two calls of [cancelOrder ("1")], the second one throwing
    [CancelPending], the cached order "1" has status ['canceled'], whatever
    the first call's answer was. *)
Theorem cancelOrder_CancelPending_marks_canceled {R : Type} :
  (∀ (id message : string) (cache : gmap string Order),
     cancelOrder (R := R) id (Thrown (Raise CancelPending message)) cache
       = (mark_canceled id cache, Thrown (Raise CancelPending message))
     ∧ (∀ o, cache !! id = Some o →
          mark_canceled id cache !! id = Some (set_status "canceled" o))
     ∧ (∀ id', id' ≠ id → mark_canceled id cache !! id' = cache !! id'))
  ∧ (∀ (first : outcome R) (message : string) (cache : gmap string Order)
       (o : Order),
       cache !! "1" = Some o →
       let after_first := (cancelOrder "1" first cache).1 in
       let second :=
         cancelOrder (R := R) "1" (Thrown (Raise CancelPending message))
           after_first in
       second.2 = Thrown (Raise CancelPending message)
       ∧ o_status <$> second.1 !! "1" = Some (Some "canceled")).
Proof.
  assert (Hmark : ∀ id (cache : gmap string Order) o,
    cache !! id = Some o →
    mark_canceled id cache !! id = Some (set_status "canceled" o)).
  { intros id cache o Ho. unfold mark_canceled. rewrite Ho.
    apply lookup_insert_eq. }
  split.
  - intros id message cache. split; [done |]. split; [by apply Hmark |].
    intros id' Hne. unfold mark_canceled.
    destruct (cache !! id); [by apply lookup_insert_ne | done].
  - intros first message cache o Ho. simpl. split; [done |].
    assert (∃ o1, (cancelOrder "1" first cache).1 !! "1" = Some o1) as [o1 Ho1].
    { destruct first as [r|e]; simpl.
      - erewrite Hmark by done. eauto.
      - destruct (instanceof e CancelPending); [erewrite Hmark by done|]; eauto. }
    by erewrite Hmark.
Qed.

(** ** Error classification *)

Lemma table_get_app_fresh {V : Type} (before after : table V) (k : string) :
  k ∉ table_keys before →
  table_get (before ++ after)%list k = table_get after k.
Proof.
  unfold table_keys. induction before as [|[k' v'] before IH]; [done |].
  rewrite fmap_cons, not_elem_of_cons. intros [Hne Hnin]. simpl.
  destruct (String.eqb_spec k' k) as [-> | _]; [done | by apply IH].
Qed.

Lemma table_get_head {V : Type} (after : table V) (k : string) (v : V) :
  table_get ((k, v) :: after) k = Some v.
Proof. simpl. by rewrite String.eqb_refl. Qed.

(** The broad match is the first key of the table, in table order, that the
    message contains. *)
Lemma findBroadlyMatchedKey_first {V : Type} (before after : table V)
  (key : string) (v : V) (message : string) :
  includes message key = true →
  (∀ k, k ∈ table_keys before → includes message k = false) →
  findBroadlyMatchedKey (before ++ (key, v) :: after)%list message = Some key
  ∧ table_get (before ++ (key, v) :: after)%list key = Some v.
Proof.
  intros Hkey Hbefore. split.
  - induction before as [|[k' v'] before IH]; simpl.
    + by rewrite Hkey.
    + rewrite Hbefore by (unfold table_keys; rewrite fmap_cons; apply elem_of_cons; by left).
      apply IH. intros k Hk. apply Hbefore.
      unfold table_keys. rewrite fmap_cons. apply elem_of_cons. by right.
  - rewrite table_get_app_fresh; [apply table_get_head |].
    intros Hin. apply Hbefore in Hin. congruence.
Qed.

Lemma findBroadlyMatchedKey_none {V : Type} (broad : table V) (message : string) :
  (∀ k, k ∈ table_keys broad → includes message k = false) →
  findBroadlyMatchedKey broad message = None.
Proof.
  induction broad as [|[k v] broad IH]; intros Hnone; simpl; [done |].
  rewrite Hnone by (unfold table_keys; rewrite fmap_cons; apply elem_of_cons; by left).
  apply IH. intros k' Hk'. apply Hnone.
  unfold table_keys. rewrite fmap_cons. apply elem_of_cons. by right.
Qed.

(** An own key of a table is found before the inherited members are. *)
Lemma js_member_own (obj : table ErrorKind) (key : string) (kind : ErrorKind) :
  table_get obj key = Some kind → js_member obj key = Some (OwnClass kind).
Proof. intros Hget. unfold js_member. by rewrite Hget. Qed.

(** [key in obj] is false for what is neither an own key nor an inherited
    member. *)
Lemma js_member_none (obj : table ErrorKind) (key : string) :
  table_get obj key = None → key ∉ Object_prototype → js_member obj key = None.
Proof.
  intros Hget Hnot. unfold js_member. rewrite Hget.
  rewrite bool_decide_false.
  - by rewrite bool_decide_false.
  - intros ->. apply Hnot. unfold Object_prototype. by apply elem_of_cons; left.
Qed.

(** What [handleErrors] does with a message, test by test. *)
Lemma handleErrors_message (message : string) :
  handleErrors (Some {| body_error := Some message |})
  = match table_get exceptions_exact message with
    | Some kind => Thrown (Raise kind message)
    | None =>
        if bool_decide (message = "constructor")
        then Thrown (StringObject message)
        else if bool_decide (message ∈ Object_prototype) then Thrown TypeError
        else
          match findBroadlyMatchedKey exceptions_broad message with
          | Some key =>
              match table_get exceptions_broad key with
              | Some kind => Thrown (Raise kind message)
              | None => Thrown TypeError
              end
          | None => Thrown (Raise ExchangeError message)
          end
    end.
Proof.
  unfold handleErrors.
  cbn -[exceptions_exact exceptions_broad table_get findBroadlyMatchedKey
        js_member Object_prototype].
  unfold js_member at 1.
  destruct (table_get exceptions_exact message) as [kind|]; [done |].
  destruct (bool_decide (message = "constructor")); [done |].
  destruct (bool_decide (message ∈ Object_prototype)); [done |].
  destruct (findBroadlyMatchedKey exceptions_broad message) as [key|] eqn:Hkey;
    [| done].
  destruct (table_get exceptions_broad key) as [kind|] eqn:Hget.
  - by rewrite (js_member_own _ _ _ Hget).
  - exfalso. revert Hkey Hget. clear.
    generalize exceptions_broad as broad.
    induction broad as [|[k v] broad IH]; simpl; [done |].
    destruct (includes message k).
    + intros [= <-]. by rewrite String.eqb_refl.
    + intros Hkey. destruct (String.eqb k key); [done | by apply IH].
Qed.

(** C2 (amended): for a response body with an ['error'] message,
    [handleErrors] throws the kind that the exact table gives to the message
    when the message is one of its keys; otherwise, the message not being
    the name of a member that the table inherits from [Object.prototype],
    the kind of the first key of the broad table, in table order, that the
    message contains, the message being that key itself included; otherwise
    [ExchangeError].  In each case the exception carries the raw message. *)
Theorem handleErrors_classifies (message : string) :
  let thrown := handleErrors (Some {| body_error := Some message |}) in
  (∀ kind, table_get exceptions_exact message = Some kind →
     thrown = Thrown (Raise kind message))
  ∧ (table_get exceptions_exact message = None →
     message ∉ Object_prototype →
     ∀ before key kind after,
       exceptions_broad = (before ++ (key, kind) :: after)%list →
       includes message key = true →
       (∀ k, k ∈ table_keys before → includes message k = false) →
       thrown = Thrown (Raise kind message))
  ∧ (table_get exceptions_exact message = None →
     message ∉ Object_prototype →
     (∀ k, k ∈ table_keys exceptions_broad → includes message k = false) →
     thrown = Thrown (Raise ExchangeError message)).
Proof.
  unfold handleErrors.
  cbn -[exceptions_exact exceptions_broad table_get findBroadlyMatchedKey
        js_member Object_prototype].
  split; [| split].
  - intros kind Hexact. by rewrite (js_member_own _ _ _ Hexact).
  - intros Hexact Hnot before key kind after Hbroad Hkey Hbefore.
    rewrite (js_member_none _ _ Hexact Hnot), Hbroad.
    destruct (findBroadlyMatchedKey_first before after key kind message Hkey Hbefore)
      as [-> Hget].
    by rewrite (js_member_own _ _ _ Hget).
  - intros Hexact Hnot Hnone.
    rewrite (js_member_none _ _ Hexact Hnot).
    by rewrite findBroadlyMatchedKey_none.
Qed.

(** C2, as stated, fails twice.  A message that is a key of the broad table,
    and contains no other, is classified by that key and not as
    [ExchangeError]; and a message that contains two keys of the broad table
    gets the kind of the first in table order, not the kind of each. *)
Lemma handleErrors_broad_key_itself :
  (let message := "This account is frozen." in
   table_get exceptions_exact message = None
   ∧ (∀ key, key ∈ table_keys exceptions_broad →
        includes message key = true → key = message)
   ∧ handleErrors (Some {| body_error := Some message |})
     = Thrown (Raise AccountSuspended message))
  ∧ (let message := "Not enough BTC. Nonce must be greater than 5." in
     table_get exceptions_exact message = None
     ∧ table_get exceptions_broad "Nonce must be greater" = Some InvalidNonce
     ∧ includes message "Nonce must be greater" = true
     ∧ message ≠ "Nonce must be greater"
     ∧ handleErrors (Some {| body_error := Some message |})
       = Thrown (Raise InsufficientFunds message)).
Proof.
  split.
  - split; [reflexivity |]. split; [| reflexivity].
    intros key Hin Hinc. unfold table_keys in Hin. simpl in Hin.
    repeat (apply elem_of_cons in Hin as [-> | Hin]);
      try (vm_compute in Hinc; discriminate); try reflexivity.
    by apply elem_of_nil in Hin.
  - repeat split; try reflexivity. discriminate.
Qed.

Lemma handleErrors_classifies_witness :
  handleErrors (Some {| body_error := Some "Permission denied" |})
    = Thrown (Raise PermissionDenied "Permission denied")
  ∧ handleErrors (Some {| body_error := Some "Not enough BTC." |})
    = Thrown (Raise InsufficientFunds "Not enough BTC.")
  ∧ handleErrors (Some {| body_error := Some "Unknown" |})
    = Thrown (Raise ExchangeError "Unknown").
Proof.
  assert (Hfunds : "Not enough BTC." ∉ Object_prototype)
    by (apply (bool_decide_unpack _); vm_compute; exact I).
  assert (Hunknown : "Unknown" ∉ Object_prototype)
    by (apply (bool_decide_unpack _); vm_compute; exact I).
  split; [| split].
  - apply (proj1 (handleErrors_classifies "Permission denied")). reflexivity.
  - apply (proj1 (proj2 (handleErrors_classifies "Not enough BTC."))
      eq_refl Hfunds
      [ ("Total must be at least", InvalidOrder);
        ("This account is frozen.", AccountSuspended) ]
      "Not enough" InsufficientFunds
      [ ("Nonce must be greater", InvalidNonce);
        ("You have already called cancelOrder or moveOrder on this order.", CancelPending);
        ("Amount must be at least", InvalidOrder);
        ("is either completed or does not exist", InvalidOrder) ]);
      [reflexivity | reflexivity |].
    intros k Hin. unfold table_keys in Hin. simpl in Hin.
    repeat (apply elem_of_cons in Hin as [-> | Hin]); try reflexivity.
    by apply elem_of_nil in Hin.
  - apply (proj2 (proj2 (handleErrors_classifies "Unknown")));
      [reflexivity | exact Hunknown |].
    intros k Hin. unfold table_keys in Hin. simpl in Hin.
    repeat (apply elem_of_cons in Hin as [-> | Hin]); try reflexivity.
    by apply elem_of_nil in Hin.
Defined.

(** ** Trades and symbols *)

Section NormalizerFacts.
Context `{Runtime} `{BaseExchange}.
Context (M : Markets).

(** C6 (amended): for every trade parsed by [parseTrade], the fee is
    [amount * fee rate] when the side is ['buy'] (a quantity of the base
    asset), [total * fee rate] when it is ['sell'] (a quantity of the quote
    asset) and [0] for any other side.  The fee is a bare number, and it is
    deducted from nothing: the trade's amount and cost are the payload's
    ['amount'] and ['total'], and the trade has no ['filled'] key and no
    ['total'] key. *)
Theorem parseTrade_fee (trade : RawTrade) (market : option Market) :
  let t := parseTrade M trade market in
  let rate := safeFloat (rt_fee trade) in
  (t_side t = Some "buy" → t_fee t = js_mul (t_amount t) rate)
  ∧ (t_side t = Some "sell" → t_fee t = js_mul (t_cost t) rate)
  ∧ (t_side t ≠ Some "buy" → t_side t ≠ Some "sell" → t_fee t = 0%float)
  ∧ t_side t = safeString (rt_type trade)
  ∧ t_amount t = safeFloat (rt_amount trade)
  ∧ t_cost t = safeFloat (rt_total trade)
  ∧ trade_number t "fee" = Some (t_fee t)
  ∧ trade_number t "filled" = None
  ∧ trade_number t "total" = None.
Proof.
  unfold parseTrade.
  match goal with |- context [let '(_, _) := ?x in _] => destruct x end.
  simpl. repeat split.
  - intros Hside. by rewrite bool_decide_true.
  - intros Hside. rewrite bool_decide_false by (rewrite Hside; discriminate).
    by rewrite bool_decide_true.
  - intros Hbuy Hsell. by rewrite !bool_decide_false.
Qed.

(** C9 fails on [parseTrade]: for the pair id ["BTC_STR"], absent from the
    market index, [parseTrade] builds the symbol from the raw ids,
    ["STR/BTC"], whereas the block shared by [fetchTickers],
    [fetchOrderBooks] and [fetchMyTrades] first maps each id through
    [commonCurrencyCode] and gives ["XLM/..."]. *)
Theorem parseTrade_skips_commonCurrencyCode :
  let trade := example_trade (Some "BTC_STR") "buy" 2 10 20 0 in
  markets_by_id no_markets !! "BTC_STR" = None
  ∧ t_symbol (parseTrade no_markets trade None) = Some "STR/BTC"
  ∧ resolve_symbol no_markets "BTC_STR"
    = "XLM/" +:+ commonCurrencyCode "BTC"
  ∧ t_symbol (parseTrade no_markets trade None)
    ≠ Some (resolve_symbol no_markets "BTC_STR")
  ∧ t_symbol <$> fetchMyTrades_of_id no_markets "BTC_STR" [trade]
    = [Some (resolve_symbol no_markets "BTC_STR")].
Proof.
  intros trade. split; [apply lookup_empty |].
  split; [vm_compute; reflexivity |].
  split; [vm_compute; reflexivity |].
  split; [| vm_compute; reflexivity].
  intros Heq. vm_compute in Heq. discriminate.
Qed.






End NormalizerFacts.

(** ** The trade of the other revisions *)

Section RevisionFacts.
Context `{Runtime} `{BaseExchange}.
Context (M : Markets).

(** In the revisions of [src/unnamed/part_000], a trade that carries a
    ['fee'] rate is charged in the base asset when its side is ['buy'], the
    fee amount being taken out of [filled], and in the quote asset
    otherwise, the fee cost being taken out of [cost]. *)
Theorem revision_parseTrade_fee (trade : RawTrade) (market : option Market)
  (t : Revision.Trade) :
  Revision.parseTrade M trade market = Returned t →
  is_Some (rt_fee trade) →
  ∃ fee,
    Revision.t_fee t = Some fee
    ∧ (Revision.t_side t = Some "buy" →
         Revision.f_currency fee = (Revision.assets M trade market).1
         ∧ Revision.t_filled t
           = Some (PrimFloat.sub (num (Revision.t_amount t))
                     (toNumber (Revision.f_amount fee)))
         ∧ Revision.t_cost t = Revision.t_total t)
    ∧ (Revision.t_side t ≠ Some "buy" →
         Revision.f_currency fee = (Revision.assets M trade market).2
         ∧ Revision.t_filled t = Revision.t_amount t
         ∧ ∀ total, Revision.t_total t = Some total →
             Revision.t_cost t
             = Some (PrimFloat.sub total (toNumber (Revision.f_cost fee)))).
Proof.
  unfold Revision.parseTrade, Revision.assets. intros Hparse [rate Hfee].
  rewrite Hfee in Hparse.
  destruct market as [m|]; [| destruct (rt_currencyPair trade) as [pair|];
    [destruct (markets_by_id M !! pair) as [m|] |]];
    simpl in Hparse;
    (destruct (bool_decide (safeString (rt_type trade) = Some "buy")) eqn:Hside;
     [ apply bind_Returned in Hparse as ([[filled cost] fee] & Hfees & [= <-]);
       apply bind_Returned in Hfees as ([[[[c fa] fi] fc] co] & Hbranch & [= <- <- <-]);
       apply bind_Returned in Hbranch as (feeAmount & _ & [= <- <- <- <- <-]);
       apply bool_decide_eq_true in Hside;
       eexists; split; [reflexivity |]; simpl; split; [done |];
       intros Hne; contradiction
     | apply bind_Returned in Hparse as ([[filled cost] fee] & Hfees & [= <-]);
       apply bind_Returned in Hfees as ([[[[c fa] fi] fc] co] & Hbranch & [= <- <- <-]);
       apply bool_decide_eq_false in Hside;
       destruct (safeFloat (rt_total trade)) as [total|] eqn:Htotal;
       [ apply bind_Returned in Hbranch as (feeCost & _ & [= <- <- <- <- <-])
       | injection Hbranch as <- <- <- <- <- ];
       eexists; (split; [reflexivity |]); simpl; (split; [done |]);
       intros _; (split; [done |]); (split; [done |]);
       intros total' [= <-]; try done ]).
Qed.

End RevisionFacts.

(** ** Balances *)

Lemma all_entries_initSymbol (P : WalletEntry → Prop) (symbol : string)
  (balances : gmap string WalletBalance) :
  P zero_entry → all_entries P balances →
  all_entries P (initSymbol symbol balances).
Proof.
  intros Hzero Hall. unfold initSymbol.
  destruct (balances !! symbol) eqn:Hs; [done |].
  intros symbol' b. rewrite lookup_insert. case_decide.
  - by intros [= <-].
  - apply Hall.
Qed.

Lemma all_entries_update_wallet (P : WalletEntry → Prop) (symbol wallet : string)
  (f : WalletEntry → WalletEntry) (balances balances' : gmap string WalletBalance) :
  (∀ e, P e → P (f e)) →
  all_entries P balances →
  update_wallet symbol wallet f balances = Returned balances' →
  all_entries P balances'.
Proof.
  intros Hf Hall. unfold update_wallet.
  destruct (balances !! symbol) as [b|] eqn:Hs; [| discriminate].
  destruct (Hall _ _ Hs) as (He & Hm & Hl).
  repeat case_bool_decide; intros [= <-]; intros symbol' b';
    rewrite lookup_insert; case_decide;
    try apply Hall; intros [= <-]; simpl; auto.
Qed.

Section BalanceFacts.
Context `{Runtime} `{BaseExchange}.

(** The accumulations of [fetchWalletBalance] never write a [total]. *)
Lemma fetchWalletBalance_accumulate_total
  (availableResponse : outcome (table (table json)))
  (completeResponse : outcome (table RawBalance))
  (openLoansResponse : outcome (table (list RawOffer)))
  (activeLoansResponse : outcome ActiveLoansResponse)
  (balances : gmap string WalletBalance) :
  fetchWalletBalance_accumulate availableResponse completeResponse
    openLoansResponse activeLoansResponse = Returned balances →
  all_entries (λ e, total e = 0%float) balances.
Proof.
  unfold fetchWalletBalance_accumulate. intros Hrun.
  apply bind_Returned in Hrun as (available & _ & Hrun).
  apply bind_Returned in Hrun as (balances1 & Havailable & Hrun).
  apply bind_Returned in Hrun as (openOrdersBalances & _ & Hrun).
  apply bind_Returned in Hrun as (balances2 & Hcomplete & Hrun).
  apply bind_Returned in Hrun as (open_loans & _ & Hrun).
  apply bind_Returned in Hrun as (active_loans & _ & Hloans).
  assert (H1 : all_entries (λ e, total e = 0%float) balances1).
  { eapply forEach_invariant; [| | exact Havailable]; [| done].
    intros s [wallet symbols] s' Hs _ Hinner.
    eapply forEach_invariant; [| exact Hs | exact Hinner].
    intros s0 [symbol value] s0' Hs0 _ Hstep.
    eapply all_entries_update_wallet; [| | exact Hstep]; [done |].
    by apply all_entries_initSymbol. }
  assert (H2 : all_entries (λ e, total e = 0%float) balances2).
  { eapply forEach_invariant; [| exact H1 | exact Hcomplete].
    intros s [symbol balance] s' Hs _ Hstep.
    destruct (PrimFloat.eqb _ _); [by injection Hstep as <- |].
    eapply all_entries_update_wallet; [| | exact Hstep]; [done |].
    by apply all_entries_initSymbol. }
  eapply forEach_invariant; [| exact H2 | exact Hloans].
  intros s offer s' Hs _ Hstep.
  eapply all_entries_update_wallet; [| | exact Hstep]; [done |].
  by apply all_entries_initSymbol.
Qed.

Lemma calc_totals_loop (balances : gmap string WalletBalance) (ks : list string) :
  foldl (λ balances symbol,
    match balances !! symbol with
    | Some b => <[symbol := calc_totals b]> balances
    | None => balances
    end) balances ks
  = foldl (λ m k, alter calc_totals k m) balances ks.
Proof.
  revert balances. induction ks as [|k ks IH]; intros balances; simpl; [done |].
  by rewrite update_if_present, IH.
Qed.

(** C7: for every asset and wallet type of the structure that
    [fetchWalletBalance] returns, [total] is [available + on_orders].  The
    totals are written by one pass over the accumulated structure, after the
    three accumulations (available balances, complete balances, loan
    offers), which leave every [total] at its initial [0]. *)
Theorem fetchWalletBalance_total
  (availableResponse : outcome (table (table json)))
  (completeResponse : outcome (table RawBalance))
  (openLoansResponse : outcome (table (list RawOffer)))
  (activeLoansResponse : outcome ActiveLoansResponse)
  (result : gmap string WalletBalance) :
  fetchWalletBalance availableResponse completeResponse
    openLoansResponse activeLoansResponse = Returned result →
  all_entries (λ e, total e = PrimFloat.add (available e) (on_orders e)) result
  ∧ ∃ accumulated,
      fetchWalletBalance_accumulate availableResponse completeResponse
        openLoansResponse activeLoansResponse = Returned accumulated
      ∧ all_entries (λ e, total e = 0%float) accumulated
      ∧ ∀ symbol, result !! symbol = calc_totals <$> accumulated !! symbol.
Proof.
  unfold fetchWalletBalance. intros Hrun.
  apply bind_Returned in Hrun as (accumulated & Hacc & [= <-]).
  assert (Hlookup : ∀ symbol,
    foldl (λ balances symbol,
      match balances !! symbol with
      | Some b => <[symbol := calc_totals b]> balances
      | None => balances
      end) accumulated (object_keys accumulated) !! symbol
    = calc_totals <$> accumulated !! symbol).
  { intros symbol. rewrite calc_totals_loop.
    rewrite foldl_alter_lookup by apply NoDup_object_keys.
    case_decide as Hin; [done |].
    rewrite elem_of_object_keys, <- eq_None_not_Some in Hin. by rewrite Hin. }
  split.
  - intros symbol b. rewrite Hlookup.
    destruct (accumulated !! symbol); [| discriminate].
    by intros [= <-].
  - exists accumulated. split; [done |].
    split; [by eapply fetchWalletBalance_accumulate_total | exact Hlookup].
Qed.

Lemma fetchBalance_accounts_spec (response : table RawBalance)
  (code : string) (account : Account) :
  fetchBalance_accounts response !! code = Some account →
  ∃ currencyId balance,
    (currencyId, balance) ∈ response
    ∧ code = commonCurrencyCode currencyId
    ∧ acc_free account = safeFloat (rb_available balance)
    ∧ acc_used account = safeFloat (rb_onOrders balance)
    ∧ acc_total account = sum (acc_free account) (acc_used account).
Proof.
  unfold fetchBalance_accounts.
  induction response as [|[currencyId balance] response IH] using rev_ind.
  - simpl. by rewrite lookup_empty.
  - rewrite foldl_app. simpl. rewrite lookup_insert. case_decide as Hcode.
    + intros [= <-]. exists currencyId, balance.
      split; [apply elem_of_app; right; by apply list_elem_of_singleton | done].
    + intros (c & b & Hin & Hrest)%IH. exists c, b.
      split; [apply elem_of_app; by left | done].
Qed.

(** C8: every per-asset account that [fetchBalance] builds and hands to
    [parseBalance] has [free] read from the source's ['available'] key,
    [used] read from its ['onOrders'] key, and a [total] that is their sum
    from the moment the account is built: exactly [free + used] when both
    are numbers. *)
Theorem fetchBalance_total (response : table RawBalance) :
  fetchBalance (Returned response)
    = Returned (parseBalance (fetchBalance_accounts response))
  ∧ ∀ code account,
      fetchBalance_accounts response !! code = Some account →
      (∃ currencyId balance,
         (currencyId, balance) ∈ response
         ∧ code = commonCurrencyCode currencyId
         ∧ acc_free account = safeFloat (rb_available balance)
         ∧ acc_used account = safeFloat (rb_onOrders balance))
      ∧ acc_total account = sum (acc_free account) (acc_used account)
      ∧ ∀ free used,
          acc_free account = Some free →
          acc_used account = Some used →
          acc_total account = Some (PrimFloat.add free used).
Proof.
  split; [done |]. intros code account Haccount.
  apply fetchBalance_accounts_spec in Haccount
    as (currencyId & balance & Hin & Hcode & Hfree & Hused & Htotal).
  split; [by eauto 10 |]. split; [done |].
  intros free used Hf Hu. by rewrite Htotal, Hf, Hu.
Qed.

End BalanceFacts.

(** ** What [parseOrder] and [parseOrderStatus] make of an order *)

(** [NaN < x] is false, whatever [x]. *)
Lemma ltb_nan_l (x : float) : PrimFloat.ltb nan x = false.
Proof.
  rewrite ltb_spec.
  replace (Prim2SF nan) with S754_nan by (vm_compute; reflexivity).
  reflexivity.
Qed.

Section ParseOrderFacts.
Context `{Runtime} `{BaseExchange}.
Context (M : Markets).

Lemma parseOrder_trades_lastTradeTimestamp (acc : TradeTotals) (ts : list Trade) :
  tt_lastTradeTimestamp acc = None →
  tt_lastTradeTimestamp (foldl parseOrder_trade acc ts) = None.
Proof.
  revert acc. induction ts as [|t ts IH]; intros acc Hacc; simpl; [done |].
  apply IH. simpl. rewrite Hacc. unfold js_lt. simpl. by rewrite ltb_nan_l.
Qed.

(** [parseOrder] never sets [lastTradeTimestamp]: the variable starts
    [undefined], the one assignment to it is guarded by
    [lastTradeTimestamp < tradeTimestamp], and [undefined < x] is false for
    every [x].  So every order that [parseOrder] returns has
    [lastTradeTimestamp: undefined], with or without trades. *)
Theorem parseOrder_never_sets_lastTradeTimestamp (order : RawOrder)
  (market : option Market) (o : Order) :
  parseOrder M order market = Returned o → o_lastTradeTimestamp o = None.
Proof.
  unfold parseOrder. intros Hp.
  destruct (safeFloat_or (ro_startingAmount order) (safeFloat (ro_amount order)))
    as [a|], (safeFloat (ro_amount order)) as [r|],
    (ro_resultingTrades order) as [ts|]; simpl in Hp;
  apply bind_Returned in Hp as (price' & _ & Hp);
  apply bind_Returned in Hp as (cost' & _ & Hp);
  apply bind_Returned in Hp as (fee' & _ & Hp);
  injection Hp as <-; simpl; try done;
  by apply parseOrder_trades_lastTradeTimestamp.
Qed.

(** The side of a parsed order is the payload's ['side'] and, when the
    payload has none, its ['type']; the type of a parsed order is the
    payload's ['type'] unless it is the side, in which case the order has no
    type.  So a payload with a ['type'] and no ['side'], as the exchange
    sends them, is parsed with that side and without a type. *)
Theorem parseOrder_side_and_type (order : RawOrder) (market : option Market)
  (o : Order) :
  parseOrder M order market = Returned o →
  (ro_side order = None →
     o_side o = safeString (ro_type order) ∧ o_type o = None)
  ∧ (∀ side, safeString (ro_side order) = Some side →
       o_side o = Some side
       ∧ o_type o = if bool_decide (safeString (ro_type order) = Some side)
                    then None else safeString (ro_type order)).
Proof.
  intros [Hside Htype]%parseOrder_type_side. split.
  - intros Hnone. rewrite Hnone in Hside. simpl in Hside.
    unfold safeString_or in Hside. simpl in Hside.
    rewrite Htype, Hside. split; [| by rewrite bool_decide_true].
    by destruct (safeString (ro_type order)).
  - intros side Hs. unfold safeString_or in Hside. rewrite Hs in Hside.
    by rewrite Htype, Hside.
Qed.

End ParseOrderFacts.



(** ** The cache and the result of [fetchOrders] *)

Lemma size_foldl_alter {V : Type} (f : string → V → V) (ks : list string)
  (obj : gmap string V) :
  size (foldl (λ m k, alter (f k) k m) obj ks) = size obj.
Proof.
  revert obj. induction ks as [|k ks IH]; intros obj; simpl; [done |].
  rewrite IH, <- !size_dom. by rewrite dom_alter_L.
Qed.

Section OrderListFacts.
Context `{Runtime} `{BaseExchange}.
Context (M : Markets).

Lemma reconcile_step_result (idx : gmap string Order) (market : option Market)
  (symbol : option string) (orders : gmap string Order) (result : list Order)
  (id : string) :
  (reconcile_step idx market symbol (orders, result) id).2
  = match orders !! id with
    | Some cached =>
        if in_result market symbol (reconciled idx id cached)
        then (result ++ [reconciled idx id cached])%list else result
    | None => result
    end.
Proof.
  unfold reconcile_step, reconciled, in_result.
  destruct (orders !! id) as [cached|] eqn:Hid; [| done].
  destruct (idx !! id) as [fresh|].
  - rewrite lookup_insert_eq. by destruct market; [case_bool_decide |].
  - case_bool_decide.
    + rewrite lookup_insert_eq. by destruct market; [case_bool_decide |].
    + rewrite Hid. by destruct market; [case_bool_decide |].
Qed.

Lemma reconcile_loop_result (idx : gmap string Order) (market : option Market)
  (symbol : option string) (ks : list string) :
  NoDup ks →
  ∀ (orders : gmap string Order) (result : list Order) (o : Order),
    o ∈ (foldl (reconcile_step idx market symbol) (orders, result) ks).2
    ↔ o ∈ result
      ∨ ∃ k cached, k ∈ ks ∧ orders !! k = Some cached
          ∧ o = reconciled idx k cached
          ∧ in_result market symbol o = true.
Proof.
  induction ks as [|k ks IH]; intros Hnd orders result o; cbn [foldl].
  - simpl. split; [by left |]. intros [? | (k & c & Hin & _)]; [done |].
    by apply elem_of_nil in Hin.
  - apply NoDup_cons in Hnd as [Hk Hnd].
    pose proof (reconcile_step_orders idx market symbol (orders, result) k) as Ho.
    pose proof (reconcile_step_result idx market symbol orders result k) as Hr.
    destruct (reconcile_step idx market symbol (orders, result) k)
      as [orders1 result1]. simpl in Ho, Hr. subst orders1 result1.
    rewrite IH by done. split.
    + intros [Hres | (k' & c & Hin & Hl & -> & Hkeep)].
      * destruct (orders !! k) as [cached|] eqn:Hc; [| by left].
        destruct (in_result market symbol (reconciled idx k cached)) eqn:Hkeep;
          [| by left].
        apply elem_of_app in Hres as [? | ->%list_elem_of_singleton]; [by left |].
        right. exists k, cached. split; [by apply elem_of_cons; left | done].
      * right. exists k', c. split; [by apply elem_of_cons; right |].
        rewrite lookup_alter_ne in Hl by (intros ->; done). done.
    + intros [Hres | (k' & c & Hin & Hl & -> & Hkeep)].
      * left. destruct (orders !! k) as [cached|]; [| done].
        destruct (in_result _ _ _); [apply elem_of_app; by left | done].
      * apply elem_of_cons in Hin as [-> | Hin].
        -- left. rewrite Hl, Hkeep. apply elem_of_app. right.
           by apply list_elem_of_singleton.
        -- right. exists k', c. split; [done |].
           rewrite lookup_alter_ne by (intros ->; done). done.
Qed.

Lemma reconcile_loop_length (idx : gmap string Order) (market : option Market)
  (symbol : option string) (ks : list string)
  (st : gmap string Order * list Order) :
  (List.length (foldl (reconcile_step idx market symbol) st ks).2
   ≤ List.length st.2 + List.length ks)%nat.
Proof.
  revert st. induction ks as [|k ks IH]; intros [orders result]; cbn [foldl];
    [simpl; lia |].
  pose proof (reconcile_step_result idx market symbol orders result k) as Hr.
  etransitivity; [apply IH |]. rewrite Hr. cbn [snd List.length].
  destruct (orders !! k) as [c|]; [| lia].
  destruct (in_result _ _ _); [rewrite List.length_app; simpl |]; lia.
Qed.

(** The list that [fetchOrders] hands to [filterBySinceLimit]. *)
Lemma fetchOrders_reconcile_result (market : option Market)
  (symbol : option string) (openOrders : list Order)
  (cache : gmap string Order) (o : Order) :
  o ∈ (fetchOrders_reconcile market symbol openOrders cache).2
  ↔ ∃ id,
      (fetchOrders_reconcile market symbol openOrders cache).1 !! id = Some o
      ∧ in_result market symbol o = true.
Proof.
  setoid_rewrite fetchOrders_reconcile_lookup.
  unfold fetchOrders_reconcile.
  rewrite reconcile_loop_result by apply NoDup_object_keys. split.
  - intros [Hnil | (k & c & _ & Hk & -> & Hkeep)]; [by apply elem_of_nil in Hnil |].
    exists k. by rewrite Hk.
  - intros (k & Hk & Hkeep). right.
    destruct (upsert cache openOrders !! k) as [c|] eqn:Hc; [| done].
    injection Hk as <-. exists k, c. split; [| done].
    apply elem_of_object_keys. by rewrite Hc.
Qed.

(** A call of [fetchOrders] that returns, taken apart. *)
Lemma fetchOrders_Returned (symbol : option string) (since limit : option float)
  (response : outcome OpenOrdersResponse) (cache cache' : gmap string Order)
  (result : list Order) :
  fetchOrders M symbol since limit response cache = (cache', Returned result) →
  ∃ market r openOrders,
    response = Returned r
    ∧ (market = None ↔ symbol = None)
    ∧ fetchOrders_parse M market r = Returned openOrders
    ∧ cache' = (fetchOrders_reconcile market symbol openOrders cache).1
    ∧ result = filterBySinceLimit_orders
        (fetchOrders_reconcile market symbol openOrders cache).2 since limit.
Proof.
  unfold fetchOrders. intros Hrun.
  assert ((∃ found, (found = None ↔ symbol = None)
    ∧ match symbol with
      | Some s => Some <$> market M s
      | None => Returned None
      end = Returned found) ∨
    ∃ e, match symbol with
      | Some s => Some <$> market M s
      | None => Returned None
      end = @Thrown (option Market) e) as Hm.
  { destruct symbol as [s|]; simpl.
    - destruct (market M s) as [m|e]; simpl; [| by right; eauto].
      left. exists (Some m). by split.
    - left. by exists None. }
  destruct Hm as [(found & Hiff & Hm) | [e Hm]]; rewrite Hm in Hrun;
    simpl in Hrun; [| discriminate].
  destruct response as [r|e]; simpl in Hrun; [| discriminate].
  destruct (fetchOrders_parse M found r) as [openOrders|e] eqn:Hparse;
    simpl in Hrun; [| discriminate].
  destruct (fetchOrders_reconcile found symbol openOrders cache)
    as [orders listed] eqn:Hrec.
  injection Hrun as <- <-. exists found, r, openOrders. by rewrite Hrec.
Qed.

(** [fetchOrders] never drops an order from the cache: the ids of the cache
    after a call are those it had and, when the call returns, those of the
    listing. *)
Theorem fetchOrders_keeps_every_id (symbol : option string)
  (since limit : option float) (response : outcome OpenOrdersResponse)
  (cache : gmap string Order) (id : string) :
  let cache' := (fetchOrders M symbol since limit response cache).1 in
  (is_Some (cache !! id) → is_Some (cache' !! id))
  ∧ (is_Some (cache' !! id) →
     is_Some (cache !! id) ∨ ∃ r, response = Returned r ∧ id ∈ listed_ids r)
  ∧ (∀ r result, response = Returned r →
       (fetchOrders M symbol since limit response cache).2 = Returned result →
       id ∈ listed_ids r → is_Some (cache' !! id)).
Proof.
  simpl.
  destruct (fetchOrders_cases M symbol since limit response cache)
    as [[e He] | (market & r & openOrders & -> & Hparse & Heq)].
  - rewrite He. simpl. split; [done |]. split; [by left |].
    intros ? ? _ ?. discriminate.
  - rewrite Heq. simpl. rewrite fetchOrders_reconcile_lookup, upsert_lookup.
    apply fetchOrders_parse_listing in Hparse as [Hkeys _].
    destruct (indexBy_id openOrders !! id) as [fresh|] eqn:Hidx; simpl.
    + split; [by eauto |]. split; [| by eauto].
      intros _. right. exists r. split; [done |]. rewrite <- Hkeys.
      destruct (decide (id ∈ (λ o, key_of (o_id o)) <$> openOrders)) as [|Hn];
        [done |].
      apply indexBy_id_None in Hn. congruence.
    + rewrite fmap_is_Some. split; [done |]. split; [by left |].
      intros r' result [= <-] _ Hin. rewrite <- Hkeys in Hin.
      apply indexBy_id_None in Hidx. contradiction.
Qed.

(** What [fetchOrders] returns is [filterBySinceLimit] of the orders of the
    new cache, those of the requested symbol when one is given. *)
Theorem fetchOrders_returns_the_cache (symbol : option string)
  (since limit : option float) (response : outcome OpenOrdersResponse)
  (cache cache' : gmap string Order) (result : list Order) :
  fetchOrders M symbol since limit response cache = (cache', Returned result) →
  ∃ listed,
    result = filterBySinceLimit_orders listed since limit
    ∧ (∀ o, o ∈ listed ↔
         ∃ id, cache' !! id = Some o ∧ (symbol = None ∨ o_symbol o = symbol))
    ∧ (List.length listed ≤ size cache')%nat.
Proof.
  intros (market & r & openOrders & -> & Hm & _ & -> & ->)%fetchOrders_Returned.
  eexists. split; [done |]. split.
  - intros o. rewrite fetchOrders_reconcile_result.
    assert (in_result market symbol o = true
            ↔ symbol = None ∨ o_symbol o = symbol) as Hkeep.
    { unfold in_result. destruct market as [m|].
      - rewrite bool_decide_eq_true. split; [by right |].
        intros [Hs | Hs]; [| done]. apply Hm in Hs. discriminate.
      - split; [| done]. intros _. left. by apply Hm. }
    by setoid_rewrite Hkeep.
  - unfold fetchOrders_reconcile.
    etransitivity; [apply reconcile_loop_length |]. simpl.
    rewrite reconcile_loop_orders. simpl.
    rewrite size_foldl_alter. unfold object_keys.
    by rewrite length_fmap, length_map_to_list.
Qed.

End OrderListFacts.

(** ** Open orders and the status of an order *)

Lemma filterOrdersByStatus_filter (orders : list Order) (status : string) :
  filterOrdersByStatus orders status
  = filter (λ o, o_status o = Some status) orders.
Proof.
  unfold filterOrdersByStatus.
  enough (Hgen : ∀ acc,
    foldl (λ result order,
      if bool_decide (o_status order = Some status)
      then (result ++ [order])%list else result) acc orders
    = (acc ++ filter (λ o, o_status o = Some status) orders)%list)
    by apply (Hgen []).
  induction orders as [|o orders IH]; intros acc; simpl.
  - by rewrite app_nil_r.
  - rewrite IH, filter_cons. case_bool_decide as Hst.
    + rewrite decide_True by done. by rewrite <- app_assoc.
    + by rewrite decide_False by done.
Qed.

Section OpenOrdersFacts.
Context `{Runtime} `{BaseExchange}.
Context (M : Markets).

(** An order of the cache after [fetchOrders] that is open is one that the
    response lists, filed under its own id. *)
Lemma fetchOrders_open_is_listed (market : option Market)
  (symbol : option string) (r : OpenOrdersResponse) (openOrders : list Order)
  (cache : gmap string Order) (k : string) (o : Order) :
  fetchOrders_parse M market r = Returned openOrders →
  (fetchOrders_reconcile market symbol openOrders cache).1 !! k = Some o →
  o_status o = Some "open" →
  k ∈ listed_ids r ∧ key_of (o_id o) = k.
Proof.
  intros [Hkeys _]%fetchOrders_parse_listing.
  rewrite fetchOrders_reconcile_lookup, upsert_lookup. unfold reconciled.
  destruct (indexBy_id openOrders !! k) as [fresh|] eqn:Hidx; simpl.
  - intros [= <-] _. split.
    + rewrite <- Hkeys.
      destruct (decide (k ∈ (λ o, key_of (o_id o)) <$> openOrders)) as [|Hn];
        [done |].
      apply indexBy_id_None in Hn. congruence.
    + by apply indexBy_id_Some in Hidx as [_ Hk].
  - destruct (cache !! k) as [c|]; simpl; [| done].
    case_bool_decide as Hopen; intros [= <-]; [discriminate | done].
Qed.

(** [fetchOpenOrders] is [fetchOrders] followed by a filter: it leaves the
    cache that [fetchOrders] leaves, and it returns, in the same order, the
    orders of [fetchOrders]'s result whose status is ['open']. *)
Theorem fetchOpenOrders_only_open (symbol : option string)
  (since limit : option float) (response : outcome OpenOrdersResponse)
  (cache cache' : gmap string Order) (orders : list Order) :
  fetchOpenOrders M symbol since limit response cache
    = (cache', Returned orders) →
  Forall (λ o, o_status o = Some "open") orders
  ∧ ∃ all,
      fetchOrders M symbol since limit response cache = (cache', Returned all)
      ∧ orders = filter (λ o, o_status o = Some "open") all.
Proof.
  unfold fetchOpenOrders.
  destruct (fetchOrders M symbol since limit response cache)
    as [cache1 [all|e]]; simpl; [| discriminate].
  intros [= <- <-]. rewrite filterOrdersByStatus_filter. split; [| by eauto].
  apply Forall_forall. by intros o [Hst _]%list_elem_of_filter.
Qed.

(** Provided [filterBySinceLimit], called with neither a [since] nor a
    [limit], returns its argument: [fetchOrderStatus] answers ['closed'] for
    every id that the exchange does not list, whatever the cache holds for
    it, and ['open'] for every id that it lists when no symbol is given. *)
Theorem fetchOrderStatus_follows_the_listing (id : string)
  (symbol : option string) (r : OpenOrdersResponse)
  (cache cache' : gmap string Order) (status : string) :
  (∀ orders, filterBySinceLimit_orders orders None None = orders) →
  fetchOrderStatus M id symbol (Returned r) cache = (cache', Returned status) →
  (id ∉ listed_ids r → status = "closed")
  ∧ (symbol = None → id ∈ listed_ids r → status = "open").
Proof.
  intros Hfilter. unfold fetchOrderStatus, fetchOpenOrders.
  destruct (fetchOrders M symbol None None (Returned r) cache)
    as [cache1 [all|e]] eqn:Hrun; simpl; [| discriminate].
  intros [= <- <-].
  apply fetchOrders_Returned in Hrun
    as (market & r' & openOrders & [= <-] & Hm & Hparse & -> & ->).
  rewrite Hfilter, filterOrdersByStatus_filter. split.
  - intros Hunlisted. case_bool_decide as Hidx; [| done]. exfalso.
    destruct Hidx as [fresh Hidx].
    apply indexBy_id_Some in Hidx as [Hin Hkey].
    apply list_elem_of_filter in Hin as [Hopen Hin].
    apply fetchOrders_reconcile_result in Hin as (k & Hk & _).
    destruct (fetchOrders_open_is_listed market symbol r openOrders cache k fresh)
      as [Hlisted Hk']; [done.. |].
    congruence.
  - intros -> Hlisted. rewrite bool_decide_true; [done |].
    assert (market = None) as -> by by apply Hm.
    pose proof Hparse as [Hkeys Hopen]%fetchOrders_parse_listing.
    destruct (indexBy_id openOrders !! id) as [fresh|] eqn:Hidx.
    2:{ apply indexBy_id_None in Hidx. rewrite Hkeys in Hidx. contradiction. }
    pose proof Hidx as [Hin Hkey]%indexBy_id_Some.
    assert (o_status fresh = Some "open") as Hst
      by by eapply Forall_forall in Hopen.
    match goal with |- is_Some (indexBy_id ?l !! id) => 
      destruct (indexBy_id l !! id) eqn:Hnone; [by eauto |] end.
    exfalso. apply indexBy_id_None in Hnone. apply Hnone.
    apply list_elem_of_fmap. exists fresh. split; [done |].
    apply list_elem_of_filter. split; [done |].
    apply fetchOrders_reconcile_result. exists id. split; [| done].
    rewrite fetchOrders_reconcile_lookup, upsert_lookup, Hidx. simpl.
    unfold reconciled. rewrite Hidx. by destruct fresh.
Qed.

End OpenOrdersFacts.

(** ** Cancelling, and fetching one order *)

Lemma mark_canceled_alter (id : string) (cache : gmap string Order) :
  mark_canceled id cache = alter (set_status "canceled") id cache.
Proof. apply update_if_present. Qed.

Lemma set_status_idem (status : string) (o : Order) :
  set_status status (set_status status o) = set_status status o.
Proof. done. Qed.

(** [cancelOrder] hands back what the request gave, keeps the ids of the
    cache and every order but [id], and changes of the order [id] the status
    only: to ['canceled'] when the request returned or threw
    [CancelPending], not at all when it threw anything else. *)
Theorem cancelOrder_touches_one_status {R : Type} (id : string)
  (response : outcome R) (cache : gmap string Order) :
  let cache' := (cancelOrder id response cache).1 in
  (cancelOrder id response cache).2 = response
  ∧ (∀ k, k ≠ id → cache' !! k = cache !! k)
  ∧ (cache !! id = None → cache' = cache)
  ∧ (∀ e, response = Thrown e → instanceof e CancelPending = false →
       cache' = cache)
  ∧ (∀ r, response = Returned r →
       cache' !! id = set_status "canceled" <$> cache !! id).
Proof.
  simpl. unfold cancelOrder.
  assert (Hne : ∀ k, k ≠ id → mark_canceled id cache !! k = cache !! k).
  { intros k Hk. rewrite mark_canceled_alter. by apply lookup_alter_ne. }
  assert (Hnone : cache !! id = None → mark_canceled id cache = cache).
  { intros Hid. unfold mark_canceled. by rewrite Hid. }
  destruct response as [r|e]; simpl.
  - split; [done |]. split; [done |]. split; [done |]. split; [done |].
    intros _ _. rewrite mark_canceled_alter. apply lookup_alter_eq.
  - destruct (instanceof e CancelPending) eqn:Hpending.
    + split; [done |]. split; [done |]. split; [done |].
      split; [| done]. intros ? [= <-]. congruence.
    + done.
Qed.

Section SingleOrderFacts.
Context `{Runtime} `{BaseExchange}.
Context (M : Markets).

Lemma cancel_loop_lookup (ids : list string) (cache : gmap string Order)
  (k : string) :
  foldl (λ cache id, mark_canceled id cache) cache ids !! k
  = if decide (k ∈ ids) then set_status "canceled" <$> cache !! k
    else cache !! k.
Proof.
  revert cache. induction ids as [|id ids IH]; intros cache; simpl; [done |].
  rewrite IH, mark_canceled_alter, lookup_alter.
  destruct (decide (k ∈ ids)) as [Hin|Hin], (decide (id = k)) as [->|Hne].
  - rewrite decide_True by (apply elem_of_cons; by right).
    by destruct (cache !! k).
  - by rewrite decide_True by (apply elem_of_cons; by right).
  - by rewrite decide_True by (apply elem_of_cons; by left).
  - rewrite decide_False; [done |].
    rewrite elem_of_cons. intros [-> | ?]; done.
Qed.

(** When [cancelAllOrders] returns, the cached orders whose ids the answer
    lists under ['orderNumbers'] have status ['canceled'] and nothing else
    of the cache has changed; an answer without that key, and a call that
    throws, leave the cache as it was. *)
Theorem cancelAllOrders_marks_the_listed (symbol : option string)
  (response : outcome CancelAllResponse) (cache : gmap string Order) :
  let cache' := (cancelAllOrders M symbol response cache).1 in
  (∀ r, (cancelAllOrders M symbol response cache).2 = Returned r →
     response = Returned r
     ∧ ∀ k, cache' !! k
         = if decide (k ∈ json_toString <$> default [] (ca_orderNumbers r))
           then set_status "canceled" <$> cache !! k
           else cache !! k)
  ∧ (∀ e, (cancelAllOrders M symbol response cache).2 = Thrown e →
       cache' = cache).
Proof.
  simpl. unfold cancelAllOrders.
  destruct (match symbol with
            | Some s => Some <$> market M s
            | None => Returned None
            end) as [m|e]; simpl; [| by split].
  destruct response as [r|e]; simpl; [| by split].
  split; [| done]. intros ? [= <-]. split; [done |]. intros k.
  rewrite <- cancel_loop_lookup.
  generalize (default [] (ca_orderNumbers r)). intros ids. revert cache.
  induction ids as [|j ids IH]; intros cache; simpl; [done |]. apply IH.
Qed.

(** [fetchOpenOrder] files the order it returns under the id it was asked
    for, which is also the id of the order whatever the payload says; it
    throws [OrderNotFound] when the answer has nothing for the id; and when
    it throws, the cache is as it was. *)
Theorem fetchOpenOrder_files_under_the_id (id : string)
  (result : outcome (option RawOrder)) (cache : gmap string Order) :
  let '(cache', outcome) := fetchOpenOrder M id result cache in
  match outcome with
  | Returned order =>
      o_id order = Some id
      ∧ cache' = <[id := order]> cache
      ∧ ∃ raw parsed,
          result = Returned (Some raw)
          ∧ parseOrder M raw None = Returned parsed
          ∧ order = set_id (Some id) parsed
          ∧ o_status order = parseOrderStatus (safeString (ro_status raw))
  | Thrown e =>
      cache' = cache
      ∧ (result = Returned None →
         e = Raise OrderNotFound ("poloniex order id " +:+ id +:+ " not found"))
  end.
Proof.
  unfold fetchOpenOrder. destruct result as [[raw|]|e]; [| done | done].
  destruct (parseOrder M raw None) as [parsed|e] eqn:Hp; [| done].
  split; [done |]. split; [done |]. exists raw, parsed.
  do 3 (split; [done |]). by apply parseOrder_id_status in Hp as [_ Hst].
Qed.

(** When the exchange has a status for the order, [fetchOrder] does what
    [fetchOpenOrder] does, and the trades of the order play no part. *)
Lemma fetchOrder_known_status (id : string)
  (results : gmap string RawOrder) (raw : RawOrder)
  (tradesResponse : outcome (list RawTrade)) (cache : gmap string Order) :
  results !! id = Some raw →
  fetchOrder M id (Returned {| os_result := Some results |}) tradesResponse cache
  = fetchOpenOrder M id (Returned (Some raw)) cache.
Proof. intros Hid. unfold fetchOrder, fetchOpenOrder. simpl. by rewrite Hid. Qed.

(** When the exchange has no status for the order, [fetchOrder] answers
    from the trades of the order, and leaves the cache alone. *)
Lemma fetchOrder_unknown_status (id : string)
  (results : gmap string RawOrder)
  (tradesResponse : outcome (list RawTrade)) (cache : gmap string Order) :
  results !! id = None →
  let run :=
    fetchOrder M id (Returned {| os_result := Some results |})
      tradesResponse cache in
  run.1 = cache
  ∧ (∀ e, tradesResponse = Thrown e → run.2 = Returned (canceled_stub id))
  ∧ (tradesResponse = Returned [] → run.2 = Thrown TypeError)
  ∧ (∀ trades order,
       tradesResponse = Returned trades → run.2 = Returned order →
       o_id order = Some id
       ∧ o_status order = Some "closed"
       ∧ o_amount order
         = safeFloat (Some (JNum
             (foldl (λ total trade, PrimFloat.add total (Number (rt_amount trade)))
                0%float trades)))
       ∧ o_remaining order = None
       ∧ o_trades order
         = Some (parseTrades M (set_orderNumber id <$> trades) None)).
Proof.
  intros Hid. unfold fetchOrder. simpl. rewrite Hid.
  destruct tradesResponse as [trades|e]; simpl.
  - destruct trades as [|first trades]; simpl.
    + split; [done |]. split; [done |]. split; [done |].
      intros ? ? _ ?. discriminate.
    + split; [done |]. split; [done |]. split; [done |].
      intros ? order [= <-] Hp.
      pose proof Hp as [Ho Hst]%parseOrder_id_status.
      split; [done |]. split; [done |].
      unfold parseOrder in Hp. simpl in Hp.
      match type of Hp with
      | context [safeFloat_or ?a None] =>
          unfold safeFloat_or in Hp; destruct (safeFloat a) as [amount|] eqn:Ha
      end; simpl in Hp;
      apply bind_Returned in Hp as (price' & _ & Hp);
      apply bind_Returned in Hp as (cost' & _ & Hp);
      apply bind_Returned in Hp as (fee' & _ & Hp);
      injection Hp as <-; simpl; by rewrite ?Ha.
  - split; [done |]. split; [by intros ? [= <-] |]. split; [done |].
    intros ? ? ?. discriminate.
Qed.

(** [fetchOrder] by what the exchange knows of the order.  With a status
    for the id, it does what [fetchOpenOrder] does with that status, and the
    outcome of the request for the trades plays no part.  Without one, it
    never writes to the cache: it answers [{ id, status: 'canceled' }] when
    the request for the trades throws, whatever the exception; it throws a
    [TypeError] when the list of trades is empty; and otherwise the order it
    returns is ['closed'], has the id asked for, no remaining amount, and
    for amount the sum of the trades' amounts as [safeFloat] reads it. *)
Theorem fetchOrder_by_status (id : string) (results : gmap string RawOrder)
  (tradesResponse : outcome (list RawTrade)) (cache : gmap string Order) :
  let run :=
    fetchOrder M id (Returned {| os_result := Some results |})
      tradesResponse cache in
  (∀ raw, results !! id = Some raw →
     run = fetchOpenOrder M id (Returned (Some raw)) cache)
  ∧ (results !! id = None →
     run.1 = cache
     ∧ (∀ e, tradesResponse = Thrown e → run.2 = Returned (canceled_stub id))
     ∧ (tradesResponse = Returned [] → run.2 = Thrown TypeError)
     ∧ (∀ trades order,
          tradesResponse = Returned trades → run.2 = Returned order →
          o_id order = Some id
          ∧ o_status order = Some "closed"
          ∧ o_amount order
            = safeFloat (Some (JNum
                (foldl (λ total trade,
                          PrimFloat.add total (Number (rt_amount trade)))
                   0%float trades)))
          ∧ o_remaining order = None
          ∧ o_trades order
            = Some (parseTrades M (set_orderNumber id <$> trades) None))).
Proof.
  split.
  - intros raw Hraw. by apply fetchOrder_known_status.
  - intros Hnone. by apply fetchOrder_unknown_status.
Qed.

End SingleOrderFacts.

(** ** Editing and creating *)

Section EditFacts.
Context `{Runtime} `{BaseExchange}.
Context (M : Markets).

(** [editOrder] on an order of the cache: the order is marked ['canceled']
    and a copy of it is filed under the order number of the answer, with
    that id, status ['open'], the price asked for as [priceToPrecision]
    rounds it, and the amount asked for when there is one; no other entry
    changes.  When the exchange answers with the same order number, the one
    entry is the open copy. *)
Theorem editOrder_moves_a_cached_order (id : string) (symbol : option string)
  (amount price : option float) (response : outcome RawOrder)
  (cache cache' : gmap string Order) (cached moved : Order) :
  cache !! id = Some cached →
  editOrder M id symbol amount price response cache = (cache', Returned moved) →
  ∃ answer rate,
    response = Returned answer
    ∧ priceToPrecision symbol (Some (num price)) = Returned rate
    ∧ moved = set_id (safeString (ro_orderNumber answer))
        (set_status "open"
          {| o_id := o_id cached;
             o_timestamp := o_timestamp cached;
             o_datetime := o_datetime cached;
             o_lastTradeTimestamp := o_lastTradeTimestamp cached;
             o_status := o_status cached;
             o_symbol := o_symbol cached;
             o_type := o_type cached;
             o_side := o_side cached;
             o_price := Some (toNumber rate);
             o_cost := o_cost cached;
             o_amount := match amount with
                         | Some a => Some a
                         | None => o_amount cached
                         end;
             o_filled := o_filled cached;
             o_remaining := o_remaining cached;
             o_trades := o_trades cached;
             o_fee := o_fee cached |})
    ∧ (∀ newid, ro_orderNumber answer = Some (JStr newid) →
         cache' !! newid = Some moved
         ∧ (newid ≠ id → cache' !! id = Some (set_status "canceled" cached))
         ∧ (∀ k, k ≠ id → k ≠ newid → cache' !! k = cache !! k)).
Proof.
  intros Hid. unfold editOrder. rewrite Hid.
  destruct (priceToPrecision symbol (Some (num price))) as [rate|e] eqn:Hrate;
    simpl; [| discriminate].
  destruct (match amount with
            | Some a => Some <$> amountToPrecision symbol (Some a)
            | None => Returned None
            end) as [amount'|e]; simpl; [| discriminate].
  destruct response as [answer|e]; simpl; [| discriminate].
  intros [= <- <-]. exists answer, rate. do 2 (split; [done |]). split.
  - by destruct amount.
  - intros newid Hnew. rewrite Hnew. simpl. split; [apply lookup_insert_eq |].
    split.
    + intros Hne. rewrite lookup_insert_ne by done. apply lookup_insert_eq.
    + intros k Hk Hk'. by rewrite !lookup_insert_ne by done.
Qed.

(** [editOrder] on an order that the cache does not hold returns what
    [parseOrder] makes of the exchange's answer, with the market of the
    symbol when one is given, files it under its id, which is the order
    number of the answer, and leaves the other entries alone; the order has
    the status of the answer, none when the answer carries none. *)
Theorem editOrder_files_an_unknown_order (id : string) (symbol : option string)
  (amount price : option float) (response : outcome RawOrder)
  (cache cache' : gmap string Order) (order : Order) :
  cache !! id = None →
  editOrder M id symbol amount price response cache = (cache', Returned order) →
  ∃ answer found,
    response = Returned answer
    ∧ market_of M symbol = Returned found
    ∧ parseOrder M answer found = Returned order
    ∧ cache' = <[key_of (o_id order) := order]> cache
    ∧ o_id order = safeString (ro_orderNumber answer)
    ∧ o_status order = parseOrderStatus (safeString (ro_status answer)).
Proof.
  intros Hid. unfold editOrder. rewrite Hid.
  destruct (priceToPrecision symbol (Some (num price))) as [rate|e];
    simpl; [| discriminate].
  destruct (match amount with
            | Some a => Some <$> amountToPrecision symbol (Some a)
            | None => Returned None
            end) as [amount'|e]; simpl; [| discriminate].
  destruct response as [answer|e]; simpl; [| discriminate].
  fold (market_of M symbol).
  destruct (market_of M symbol) as [m|e]; simpl; [| discriminate].
  destruct (parseOrder M answer m) as [parsed|e] eqn:Hp; [| discriminate].
  intros [= <- <-]. exists answer, m. do 4 (split; [done |]).
  by apply parseOrder_id_status in Hp.
Qed.

(** A call of [editOrder] that throws leaves the cache as it was: the
    request is built and sent before the cache is written, and what follows
    the first write (the second rounding of the same price) throws only if
    the first did.  The answer of the exchange is an object here: reading
    ['orderNumber'] off an answer that is [undefined] would throw after the
    order has been marked ['canceled']. *)
Theorem editOrder_throws_before_it_writes (id : string)
  (symbol : option string) (amount price : option float)
  (response : outcome RawOrder) (cache cache' : gmap string Order) (e : exn) :
  editOrder M id symbol amount price response cache = (cache', Thrown e) →
  cache' = cache.
Proof.
  unfold editOrder.
  destruct (priceToPrecision symbol (Some (num price))) as [rate|e1] eqn:Hrate;
    simpl; [| by intros [= <- _]].
  destruct (match amount with
            | Some a => Some <$> amountToPrecision symbol (Some a)
            | None => Returned None
            end) as [amount'|e1]; simpl; [| by intros [= <- _]].
  destruct response as [answer|e1]; simpl; [| by intros [= <- _]].
  destruct (cache !! id) as [cached|]; [discriminate |].
  destruct (match symbol with
            | Some s => Some <$> market M s
            | None => Returned None
            end) as [m|e1]; simpl; [| by intros [= <- _]].
  destruct (parseOrder M answer m) as [parsed|e1]; [discriminate |].
  by intros [= <- _].
Qed.

(** [createOrder] files the order it returns under the order number of the
    exchange's answer and leaves every other entry alone; the order is
    ['open'] unless the answer carries a status of its own.  A call that
    throws leaves the cache as it was. *)
Theorem createOrder_files_the_order (symbol type side : string) (amount : float)
  (price : option float) (response : outcome RawOrder) (now : float)
  (cache : gmap string Order) :
  let '(cache', outcome) :=
    createOrder M symbol type side amount price response now cache in
  match outcome with
  | Returned order =>
      ∃ answer,
        response = Returned answer
        ∧ o_id order = safeString (ro_orderNumber answer)
        ∧ cache' = <[key_of (o_id order) := order]> cache
        ∧ (ro_status answer = None → o_status order = Some "open")
  | Thrown _ => cache' = cache
  end.
Proof.
  destruct (createOrder M symbol type side amount price response now cache)
    as [cache' [order|e]] eqn:Hrun.
  - apply createOrder_Returned in Hrun
      as (-> & _ & m & answer & _ & -> & Hp).
    exists answer. split; [done |].
    apply parseOrder_id_status in Hp as [Ho Hst]. simpl in Ho, Hst.
    split; [| split; [done |]].
    + rewrite Ho. by destruct (ro_orderNumber answer).
    + intros Hnone. rewrite Hnone in Hst. exact Hst.
  - unfold createOrder in Hrun.
    repeat match type of Hrun with
    | context [match ?x with Returned _ => _ | Thrown _ => _ end] =>
        destruct x; simpl in Hrun; try discriminate
    end; by injection Hrun as <-.
Qed.

End EditFacts.

(** ** The wallets of [fetchWalletBalance] *)

Lemma forEach_returns {A S : Type} (body : S → A → outcome S) (xs : list A) :
  (∀ s x, x ∈ xs → ∃ s', body s x = Returned s') →
  ∀ s, ∃ s', forEach body s xs = Returned s'.
Proof.
  induction xs as [|x xs IH]; intros Hbody s; simpl; [by eauto |].
  destruct (Hbody s x) as [s1 ->]; [by apply elem_of_cons; left |]. simpl.
  apply IH. intros s0 y Hy. apply Hbody. by apply elem_of_cons; right.
Qed.

(** A loop all of whose turns throw nothing but [e] throws [e] as soon as
    one turn is bound to throw. *)
Lemma forEach_throws {A S : Type} (e : exn) (body : S → A → outcome S)
  (xs : list A) :
  (∀ s x e', body s x = Thrown e' → e' = e) →
  (∃ x, x ∈ xs ∧ ∀ s, body s x = Thrown e) →
  ∀ s, forEach body s xs = Thrown e.
Proof.
  intros Honly (x & Hin & Hx).
  induction xs as [|y ys IH]; intros s; [by apply elem_of_nil in Hin |].
  simpl. destruct (body s y) as [s1|e'] eqn:Hy; simpl.
  - apply elem_of_cons in Hin as [<- | Hin]; [by rewrite Hx in Hy |].
    by apply IH.
  - f_equal. by eapply Honly.
Qed.

Lemma forEach_throws_only {A S : Type} (e : exn) (body : S → A → outcome S)
  (xs : list A) (s : S) (e' : exn) :
  (∀ s x e', body s x = Thrown e' → e' = e) →
  forEach body s xs = Thrown e' → e' = e.
Proof.
  intros Honly. revert s. induction xs as [|y ys IH]; intros s; simpl;
    [discriminate |].
  destruct (body s y) as [s1|e1] eqn:Hy; simpl; [apply IH |].
  intros [= <-]. by eapply Honly.
Qed.

Lemma update_wallet_initSymbol (symbol wallet : string)
  (f : WalletEntry → WalletEntry) (balances : gmap string WalletBalance) :
  (wallet ∈ wallets →
   ∃ balances', update_wallet symbol wallet f (initSymbol symbol balances)
                = Returned balances')
  ∧ (wallet ∉ wallets →
     update_wallet symbol wallet f (initSymbol symbol balances)
     = Thrown TypeError).
Proof.
  unfold update_wallet, wallets.
  assert (∃ b, initSymbol symbol balances !! symbol = Some b) as [b ->].
  { unfold initSymbol. destruct (balances !! symbol) eqn:Hs; [by eauto |].
    rewrite lookup_insert_eq. by eauto. }
  split.
  - intros Hin.
    repeat (apply elem_of_cons in Hin as [-> | Hin]);
      [.. | by apply elem_of_nil in Hin];
      repeat case_bool_decide; try done; eauto.
  - intros Hnin. repeat case_bool_decide; subst; try done;
      exfalso; apply Hnin; set_solver.
Qed.

Lemma update_wallet_throws (symbol wallet : string)
  (f : WalletEntry → WalletEntry) (balances : gmap string WalletBalance)
  (e : exn) :
  update_wallet symbol wallet f balances = Thrown e → e = TypeError.
Proof.
  unfold update_wallet. destruct (balances !! symbol); [| by intros [= <-]].
  repeat case_bool_decide; try discriminate. by intros [= <-].
Qed.

Lemma margin_on_orders_initSymbol (symbol : string)
  (balances : gmap string WalletBalance) :
  (∀ s b, balances !! s = Some b → on_orders (margin b) = 0%float) →
  ∀ s b, initSymbol symbol balances !! s = Some b →
    on_orders (margin b) = 0%float.
Proof.
  intros Hall s b. unfold initSymbol.
  destruct (balances !! symbol) eqn:Hs; [apply Hall |].
  rewrite lookup_insert. case_decide; [by intros [= <-] | apply Hall].
Qed.

Lemma margin_on_orders_update_wallet (symbol wallet : string)
  (f : WalletEntry → WalletEntry) (balances balances' : gmap string WalletBalance) :
  (wallet = "margin" → ∀ e, on_orders (f e) = on_orders e) →
  (∀ s b, balances !! s = Some b → on_orders (margin b) = 0%float) →
  update_wallet symbol wallet f balances = Returned balances' →
  ∀ s b, balances' !! s = Some b → on_orders (margin b) = 0%float.
Proof.
  intros Hf Hall. unfold update_wallet.
  destruct (balances !! symbol) as [b0|] eqn:Hs; [| discriminate].
  pose proof (Hall _ _ Hs) as H0.
  repeat case_bool_decide; intros [= <-]; intros s b;
    rewrite lookup_insert; case_decide;
    try apply Hall; intros [= <-]; simpl; try done.
  by rewrite Hf.
Qed.

Section WalletFacts.
Context `{Runtime} `{BaseExchange}.

(** [fetchWalletBalance] never counts an amount on orders for the margin
    wallet: in what it returns, the margin wallet of every asset has
    [on_orders = 0]. *)
Theorem fetchWalletBalance_margin_on_orders
  (availableResponse : outcome (table (table json)))
  (completeResponse : outcome (table RawBalance))
  (openLoansResponse : outcome (table (list RawOffer)))
  (activeLoansResponse : outcome ActiveLoansResponse)
  (result : gmap string WalletBalance) (symbol : string) (b : WalletBalance) :
  fetchWalletBalance availableResponse completeResponse
    openLoansResponse activeLoansResponse = Returned result →
  result !! symbol = Some b →
  on_orders (margin b) = 0%float.
Proof.
  unfold fetchWalletBalance. intros Hrun.
  apply bind_Returned in Hrun as (accumulated & Hacc & [= <-]).
  rewrite calc_totals_loop, foldl_alter_lookup by apply NoDup_object_keys.
  assert (Hall : ∀ s b, accumulated !! s = Some b →
                        on_orders (margin b) = 0%float).
  { unfold fetchWalletBalance_accumulate in Hacc.
    apply bind_Returned in Hacc as (available & _ & Hacc).
    apply bind_Returned in Hacc as (balances1 & Havailable & Hacc).
    apply bind_Returned in Hacc as (openOrdersBalances & _ & Hacc).
    apply bind_Returned in Hacc as (balances2 & Hcomplete & Hacc).
    apply bind_Returned in Hacc as (open_loans & _ & Hacc).
    apply bind_Returned in Hacc as (active_loans & _ & Hloans).
    set (P := λ balances : gmap string WalletBalance,
           ∀ s b, balances !! s = Some b → on_orders (margin b) = 0%float).
    assert (H1 : P balances1).
    { eapply (forEach_invariant P); [| | exact Havailable];
        [| by intros ? ?; rewrite lookup_empty].
      intros s [wallet symbols] s' Hs _ Hinner.
      eapply (forEach_invariant P); [| exact Hs | exact Hinner].
      intros s0 [sym value] s0' Hs0 _ Hstep.
      unfold P. refine (margin_on_orders_update_wallet _ _ _ _ _ _ _ Hstep);
        [done | by apply margin_on_orders_initSymbol]. }
    assert (H2 : P balances2).
    { eapply (forEach_invariant P); [| exact H1 | exact Hcomplete].
      intros s [sym balance] s' Hs _ Hstep.
      destruct (PrimFloat.eqb _ _); [by injection Hstep as <- |].
      unfold P. refine (margin_on_orders_update_wallet _ _ _ _ _ _ _ Hstep);
        [done | by apply margin_on_orders_initSymbol]. }
    eapply (forEach_invariant P); [| exact H2 | exact Hloans].
    intros s offer s' Hs _ Hstep.
    unfold P. refine (margin_on_orders_update_wallet _ _ _ _ _ _ _ Hstep);
      [done | by apply margin_on_orders_initSymbol]. }
  case_decide.
  - destruct (accumulated !! symbol) as [b0|] eqn:Hb; [| discriminate].
    intros [= <-]. simpl. by eapply Hall.
  - apply Hall.
Qed.

(** When its four requests return, [fetchWalletBalance] returns if every
    wallet of the available balances that holds an asset is one of
    ['exchange'], ['margin'], ['lending']; and whatever the other requests
    do, it throws a [TypeError] if one is not. *)
Theorem fetchWalletBalance_wallet_names (available : table (table json)) :
  (∀ (complete : table RawBalance) (openLoans : table (list RawOffer))
     (offers : list RawOffer),
     (∀ wallet symbols, (wallet, symbols) ∈ available → symbols ≠ [] →
        wallet ∈ wallets) →
     ∃ result,
       fetchWalletBalance (Returned available) (Returned complete)
         (Returned openLoans) (Returned {| provided := Some offers |})
       = Returned result)
  ∧ (∀ completeResponse openLoansResponse activeLoansResponse,
       (∃ wallet symbols, (wallet, symbols) ∈ available ∧ symbols ≠ []
          ∧ wallet ∉ wallets) →
       fetchWalletBalance (Returned available) completeResponse
         openLoansResponse activeLoansResponse
       = Thrown TypeError).
Proof.
  split.
  - intros complete openLoans offers Hnames.
    unfold fetchWalletBalance, fetchWalletBalance_accumulate. simpl.
    edestruct (forEach_returns
      (λ (balances : gmap string WalletBalance) '(wallet, symbols),
         forEach (λ balances '(symbol, value),
           update_wallet (commonCurrencyCode symbol) wallet
             (add_available (toNumber value))
             (initSymbol (commonCurrencyCode symbol) balances))
           balances symbols) available) as [balances1 H1].
    { intros s [wallet symbols] Hin.
      destruct (decide (symbols = [])) as [-> | Hsym]; [by simpl; eauto |].
      apply forEach_returns. intros s0 [symbol value] _.
      apply update_wallet_initSymbol. by eapply Hnames. }
    rewrite H1. simpl.
    edestruct (forEach_returns
      (λ (balances : gmap string WalletBalance) '(symbol, balance),
         if PrimFloat.eqb (Number (rb_onOrders balance)) 0
         then Returned balances
         else update_wallet (commonCurrencyCode symbol) "exchange"
                (add_on_orders (Number (rb_onOrders balance)))
                (initSymbol (commonCurrencyCode symbol) balances))
      complete) as [balances2 H2].
    { intros s [symbol balance] _. destruct (PrimFloat.eqb _ _); [by eauto |].
      apply update_wallet_initSymbol. unfold wallets. set_solver. }
    rewrite H2. simpl.
    match goal with |- context [forEach ?body balances2 ?loans] =>
      edestruct (forEach_returns body loans) as [balances3 H3];
        [| rewrite H3; simpl; by eauto]
    end.
    intros s offer _. apply update_wallet_initSymbol. unfold wallets. set_solver.
  - intros completeResponse openLoansResponse activeLoansResponse
      (wallet & symbols & Hin & Hsym & Hbad).
    unfold fetchWalletBalance, fetchWalletBalance_accumulate. simpl.
    rewrite (forEach_throws TypeError); [done | |].
    + intros s [w syms] e'. apply forEach_throws_only.
      intros s0 [symbol value] e0. apply update_wallet_throws.
    + exists (wallet, symbols). split; [done |]. intros s.
      destruct symbols as [|[symbol value] symbols]; [done |]. simpl.
      by rewrite (proj2 (update_wallet_initSymbol _ _ _ _) Hbad).
Qed.

End WalletFacts.

(** ** Errors, and loans *)

Lemma table_get_elem {V : Type} (t : table V) (k : string) (v : V) :
  table_get t k = Some v → (k, v) ∈ t.
Proof.
  induction t as [|[k' v'] t IH]; simpl; [done |].
  destruct (String.eqb_spec k' k) as [-> | _].
  - intros [= ->]. by apply elem_of_cons; left.
  - intros Hv. apply elem_of_cons. right. by apply IH.
Qed.

Lemma findBroadlyMatchedKey_is_key {V : Type} (broad : table V)
  (message key : string) :
  findBroadlyMatchedKey broad message = Some key →
  includes message key = true ∧ is_Some (table_get broad key).
Proof.
  induction broad as [|[k v] broad IH]; simpl; [done |].
  destruct (includes message k) eqn:Hk.
  - intros [= <-]. rewrite String.eqb_refl. by eauto.
  - intros [Hinc Hsome]%IH. split; [done |].
    destruct (String.eqb k key); by eauto.
Qed.

(** No key of the exact table is the name of an inherited member. *)
Lemma exceptions_exact_inherited (message : string) :
  message ∈ Object_prototype → table_get exceptions_exact message = None.
Proof.
  unfold Object_prototype. intros Hin.
  repeat (apply elem_of_cons in Hin as [-> | Hin]); try reflexivity.
  by apply elem_of_nil in Hin.
Qed.

(** [handleErrors] returns exactly when there is no response or the response
    has no ['error'] key; otherwise it throws.  What it throws is one of the
    error classes with the message of the response, unless the message is
    the name of a member that the exact table inherits from
    [Object.prototype]: [message in exact] holds for such a name too, and
    [new exact[message] (message)] is then a String object for
    ['constructor'] and the engine's [TypeError] for the other names. *)
Theorem handleErrors_throws_on_every_error (response : option ResponseBody) :
  (handleErrors response = Returned ()
   ↔ response = None ∨ ∃ r, response = Some r ∧ body_error r = None)
  ∧ (∀ e, handleErrors response = Thrown e →
       ∃ r message,
         response = Some r ∧ body_error r = Some message
         ∧ (message ∉ Object_prototype → ∃ kind, e = Raise kind message)
         ∧ (message = "constructor" → e = StringObject message)
         ∧ (message ∈ Object_prototype → message ≠ "constructor" →
            e = TypeError)).
Proof.
  destruct response as [[[message|]]|].
  - rewrite handleErrors_message.
    destruct (decide (message ∈ Object_prototype)) as [Hin | Hnot].
    + rewrite (exceptions_exact_inherited _ Hin).
      destruct (decide (message = "constructor")) as [-> | Hne].
      * split; [split; [done | intros [? | (r & [= <-] & ?)]; done] |].
        intros e [= <-]. eexists _, _. do 2 (split; [done |]).
        split; [done |]. split; [done |]. done.
      * rewrite bool_decide_false, bool_decide_true by done.
        split; [split; [done | intros [? | (r & [= <-] & ?)]; done] |].
        intros e [= <-]. eexists _, _. do 2 (split; [done |]).
        split; [done |]. split; done.
    + assert (Hne : message ≠ "constructor").
      { intros ->. apply Hnot. unfold Object_prototype. by apply elem_of_cons; left. }
      assert (∃ kind,
        match table_get exceptions_exact message with
        | Some kind => Thrown (Raise kind message)
        | None =>
            if bool_decide (message = "constructor")
            then Thrown (StringObject message)
            else if bool_decide (message ∈ Object_prototype)
            then Thrown TypeError
            else
              match findBroadlyMatchedKey exceptions_broad message with
              | Some key =>
                  match table_get exceptions_broad key with
                  | Some kind => Thrown (Raise kind message)
                  | None => Thrown TypeError
                  end
              | None => Thrown (Raise ExchangeError message)
              end
        end = @Thrown unit (Raise kind message)) as [kind Hk].
      { destruct (table_get exceptions_exact message); [by eauto |].
        rewrite !bool_decide_false by done.
        destruct (findBroadlyMatchedKey exceptions_broad message) as [key|] eqn:Hb;
          [| by eauto].
        apply findBroadlyMatchedKey_is_key in Hb as [_ [kind ->]]. by eauto. }
      rewrite Hk.
      split; [split; [done | intros [? | (r & [= <-] & ?)]; done] |].
      intros e [= <-]. eexists _, _. do 2 (split; [done |]).
      split; [by eauto |]. split; done.
  - split; [| done]. split; [| done]. intros _. right. by eauto.
  - split; [| done]. split; [| done]. by left.
Qed.

Section LoanFacts.
Context `{Runtime} `{BaseExchange}.

(** [fetchActiveLoans] returns one offer per offer of the answer's
    ['provided'] list, in the order of the list, and with a symbol only the
    offers of that symbol; it throws a [TypeError] when the answer has no
    ['provided'] key. *)
Theorem fetchActiveLoans_filters_by_symbol (response : ActiveLoansResponse) :
  (∀ offers, provided response = Some offers →
     fetchActiveLoans None (Returned response)
       = Returned (active_offer <$> offers)
     ∧ ∀ symbol,
         fetchActiveLoans (Some symbol) (Returned response)
         = Returned (filter (λ l, l_symbol l = Some symbol)
                       (active_offer <$> offers)))
  ∧ (provided response = None →
     ∀ symbol, fetchActiveLoans symbol (Returned response) = Thrown TypeError).
Proof.
  split; [| intros Hp symbol; unfold fetchActiveLoans;
            cbn [mbind outcome_bind]; by rewrite Hp].
  intros offers0 Hp.
  assert (Hgen : ∀ offers (symbol : option string) acc,
    foldl (λ result offer,
      if bool_decide (symbol = None)
         || bool_decide (commonCurrencyCode <$> rl_currency offer = symbol)
      then (result ++ [active_offer offer])%list else result) acc offers
    = (acc ++ filter (λ l, symbol = None ∨ l_symbol l = symbol)
                (active_offer <$> offers))%list).
  { intros offers symbol. induction offers as [|offer offers IH]; intros acc;
      cbn [foldl fmap list_fmap].
    - by rewrite app_nil_r.
    - rewrite IH, filter_cons. cbn [l_symbol active_offer].
      destruct (bool_decide (symbol = None)) eqn:H1,
        (bool_decide (commonCurrencyCode <$> rl_currency offer = symbol)) eqn:H2;
        cbn [orb].
      + apply bool_decide_eq_true in H1.
        rewrite decide_True by (by left). by rewrite <- app_assoc.
      + apply bool_decide_eq_true in H1.
        rewrite decide_True by (by left). by rewrite <- app_assoc.
      + apply bool_decide_eq_true in H2.
        rewrite decide_True by (by right). by rewrite <- app_assoc.
      + apply bool_decide_eq_false in H1, H2.
        rewrite decide_False; [done |]. by intros [? | ?].
    }
  assert (Hrun : ∀ symbol,
    fetchActiveLoans symbol (Returned response)
    = Returned (filter (λ l, symbol = None ∨ l_symbol l = symbol)
                  (active_offer <$> offers0))).
  { intros symbol. unfold fetchActiveLoans. cbn [mbind outcome_bind].
    rewrite Hp. cbn [mret outcome_ret]. f_equal. apply (Hgen offers0 symbol []). }
  split.
  - rewrite Hrun. f_equal. generalize (active_offer <$> offers0). intros ls.
    induction ls as [|l ls IH]; [done |].
    rewrite filter_cons, decide_True by (by left). by rewrite IH.
  - intros symbol. rewrite Hrun. f_equal.
    apply list_filter_iff. intros l. split; [| by right].
    by intros [? | ?].
Qed.

(** What [fetchOpenLoans] returns without a symbol is, key after key of the
    answer, what [parseOpenLoans] makes of the key's offers; with a symbol it
    is what [parseOpenLoans] makes of the offers under the currency id of
    the symbol, and nothing when the answer has no such key.  Every offer
    bears the code of the key it was found under. *)
Theorem fetchOpenLoans_by_currency (response : table (list RawOffer)) :
  fetchOpenLoans None (Returned response)
    = Returned (mjoin ((λ '(currencyId, offers),
                          parseOpenLoans currencyId offers) <$> response))
  ∧ (∀ symbol,
       fetchOpenLoans (Some symbol) (Returned response)
       = Returned (match table_get response (key_of (currencyId (Some symbol))) with
                   | Some offers =>
                       parseOpenLoans (key_of (currencyId (Some symbol))) offers
                   | None => []
                   end))
  ∧ (∀ symbol loans loan,
       fetchOpenLoans symbol (Returned response) = Returned loans →
       loan ∈ loans →
       ∃ currencyId offers,
         (currencyId, offers) ∈ response
         ∧ l_symbol loan = Some (commonCurrencyCode currencyId)).
Proof.
  assert (Hall : fetchOpenLoans None (Returned response)
    = Returned (mjoin ((λ '(currencyId, offers),
                          parseOpenLoans currencyId offers) <$> response))).
  { unfold fetchOpenLoans. simpl. f_equal.
    enough (Hgen : ∀ acc,
      foldl (λ offers '(currencyId, symbolOpenLoans),
               (offers ++ parseOpenLoans currencyId symbolOpenLoans)%list)
        acc response
      = (acc ++ mjoin ((λ '(currencyId, offers),
                          parseOpenLoans currencyId offers) <$> response))%list)
      by apply (Hgen []).
    induction response as [|[k v] response IH]; intros acc; simpl.
    - by rewrite app_nil_r.
    - by rewrite IH, <- app_assoc. }
  assert (Hone : ∀ symbol,
    fetchOpenLoans (Some symbol) (Returned response)
    = Returned (match table_get response (key_of (currencyId (Some symbol))) with
                | Some offers =>
                    parseOpenLoans (key_of (currencyId (Some symbol))) offers
                | None => []
                end)).
  { intros symbol. unfold fetchOpenLoans. simpl.
    by destruct (table_get response _). }
  assert (Hparse : ∀ k v loan, loan ∈ parseOpenLoans k v →
                               l_symbol loan = Some (commonCurrencyCode k)).
  { intros k v loan. unfold parseOpenLoans.
    by intros (offer & -> & _)%list_elem_of_fmap. }
  split; [done |]. split; [done |].
  intros [symbol|] loans loan.
  - rewrite Hone. intros [= <-].
    destruct (table_get response _) as [offers|] eqn:Hget;
      [| by intros ?%elem_of_nil].
    intros Hl%Hparse. apply table_get_elem in Hget. by eauto.
  - rewrite Hall. intros [= <-].
    intros (l' & Hin & ([k v] & -> & Hkv)%list_elem_of_fmap)%list_elem_of_join.
    apply Hparse in Hin. by eauto.
Qed.

End LoanFacts.

(** ** Fees of trades, accounts, the loan book *)

Lemma mul_nan_r (x : float) : PrimFloat.mul x nan = nan.
Proof.
  apply Prim2SF_inj. rewrite mul_spec.
  replace (Prim2SF nan) with S754_nan by (vm_compute; reflexivity).
  unfold SF64mul. by destruct (Prim2SF x).
Qed.

Section TradeFacts.
Context `{Runtime} `{BaseExchange}.
Context (M : Markets).

(** A ['buy'] or ['sell'] trade whose payload has no ['fee'] that
    [safeFloat] reads as a number is parsed with the fee [NaN]. *)
Theorem parseTrade_fee_is_NaN_without_a_rate (trade : RawTrade)
  (market : option Market) :
  safeFloat (rt_fee trade) = None →
  safeString (rt_type trade) = Some "buy"
  ∨ safeString (rt_type trade) = Some "sell" →
  t_fee (parseTrade M trade market) = nan.
Proof.
  intros Hfee Hside. unfold parseTrade.
  destruct (match market, rt_currencyPair trade with
            | None, Some currencyPair => _
            | _, _ => _
            end) as [market' symbol]. simpl. rewrite Hfee.
  unfold js_mul. simpl.
  destruct Hside as [-> | ->]; simpl; apply mul_nan_r.
Qed.

End TradeFacts.

Section BalanceKeyFacts.
Context `{Runtime} `{BaseExchange}.

(** Every currency of the answer has an account in what [fetchBalance]
    builds, under its code; when several currencies of the answer have the
    same code, the account is that of the last of them, the others being
    overwritten, not added. *)
Theorem fetchBalance_last_currency_wins (before after : table RawBalance)
  (currencyId : string) (balance : RawBalance) :
  (∀ id b, (id, b) ∈ after →
     commonCurrencyCode id ≠ commonCurrencyCode currencyId) →
  fetchBalance_accounts (before ++ (currencyId, balance) :: after)%list
    !! commonCurrencyCode currencyId
  = Some {| acc_free := safeFloat (rb_available balance);
            acc_used := safeFloat (rb_onOrders balance);
            acc_total := sum (safeFloat (rb_available balance))
                             (safeFloat (rb_onOrders balance)) |}.
Proof.
  unfold fetchBalance_accounts. rewrite foldl_app. simpl.
  match goal with
  | |- context [foldl ?f ∅ before] => generalize (foldl f ∅ before)
  end. intros m.
  induction after as [|[id b] after IH] using rev_ind; intros Hafter.
  - simpl. apply lookup_insert_eq.
  - rewrite foldl_app. simpl. rewrite lookup_insert_ne.
    + apply IH. intros id' b' Hin. apply (Hafter id' b'). apply elem_of_app. by left.
    + apply (Hafter id b). apply elem_of_app. right.
      by apply list_elem_of_singleton.
Qed.

End BalanceKeyFacts.

Section LoanBookFacts.
Context `{Runtime} `{BaseExchange}.

(** [fetchLoanBook] returns the first [count] offers of the answer, in the
    order of the answer, all of them when there are fewer, and none when
    [count] is not positive or the answer has no ['offers'] key. *)
Theorem fetchLoanBook_takes_the_first (symbol : option string) (count : Z)
  (response : LoanOrdersResponse) :
  fetchLoanBook symbol count (Returned response)
  = Returned
      (take (Z.to_nat count)
         ((λ offer, {| lb_rate := Number (rl_rate offer);
                       lb_amount := Number (rl_amount offer) |})
          <$> default [] (lo_offers response))).
Proof.
  unfold fetchLoanBook. simpl.
  destruct (lo_offers response) as [raw|]; simpl; [| by rewrite take_nil].
  f_equal.
  enough (Hgen : ∀ acc,
    foldl (λ offers offer,
      if (count <=? Z.of_nat (List.length offers))%Z then offers
      else (offers ++ [ {| lb_rate := Number (rl_rate offer);
                           lb_amount := Number (rl_amount offer) |} ])%list)
      acc raw
    = (acc ++ take (Z.to_nat count - List.length acc)
         ((λ offer, {| lb_rate := Number (rl_rate offer);
                       lb_amount := Number (rl_amount offer) |}) <$> raw))%list).
  { rewrite (Hgen []). simpl. by rewrite Nat.sub_0_r. }
  induction raw as [|offer raw IH]; intros acc; simpl.
  - by rewrite take_nil, app_nil_r.
  - rewrite IH. destruct (Z.leb_spec count (Z.of_nat (List.length acc))) as [Hle|Hgt].
    + replace (Z.to_nat count - List.length acc)%nat with 0%nat by lia. done.
    + rewrite List.length_app. simpl.
      replace (Z.to_nat count - List.length acc)%nat
        with (S (Z.to_nat count - (List.length acc + 1)))%nat by lia.
      simpl. by rewrite <- app_assoc.
Qed.

End LoanBookFacts.

(** ** Closed orders *)

(** A loop that appends what it makes of each element returns one result
    per element, in order. *)
Lemma forEach_push {A B : Type} (f : A → outcome B) (xs : list A)
  (acc out : list B) :
  forEach (λ acc x, y ← f x; mret (acc ++ [y])%list) acc xs = Returned out →
  ∃ ys, out = (acc ++ ys)%list ∧ Forall2 (λ x y, f x = Returned y) xs ys.
Proof.
  revert acc. induction xs as [|x xs IH]; intros acc; simpl.
  - intros [= <-]. exists []. by rewrite app_nil_r.
  - intros (acc1 & (y & Hy & [= <-])%bind_Returned & Hrest)%bind_Returned.
    apply IH in Hrest as (ys & -> & Hys). exists (y :: ys).
    split; [by rewrite <- app_assoc | by constructor].
Qed.

Section ClosedOrdersFacts.
Context `{Runtime} `{BaseExchange}.
Context (M : Markets).

(** What [parseClosedOrdersTrades] holds for an order number is what the
    trades that bear it add up to. *)
Lemma parseClosedOrdersTrades_lookup (symbol : string)
  (trades : list RawTrade) (key : string) :
  parseClosedOrdersTrades symbol trades !! key
  = closed_order_of symbol (filter (λ trade, trade_order_key trade = key) trades).
Proof.
  unfold parseClosedOrdersTrades.
  induction trades as [|trade trades IH] using rev_ind; [done |].
  rewrite foldl_app, filter_app. cbn [foldl].
  set (orders := foldl _ ∅ trades) in *. clearbody orders.
  fold (trade_order_key trade).
  rewrite filter_cons, filter_nil.
  destruct (decide (trade_order_key trade = key)) as [Hkey | Hkey].
  - rewrite Hkey. rewrite IH.
    destruct (filter (λ trade0, trade_order_key trade0 = key) trades)
      as [|first mine] eqn:Hmine; cbn [closed_order_of].
    + match goal with |- context [<[key := ?v]> orders !! key] =>
        rewrite (lookup_insert_eq orders key v) end.
      cbv beta iota. rewrite (lookup_insert_eq _ key). reflexivity.
    + cbv beta iota. rewrite IH. cbn [closed_order_of]. cbv beta iota.
      rewrite (lookup_insert_eq _ key).
      cbn [app closed_order_of add_trade].
      cbn [co_orderNumber co_date co_currencyPair co_status co_type co_rate
           co_total co_startingAmount co_resultingTrades co_fee].
      by rewrite !(foldl_app _ (first :: mine) [trade]).
  - rewrite app_nil_r, <- IH.
    destruct (orders !! trade_order_key trade) as [order|] eqn:Horder.
    + cbv beta iota. rewrite Horder. cbv beta iota.
      by rewrite lookup_insert_ne.
    + match goal with |- context [<[?k := ?v]> orders !! ?k] =>
        rewrite (lookup_insert_eq orders k v) end.
      cbv beta iota. by rewrite !lookup_insert_ne.
Qed.

(** [parseClosedOrdersTrades] groups the trades by order number: the entry
    of an order number is made of the trades that bear it and of no other,
    in the order of the list; it has the pair asked for, the status
    ['closed'], the order number, date, type and rate of the first of these
    trades, and for total and starting amount the sums of theirs.  An order
    number that no trade bears has no entry. *)
Theorem parseClosedOrdersTrades_groups_by_order (symbol : string)
  (trades : list RawTrade) (key : string) :
  let mine := filter (λ trade, trade_order_key trade = key) trades in
  match parseClosedOrdersTrades symbol trades !! key with
  | None => mine = []
  | Some order =>
      co_resultingTrades order = mine
      ∧ co_currencyPair order = symbol
      ∧ co_status order = "closed"
      ∧ co_total order
        = foldl (λ total trade, PrimFloat.add total (Number (rt_total trade)))
            0%float mine
      ∧ co_startingAmount order
        = foldl (λ total trade, PrimFloat.add total (Number (rt_amount trade)))
            0%float mine
      ∧ ∃ first,
          head mine = Some first
          ∧ co_orderNumber order = rt_orderNumber first
          ∧ co_date order = rt_date first
          ∧ co_type order = rt_type first
          ∧ co_rate order = Number (rt_rate first)
  end.
Proof.
  simpl. rewrite parseClosedOrdersTrades_lookup.
  destruct (filter (λ trade, trade_order_key trade = key) trades)
    as [|first mine]; [done |].
  cbn [closed_order_of]. do 5 (split; [done |]). by exists first.
Qed.

Lemma parseOrder_amounts (order : RawOrder) (market : option Market)
  (o : Order) :
  parseOrder M order market = Returned o →
  o_remaining o = safeFloat (ro_amount order)
  ∧ o_amount o
    = safeFloat_or (ro_startingAmount order) (safeFloat (ro_amount order)).
Proof.
  unfold parseOrder. intros Hp.
  repeat match type of Hp with
  | context [let '(_, _) := ?x in _] => destruct x
  end.
  apply bind_Returned in Hp as (price' & _ & Hp).
  apply bind_Returned in Hp as (cost' & _ & Hp).
  apply bind_Returned in Hp as (fee' & _ & Hp).
  by injection Hp as <-.
Qed.

(** The closed orders that [fetchClosedOrders] hands to
    [filterBySinceLimit]: one per order number of the trade history, each
    with status ['closed'] and no remaining amount. *)
Theorem fetchClosedOrders_one_per_order (symbol : string)
  (since limit : option float) (response : outcome (list RawTrade))
  (result : list Order) :
  fetchClosedOrders M symbol since limit response = Returned result →
  ∃ m trades parsed,
    market M symbol = Returned m
    ∧ response = Returned trades
    ∧ result = filterBySinceLimit_orders parsed since limit
    ∧ List.length parsed = size (parseClosedOrdersTrades (market_id m) trades)
    ∧ Forall (λ o, o_status o = Some "closed" ∧ o_remaining o = None) parsed.
Proof.
  unfold fetchClosedOrders.
  intros (m & Hm & Hrun)%bind_Returned.
  apply bind_Returned in Hrun as (trades & -> & Hrun).
  apply bind_Returned in Hrun as (parsed & Hloop & [= <-]).
  apply forEach_push in Hloop as (ys & -> & Hys).
  exists m, trades, ys. do 3 (split; [done |]). split.
  - apply Forall2_length in Hys. rewrite <- Hys.
    by rewrite length_fmap, length_map_to_list.
  - simpl. apply Forall_forall. intros o Ho.
    apply list_elem_of_lookup in Ho as [i Ho].
    destruct (Forall2_lookup_r _ _ _ _ _ Hys Ho) as (order & Horder & Hp).
    apply list_elem_of_lookup_2, list_elem_of_fmap in Horder
      as ([k order'] & -> & Hin).
    apply elem_of_map_to_list in Hin. simpl in Hp.
    rewrite parseClosedOrdersTrades_lookup in Hin.
    assert (co_status order' = "closed") as Hst.
    { unfold closed_order_of in Hin.
      destruct (filter _ trades); [done |]. by injection Hin as <-. }
    pose proof Hp as [_ Hstatus]%parseOrder_id_status.
    apply parseOrder_amounts in Hp as [Hrem _].
    simpl in Hstatus, Hrem. rewrite Hst in Hstatus. done.
Qed.

End ClosedOrdersFacts.

(** ** Deposits and withdrawals *)

Lemma sub_nan_l (x : float) : PrimFloat.sub nan x = nan.
Proof.
  apply Prim2SF_inj. rewrite sub_spec.
  replace (Prim2SF nan) with S754_nan by (vm_compute; reflexivity).
  reflexivity.
Qed.





Section TransactionFacts.
Context `{Runtime} `{BaseExchange}.
Context (currencies_by_id : gmap string Currency).


(** The fee of a transaction is the payload's ['fee'], [0] when it has none;
    the amount of a withdrawal is the payload's amount less that fee, [NaN]
    when the payload has no amount; the amount of any other transaction is
    the payload's amount as it is.  The fee is in the currency of the
    transaction. *)
Theorem parseTransaction_withdrawal_less_fee (transaction : RawTransaction) :
  let parsed := parseTransaction currencies_by_id transaction in
  let fee := default 0%float (safeFloat (rx_fee transaction)) in
  x_fee_cost parsed = fee
  ∧ x_fee_currency parsed = x_currency parsed
  ∧ (safeString (rx_type transaction) = Some "withdrawal" →
     (∀ amount, safeFloat (rx_amount transaction) = Some amount →
        x_amount parsed = Some (PrimFloat.sub amount fee))
     ∧ (safeFloat (rx_amount transaction) = None →
        x_amount parsed = Some nan))
  ∧ (safeString (rx_type transaction) ≠ Some "withdrawal" →
     x_amount parsed = safeFloat (rx_amount transaction)).
Proof.
  unfold parseTransaction.
  destruct (match safeString_or (rx_status transaction) (Some "pending") with
            | Some s => _
            | None => _
            end) as [status txid].
  cbn [x_fee_cost x_fee_currency x_currency x_amount].
  split; [done |]. split; [done |]. split.
  - intros ->. rewrite bool_decide_true by done. split.
    + by intros amount ->.
    + intros ->. unfold js_sub. simpl. by rewrite sub_nan_l.
  - intros Hne. by rewrite bool_decide_false.
Qed.

End TransactionFacts.

(** ** Fees *)

Section FeeFacts.
Context `{Runtime} `{BaseExchange}.
Context (M : Markets).
Context (market_rate : Market → string → option float).

(** The fee that [calculateFee] quotes is in the quote currency of the
    market for a ['sell'] and in its base currency for any other side; the
    price plays a part for a ['sell'] only; and a symbol that the markets do
    not list makes the call throw a [TypeError]. *)
Theorem calculateFee_side_decides (symbol type side : string)
  (amount : float) (takerOrMaker : string) :
  (side ≠ "sell" → ∀ price price',
     calculateFee M market_rate symbol type side amount price takerOrMaker
     = calculateFee M market_rate symbol type side amount price' takerOrMaker)
  ∧ (∀ price fee,
       calculateFee M market_rate symbol type side amount price takerOrMaker
         = Returned fee →
       ∃ market,
         markets M !! symbol = Some market
         ∧ fq_currency fee = (if bool_decide (side = "sell")
                              then market_quote market else market_base market)
         ∧ fq_rate fee = market_rate market takerOrMaker
         ∧ fq_type fee = takerOrMaker)
  ∧ (markets M !! symbol = None → ∀ price,
       calculateFee M market_rate symbol type side amount price takerOrMaker
       = Thrown TypeError).
Proof.
  unfold calculateFee. split; [| split].
  - intros Hside price price'. by rewrite bool_decide_false.
  - intros price fee. destruct (markets M !! symbol) as [market|]; [| done].
    intros (rounded & _ & Hrun)%bind_Returned. exists market. split; [done |].
    destruct (bool_decide (side = "sell"));
      apply bind_Returned in Hrun as (rounded' & _ & [= <-]); done.
  - by intros ->.
Qed.

End FeeFacts.

(** ** Closed examples: witnesses and counterexamples *)

#[local] Existing Instance example_runtime.
#[local] Existing Instance example_base.

(** C1, as stated, fails: a canceled order that the exchange still lists as
    open is open again after [fetchOrders]. *)
Lemma fetchOrders_reopens_listed_order :
  let cache : gmap string Order :=
    {[ "1" := example_order "1" "canceled" 10 2 ]} in
  let response :=
    Returned (OrdersByMarket [("BTC_ETH", [example_open_order "1" "sell" 2 10])]) in
  o_status <$> cache !! "1" = Some (Some "canceled")
  ∧ o_status <$> (fetchOrders example_markets None None None response cache).1 !! "1"
    = Some (Some "open").
Proof. split; vm_compute; reflexivity. Qed.

Lemma fetchOrders_terminal_unless_listed_witness :
  let cache : gmap string Order :=
    {[ "1" := example_order "1" "canceled" 10 2 ]} in
  let listed := example_open_order "1" "sell" 2 10 in
  (fetchOrders example_markets None None None (Returned (OrdersByMarket [])) cache).1
    !! "1" = Some (example_order "1" "canceled" 10 2)
  ∧ (fetchOrders example_markets None None None (Thrown TypeError) cache).1
    = cache
  ∧ ∃ o', parseOrder example_markets (listed_as_open listed)
            (markets_by_id example_markets !! "BTC_ETH") = Returned o'
          ∧ (fetchOrders example_markets None None None
               (Returned (OrdersByMarket [("BTC_ETH", [listed])])) cache).1
            !! "1" = Some o'
          ∧ o_status o' = Some "open".
Proof.
  intros cache listed. split; [| split].
  - apply (fetchOrders_terminal_unless_listed example_markets None None None
             (Returned (OrdersByMarket [])) cache "1"
             (example_order "1" "canceled" 10 2));
      [vm_compute; reflexivity | right; reflexivity |].
    intros r [= <-]. simpl. apply not_elem_of_nil.
  - apply (proj1 (proj2 (fetchOrders_terminal_unless_listed example_markets
             None None None (Thrown TypeError) cache "1"
             (example_order "1" "canceled" 10 2)
             ltac:(vm_compute; reflexivity) (or_intror eq_refl)))
           TypeError).
    reflexivity.
  - assert (∃ result,
      (fetchOrders example_markets None None None
         (Returned (OrdersByMarket [("BTC_ETH", [listed])])) cache).2
      = Returned result) as [result Hresult]
      by (vm_compute; eexists; reflexivity).
    destruct (proj2 (proj2 (fetchOrders_terminal_unless_listed example_markets
                None None None
                (Returned (OrdersByMarket [("BTC_ETH", [listed])])) cache "1"
                (example_order "1" "canceled" 10 2)
                ltac:(vm_compute; reflexivity) (or_intror eq_refl)))
              (OrdersByMarket [("BTC_ETH", [listed])])
              (fetchOrders example_markets None None None
                 (Returned (OrdersByMarket [("BTC_ETH", [listed])])) cache).1
              result eq_refl)
      as (market & i & entry & o' & _ & Hentry & _ & _ & Hparse & Hcache & Hopen).
    + rewrite <- Hresult. apply surjective_pairing.
    + vm_compute. apply list_elem_of_here.
    + destruct i as [|i]; [| by destruct i].
      injection Hentry as <-. by exists o'.
Defined.

Lemma fetchOrders_closes_unlisted_open_order_witness :
  let cache : gmap string Order :=
    {[ "1" := example_order "1" "open" 10 2 ]} in
  ∃ o', (fetchOrders example_markets (Some "ETH/BTC") None None
           (Returned (OrdersOfMarket [example_open_order "2" "buy" 3 4])) cache).1
          !! "1" = Some o'
    ∧ o_status o' = Some "closed"
    ∧ o_filled o' = Some 10%float
    ∧ o_remaining o' = Some 0%float
    ∧ o_cost o' = Some 20%float.
Proof.
  intros cache.
  assert (∃ result,
    (fetchOrders example_markets (Some "ETH/BTC") None None
       (Returned (OrdersOfMarket [example_open_order "2" "buy" 3 4])) cache).2
    = Returned result) as [result Hresult]
    by (vm_compute; eexists; reflexivity).
  destruct (proj1 (fetchOrders_closes_unlisted_open_order example_markets)
    (Some "ETH/BTC") None None
    (OrdersOfMarket [example_open_order "2" "buy" 3 4]) cache
    (fetchOrders example_markets (Some "ETH/BTC") None None
       (Returned (OrdersOfMarket [example_open_order "2" "buy" 3 4])) cache).1
    result "1" (example_order "1" "open" 10 2))
    as (o' & Ho' & Hst & Hfilled & Hrem & Hcost & Hclosed).
  - rewrite <- Hresult. apply surjective_pairing.
  - vm_compute. reflexivity.
  - reflexivity.
  - vm_compute. intros Hin. inversion Hin as [|? ? ? Hin']. inversion Hin'.
  - exists o'. repeat split; try assumption.
    rewrite (Hcost 10%float eq_refl), Hclosed. reflexivity.
Defined.

Lemma cancelOrder_CancelPending_marks_canceled_witness :
  let cache : gmap string Order := {[ "1" := example_order "1" "open" 10 2 ]} in
  let second :=
    cancelOrder (R := unit) "1"
      (Thrown (Raise CancelPending
         "You have already called cancelOrder or moveOrder on this order."))
      (cancelOrder "1" (Returned ()) cache).1 in
  second.2 = Thrown (Raise CancelPending
    "You have already called cancelOrder or moveOrder on this order.")
  ∧ o_status <$> second.1 !! "1" = Some (Some "canceled").
Proof.
  intros cache.
  apply (proj2 (cancelOrder_CancelPending_marks_canceled (R := unit))
    (Returned ()) _ cache (example_order "1" "open" 10 2)).
  vm_compute. reflexivity.
Defined.

Lemma createOrder_market_is_limit_witness :
  ∃ order,
    createOrder example_markets "ETH/BTC" "market" "buy" 10 (Some 2%float)
      (Returned (example_created "7")) 1000 ∅
    = ({[ "7" := order ]}, Returned order)
    ∧ o_id order = Some "7"
    ∧ o_type order = Some "limit"
    ∧ o_side order = Some "buy"
    ∧ o_status order = Some "open".
Proof.
  assert (∃ order,
    parseOrder example_markets (extend_raw
      {| ro_timestamp := Some (JNum 1000);
         ro_date := None; ro_resultingTrades := None;
         ro_currencyPair := None;
         ro_price := JNum <$> Some 2%float;
         ro_rate := None;
         ro_amount := Some (JNum 10);
         ro_startingAmount := None;
         ro_status := Some (JStr "open");
         ro_type := Some (JStr "limit");
         ro_side := Some (JStr "buy");
         ro_orderNumber := None |} (example_created "7")) (Some example_market)
    = Returned order) as [order Hparse]
    by (vm_compute; eexists; reflexivity).
  pose proof (proj1 (proj2 (proj2 (createOrder_market_is_limit example_markets)))
    "ETH/BTC" "buy" 10%float (Some 2%float) (example_created "7") 1000%float ∅
    example_market (JNum 2) (JNum 10) order
    ltac:(vm_compute; reflexivity) eq_refl eq_refl
    ltac:(vm_compute; reflexivity) Hparse) as Hrun.
  destruct (proj1 (proj2 (proj2 (proj2 (createOrder_market_is_limit example_markets))))
    "ETH/BTC" "buy" 10%float (Some 2%float) (Returned (example_created "7"))
    1000%float ∅ _ order Hrun)
    as (m & r & _ & _ & [= <-] & _ & _ & _ & Hid & Hlimit & Hopen).
  destruct (Hlimit eq_refl eq_refl) as [Htype Hside].
  exists order. rewrite Hrun.
  replace (key_of (o_id order)) with "7" by (rewrite Hid; reflexivity).
  split; [reflexivity |]. split; [exact Hid |].
  split; [exact Htype |]. split; [exact Hside | exact (Hopen eq_refl)].
Defined.

(** C6, as stated, fails: the trade that [parseTrade] makes of a buy (10 at
    the rate 2, fee rate 0.25) has the number 2.5 for its fee, which names
    no asset, and no ['filled'] key, so that [filled <= amount] compares
    [undefined] with 10 and is false. *)
Lemma parseTrade_has_no_filled :
  let t := parseTrade example_markets
             (example_trade (Some "BTC_ETH") "buy" 2 10 20 0.25) None in
  t_side t = Some "buy"
  ∧ trade_number t "fee" = Some 2.5%float
  ∧ trade_number t "amount" = Some 10%float
  ∧ trade_number t "filled" = None
  ∧ js_le (trade_number t "filled") (trade_number t "amount") = false.
Proof. repeat split; vm_compute; reflexivity. Qed.

Lemma parseTrade_fee_witness :
  let t := parseTrade example_markets
             (example_trade (Some "BTC_ETH") "sell" 2 10 20 0.25) None in
  t_fee t = 5%float ∧ t_cost t = Some 20%float.
Proof.
  intros t. subst t. split.
  - rewrite (proj1 (proj2 (parseTrade_fee example_markets
       (example_trade (Some "BTC_ETH") "sell" 2 10 20 0.25) None)));
      [vm_compute; reflexivity | reflexivity].
  - reflexivity.
Defined.

Lemma fetchWalletBalance_total_witness :
  let call :=
    fetchWalletBalance
      (Returned [("exchange", [("BTC", JNum 1); ("STR", JNum 5)]);
                 ("lending", [("BTC", JNum 2)])])
      (Returned [("BTC", {| rb_available := Some (JNum 1);
                            rb_onOrders := Some (JNum 0.5) |})])
      (Returned [("BTC", [ {| rl_id := None; rl_currency := None;
                              rl_rate := None; rl_amount := Some (JNum 3);
                              rl_duration := None; rl_date := None |} ])])
      (Returned {| provided := Some [] |}) in
  (λ result : gmap string WalletBalance, result !! "BTC") <$> call
    = Returned (Some
        {| exchange := {| available := 1; on_orders := 0.5; total := 1.5 |};
           margin := {| available := 0; on_orders := 0; total := 0 |};
           lending := {| available := 2; on_orders := 3; total := 5 |} |})
  ∧ ∃ result,
      call = Returned result
      ∧ all_entries (λ e, total e = PrimFloat.add (available e) (on_orders e))
          result.
Proof.
  intros call. split; [vm_compute; reflexivity |].
  assert (∃ result, call = Returned result) as [result Hresult]
    by (vm_compute; eexists; reflexivity).
  exists result. split; [exact Hresult |].
  exact (proj1 (fetchWalletBalance_total _ _ _ _ result Hresult)).
Defined.

Lemma fetchBalance_total_witness :
  let response :=
    [("STR", {| rb_available := Some (JNum 1.5); rb_onOrders := Some (JNum 0.25) |})] in
  ∃ account,
    fetchBalance_accounts response !! "XLM" = Some account
    ∧ acc_free account = Some 1.5%float
    ∧ acc_used account = Some 0.25%float
    ∧ acc_total account = Some 1.75%float.
Proof.
  intros response.
  set (account := {| acc_free := Some 1.5%float; acc_used := Some 0.25%float;
                     acc_total := Some 1.75%float |}).
  assert (Hlookup : fetchBalance_accounts response !! "XLM" = Some account)
    by (vm_compute; reflexivity).
  destruct (proj2 (fetchBalance_total response) "XLM" account Hlookup)
    as (_ & _ & Htotal).
  exists account. split; [exact Hlookup |]. split; [reflexivity |].
  split; [reflexivity |].
  exact (Htotal 1.5%float 0.25%float eq_refl eq_refl).
Defined.

Lemma revision_parseTrade_fee_witness :
  ∃ t fee,
    Revision.parseTrade example_markets
      (example_trade (Some "BTC_ETH") "buy" 2 10 20 0.25) None = Returned t
    ∧ Revision.t_fee t = Some fee
    ∧ Revision.f_currency fee = Some "ETH"
    ∧ Revision.t_filled t = Some 7.5%float.
Proof.
  assert (∃ t, Revision.parseTrade example_markets
      (example_trade (Some "BTC_ETH") "buy" 2 10 20 0.25) None = Returned t
      ∧ Revision.t_side t = Some "buy"
      ∧ Revision.f_amount <$> Revision.t_fee t = Some (JNum 2.5)
      ∧ Revision.t_amount t = Some 10%float)
    as (t & Ht & Hside & Hamount & Ha)
    by (vm_compute; eexists; repeat split; reflexivity).
  destruct (revision_parseTrade_fee example_markets _ None t Ht)
    as (fee & Hfee & Hbuy & _); [by eexists |].
  destruct (Hbuy Hside) as (Hcurrency & Hfilled & _).
  exists t, fee. split; [exact Ht |]. split; [exact Hfee |].
  split; [rewrite Hcurrency; reflexivity |].
  rewrite Hfilled, Ha. rewrite Hfee in Hamount. injection Hamount as ->.
  reflexivity.
Defined.


Lemma fetchOrders_keeps_every_id_witness :
  let cache : gmap string Order :=
    {[ "1" := example_order "1" "closed" 10 2 ]} in
  let response :=
    Returned (OrdersByMarket [("BTC_ETH", [example_open_order "2" "buy" 3 4])]) in
  is_Some ((fetchOrders example_markets None None None response cache).1 !! "1")
  ∧ is_Some ((fetchOrders example_markets None None None response cache).1 !! "2").
Proof.
  intros cache response.
  assert (∃ result,
    (fetchOrders example_markets None None None response cache).2
    = Returned result) as [result Hresult]
    by (vm_compute; eexists; reflexivity).
  split.
  - apply (proj1 (fetchOrders_keeps_every_id example_markets None None None
                    response cache "1")).
    vm_compute. by eauto.
  - apply (proj2 (proj2 (fetchOrders_keeps_every_id example_markets None None
                           None response cache "2"))
             (OrdersByMarket [("BTC_ETH", [example_open_order "2" "buy" 3 4])])
             result eq_refl Hresult).
    vm_compute. apply list_elem_of_here.
Defined.

Lemma fetchOrders_returns_the_cache_witness :
  let cache : gmap string Order :=
    {[ "1" := example_order "1" "closed" 10 2 ]} in
  let call :=
    fetchOrders example_markets None None None
      (Returned (OrdersByMarket [("BTC_ETH", [example_open_order "2" "buy" 3 4])]))
      cache in
  ∃ result,
    call.2 = Returned result
    ∧ (∀ o, o ∈ result ↔ ∃ id, call.1 !! id = Some o)
    ∧ (List.length result ≤ 2)%nat.
Proof.
  intros cache call.
  assert (∃ result, call.2 = Returned result) as [result Hresult]
    by (vm_compute; eexists; reflexivity).
  destruct (fetchOrders_returns_the_cache example_markets None None None
              (Returned (OrdersByMarket
                 [("BTC_ETH", [example_open_order "2" "buy" 3 4])]))
              cache call.1 result) as (listed & Hlisted & Hin & Hlen).
  - rewrite <- Hresult. apply surjective_pairing.
  - exists result. split; [exact Hresult |].
    change (filterBySinceLimit_orders listed None None) with listed in Hlisted.
    subst listed. split.
    + intros o. rewrite Hin. split.
      * intros (id & Hid & _). by exists id.
      * intros (id & Hid). exists id. split; [exact Hid | by left].
    + exact Hlen.
Defined.

Lemma fetchOpenOrders_only_open_witness :
  let cache : gmap string Order :=
    {[ "1" := example_order "1" "closed" 10 2 ]} in
  let call :=
    fetchOpenOrders example_markets None None None
      (Returned (OrdersByMarket [("BTC_ETH", [example_open_order "2" "buy" 3 4])]))
      cache in
  ∃ orders,
    call.2 = Returned orders
    ∧ Forall (λ o, o_status o = Some "open") orders
    ∧ List.length orders = 1%nat.
Proof.
  intros cache call.
  assert (∃ orders, call.2 = Returned orders ∧ List.length orders = 1%nat)
    as (orders & Horders & Hlen)
    by (vm_compute; eexists; split; reflexivity).
  exists orders. split; [exact Horders |]. split; [| exact Hlen].
  refine (proj1 (fetchOpenOrders_only_open example_markets None None None
                   _ cache call.1 orders _)).
  rewrite <- Horders. apply surjective_pairing.
Defined.

Lemma fetchOrderStatus_follows_the_listing_witness :
  let cache : gmap string Order :=
    {[ "1" := example_order "1" "canceled" 10 2 ]} in
  let listing := OrdersByMarket [("BTC_ETH", [example_open_order "2" "buy" 3 4])] in
  (fetchOrderStatus example_markets "1" None (Returned listing) cache).2
    = Returned "closed"
  ∧ (fetchOrderStatus example_markets "2" None (Returned listing) cache).2
    = Returned "open".
Proof.
  intros cache listing.
  assert (∃ status,
    (fetchOrderStatus example_markets "1" None (Returned listing) cache).2
    = Returned status) as [status1 H1] by (vm_compute; eexists; reflexivity).
  assert (∃ status,
    (fetchOrderStatus example_markets "2" None (Returned listing) cache).2
    = Returned status) as [status2 H2] by (vm_compute; eexists; reflexivity).
  split.
  - rewrite H1. f_equal.
    refine (proj1 (fetchOrderStatus_follows_the_listing example_markets "1" None
      listing cache
      (fetchOrderStatus example_markets "1" None (Returned listing) cache).1
      status1 (λ _, eq_refl) _) _).
    + rewrite <- H1. apply surjective_pairing.
    + vm_compute. intros Hin. inversion Hin as [|? ? ? Hin']. inversion Hin'.
  - rewrite H2. f_equal.
    refine (proj2 (fetchOrderStatus_follows_the_listing example_markets "2" None
      listing cache
      (fetchOrderStatus example_markets "2" None (Returned listing) cache).1
      status2 (λ _, eq_refl) _) eq_refl _).
    + rewrite <- H2. apply surjective_pairing.
    + vm_compute. apply list_elem_of_here.
Defined.

Lemma cancelOrder_touches_one_status_witness :
  let cache : gmap string Order :=
    {[ "1" := example_order "1" "open" 10 2 ]} in
  (cancelOrder (R := unit) "1" (Thrown (Raise ExchangeNotAvailable "down"))
     cache).1 = cache
  ∧ (cancelOrder "1" (Returned ()) cache).1 !! "1"
    = Some (example_order "1" "canceled" 10 2).
Proof.
  intros cache. split.
  - apply (proj1 (proj2 (proj2 (proj2
      (cancelOrder_touches_one_status (R := unit) "1"
         (Thrown (Raise ExchangeNotAvailable "down")) cache))))
      (Raise ExchangeNotAvailable "down") eq_refl eq_refl).
  - rewrite (proj2 (proj2 (proj2 (proj2
      (cancelOrder_touches_one_status "1" (Returned ()) cache)))) () eq_refl).
    vm_compute. reflexivity.
Defined.

Lemma cancelAllOrders_marks_the_listed_witness :
  let cache : gmap string Order :=
    {[ "1" := example_order "1" "open" 10 2;
       "2" := example_order "2" "open" 5 3 ]} in
  let call :=
    cancelAllOrders example_markets None
      (Returned {| ca_orderNumbers := Some [JStr "1"; JStr "3"] |}) cache in
  call.1 !! "1" = Some (example_order "1" "canceled" 10 2)
  ∧ call.1 !! "2" = Some (example_order "2" "open" 5 3)
  ∧ call.1 !! "3" = None.
Proof.
  intros cache call.
  destruct (proj1 (cancelAllOrders_marks_the_listed example_markets None
    (Returned {| ca_orderNumbers := Some [JStr "1"; JStr "3"] |}) cache)
    {| ca_orderNumbers := Some [JStr "1"; JStr "3"] |} eq_refl) as [_ Hlookup].
  unfold call. rewrite !Hlookup. repeat split; vm_compute; reflexivity.
Defined.

Lemma editOrder_moves_a_cached_order_witness :
  let cache : gmap string Order :=
    {[ "1" := example_order "1" "open" 10 2 ]} in
  let call :=
    editOrder example_markets "1" (Some "ETH/BTC") (Some 5%float) (Some 3%float)
      (Returned (example_created "2")) cache in
  call.2 = Returned (example_order "2" "open" 5 3)
  ∧ call.1 !! "2" = Some (example_order "2" "open" 5 3)
  ∧ call.1 !! "1" = Some (example_order "1" "canceled" 10 2).
Proof.
  intros cache call.
  assert (∃ moved, call.2 = Returned moved) as [moved Hmoved]
    by (vm_compute; eexists; reflexivity).
  destruct (editOrder_moves_a_cached_order example_markets "1" (Some "ETH/BTC")
              (Some 5%float) (Some 3%float) (Returned (example_created "2"))
              cache call.1 (example_order "1" "open" 10 2) moved)
    as (answer & rate & [= <-] & Hrate & Hm & Hcache).
  - vm_compute. reflexivity.
  - rewrite <- Hmoved. apply surjective_pairing.
  - injection Hrate as <-.
    destruct (Hcache "2" eq_refl) as (Hnew & Hold & _).
    assert (moved = example_order "2" "open" 5 3) as -> by (rewrite Hm; reflexivity).
    split; [exact Hmoved |]. split; [exact Hnew |]. apply Hold. discriminate.
Defined.

Lemma editOrder_files_an_unknown_order_witness :
  let call :=
    editOrder example_markets "1" (Some "ETH/BTC") (Some 5%float) (Some 3%float)
      (Returned (example_open_order "2" "buy" 3 5)) ∅ in
  ∃ order,
    call.2 = Returned order
    ∧ parseOrder example_markets (example_open_order "2" "buy" 3 5)
        (Some example_market) = Returned order
    ∧ call.1 = {[ "2" := order ]}
    ∧ o_status order = None.
Proof.
  intros call.
  assert (∃ order, call.2 = Returned order) as [order Horder]
    by (vm_compute; eexists; reflexivity).
  destruct (editOrder_files_an_unknown_order example_markets "1" (Some "ETH/BTC")
              (Some 5%float) (Some 3%float) (Returned (example_open_order "2" "buy" 3 5))
              ∅ call.1 order)
    as (answer & found & [= <-] & Hfound & Hparse & Hcache & Hid & Hstatus).
  - apply lookup_empty.
  - rewrite <- Horder. apply surjective_pairing.
  - assert (found = Some example_market) as ->
      by (vm_compute in Hfound; by injection Hfound as <-).
    exists order. split; [exact Horder |]. split; [exact Hparse |].
    split; [| exact Hstatus].
    rewrite Hcache, Hid. reflexivity.
Defined.

Lemma editOrder_throws_before_it_writes_witness :
  let cache : gmap string Order :=
    {[ "1" := example_order "1" "open" 10 2 ]} in
  (editOrder example_markets "1" (Some "ETH/BTC") (Some 5%float) (Some 3%float)
     (Thrown (Raise InvalidOrder "Amount must be at least 0.000001.")) cache).1
  = cache.
Proof.
  intros cache.
  apply (editOrder_throws_before_it_writes example_markets "1" (Some "ETH/BTC")
           (Some 5%float) (Some 3%float)
           (Thrown (Raise InvalidOrder "Amount must be at least 0.000001."))
           cache _ (Raise InvalidOrder "Amount must be at least 0.000001.")).
  apply surjective_pairing.
Defined.

Lemma fetchOrder_by_status_witness :
  let cache : gmap string Order :=
    {[ "1" := example_order "1" "open" 10 2 ]} in
  let known : gmap string RawOrder :=
    {[ "7" := example_open_order "7" "buy" 2 10 ]} in
  fetchOrder example_markets "7" (Returned {| os_result := Some known |})
    (Thrown TypeError) cache
  = fetchOpenOrder example_markets "7"
      (Returned (Some (example_open_order "7" "buy" 2 10))) cache
  ∧ fetchOrder example_markets "7" (Returned {| os_result := Some ∅ |})
      (Thrown (Raise OrderNotFound "Order not found")) cache
    = (cache, Returned (canceled_stub "7"))
  ∧ fetchOrder example_markets "7" (Returned {| os_result := Some ∅ |})
      (Returned []) cache
    = (cache, Thrown TypeError)
  ∧ ∃ order,
      (fetchOrder example_markets "7" (Returned {| os_result := Some ∅ |})
         (Returned [example_order_trade (Some "BTC_ETH") "7" "buy" 2 3 6;
                    example_order_trade (Some "BTC_ETH") "7" "buy" 2 4 8])
         cache).2
      = Returned order
      ∧ o_id order = Some "7"
      ∧ o_status order = Some "closed"
      ∧ o_amount order = Some 7%float.
Proof.
  intros cache known.
  assert (Hnone : (∅ : gmap string RawOrder) !! "7" = None)
    by apply lookup_empty.
  split; [| split; [| split]].
  - apply (proj1 (fetchOrder_by_status example_markets "7" known
                    (Thrown TypeError) cache)).
    vm_compute. reflexivity.
  - destruct (proj2 (fetchOrder_by_status example_markets "7" ∅
                       (Thrown (Raise OrderNotFound "Order not found")) cache)
                Hnone) as (Hcache & Hthrown & _).
    rewrite <- Hcache, <- (Hthrown _ eq_refl). apply surjective_pairing.
  - destruct (proj2 (fetchOrder_by_status example_markets "7" ∅
                       (Returned []) cache) Hnone) as (Hcache & _ & Hempty & _).
    rewrite <- Hcache, <- (Hempty eq_refl). apply surjective_pairing.
  - assert (∃ order,
      (fetchOrder example_markets "7" (Returned {| os_result := Some ∅ |})
         (Returned [example_order_trade (Some "BTC_ETH") "7" "buy" 2 3 6;
                    example_order_trade (Some "BTC_ETH") "7" "buy" 2 4 8])
         cache).2
      = Returned order) as [order Horder]
      by (vm_compute; eexists; reflexivity).
    destruct (proj2 (fetchOrder_by_status example_markets "7" ∅
                (Returned [example_order_trade (Some "BTC_ETH") "7" "buy" 2 3 6;
                           example_order_trade (Some "BTC_ETH") "7" "buy" 2 4 8])
                cache) Hnone) as (_ & _ & _ & Htrades).
    destruct (Htrades _ order eq_refl Horder) as (Hid & Hst & Hamount & _).
    exists order. split; [exact Horder |]. split; [exact Hid |].
    split; [exact Hst |]. rewrite Hamount. vm_compute. reflexivity.
Defined.

Lemma fetchClosedOrders_one_per_order_witness :
  let history :=
    [ example_order_trade None "7" "buy" 2 3 6;
      example_order_trade None "8" "sell" 3 1 3;
      example_order_trade None "7" "buy" 2 4 8 ] in
  ∃ result,
    fetchClosedOrders example_markets "ETH/BTC" None None (Returned history)
    = Returned result
    ∧ List.length result = 2%nat
    ∧ Forall (λ o, o_status o = Some "closed" ∧ o_remaining o = None) result.
Proof.
  intros history.
  assert (∃ result,
    fetchClosedOrders example_markets "ETH/BTC" None None (Returned history)
    = Returned result) as [result Hresult]
    by (vm_compute; eexists; reflexivity).
  destruct (fetchClosedOrders_one_per_order example_markets "ETH/BTC" None None
              (Returned history) result Hresult)
    as (m & trades & parsed & Hm & [= <-] & Hparsed & Hlen & Hall).
  injection Hm as <-.
  change (filterBySinceLimit_orders parsed None None) with parsed in Hparsed.
  subst parsed. exists result. split; [exact Hresult |]. split; [| exact Hall].
  rewrite Hlen. vm_compute. reflexivity.
Defined.

Lemma parseClosedOrdersTrades_groups_by_order_witness :
  let history :=
    [ example_order_trade None "7" "buy" 2 3 6;
      example_order_trade None "8" "sell" 3 1 3;
      example_order_trade None "7" "buy" 2 4 8 ] in
  ∃ order,
    parseClosedOrdersTrades "BTC_ETH" history !! "7" = Some order
    ∧ co_resultingTrades order
      = [ example_order_trade None "7" "buy" 2 3 6;
          example_order_trade None "7" "buy" 2 4 8 ]
    ∧ co_startingAmount order = 7%float
    ∧ co_total order = 14%float.
Proof.
  intros history.
  pose proof (parseClosedOrdersTrades_groups_by_order "BTC_ETH" history "7")
    as Hgroup.
  destruct (parseClosedOrdersTrades "BTC_ETH" history !! "7") as [order|].
  - destruct Hgroup as (Htrades & _ & _ & Htotal & Hamount & _).
    exists order. split; [reflexivity |]. split; [exact Htrades |].
    split; [exact Hamount | exact Htotal].
  - vm_compute in Hgroup. discriminate.
Defined.

Lemma parseOrder_never_sets_lastTradeTimestamp_witness :
  ∃ order,
    parseOrder example_markets
      (order_of_trades "7" (example_order_trade (Some "BTC_ETH") "7" "buy" 2 3 6)
         [example_order_trade (Some "BTC_ETH") "7" "buy" 2 3 6]) None = Returned order
    ∧ o_lastTradeTimestamp order = None.
Proof.
  assert (∃ order,
    parseOrder example_markets
      (order_of_trades "7" (example_order_trade (Some "BTC_ETH") "7" "buy" 2 3 6)
         [example_order_trade (Some "BTC_ETH") "7" "buy" 2 3 6]) None = Returned order)
    as [order Horder] by (vm_compute; eexists; reflexivity).
  exists order. split; [exact Horder |].
  exact (parseOrder_never_sets_lastTradeTimestamp example_markets _ _ _ Horder).
Defined.

Lemma parseOrder_side_and_type_witness :
  ∃ order,
    parseOrder example_markets (example_open_order "7" "buy" 2 10)
      (Some example_market) = Returned order
    ∧ o_side order = Some "buy"
    ∧ o_type order = None.
Proof.
  assert (∃ order,
    parseOrder example_markets (example_open_order "7" "buy" 2 10)
      (Some example_market) = Returned order)
    as [order Horder] by (vm_compute; eexists; reflexivity).
  exists order. split; [exact Horder |].
  exact (proj1 (parseOrder_side_and_type example_markets _ _ _ Horder) eq_refl).
Defined.

Lemma parseTrade_fee_is_NaN_without_a_rate_witness :
  t_fee (parseTrade example_markets (example_order_trade None "7" "buy" 2 3 6)
           (Some example_market)) = nan.
Proof.
  apply (parseTrade_fee_is_NaN_without_a_rate example_markets
           (example_order_trade None "7" "buy" 2 3 6) (Some example_market)).
  - reflexivity.
  - left. reflexivity.
Defined.

Lemma fetchBalance_last_currency_wins_witness :
  let stellar (available : float) :=
    {| rb_available := Some (JNum available); rb_onOrders := Some (JNum 0) |} in
  fetchBalance_accounts
    [("STR", stellar 5%float); ("XLM", stellar 2%float); ("BTC", stellar 1%float)] !! "XLM"
  = Some {| acc_free := Some 2%float; acc_used := Some 0%float;
            acc_total := Some 2%float |}.
Proof.
  intros stellar.
  refine (fetchBalance_last_currency_wins [("STR", stellar 5%float)]
            [("BTC", stellar 1%float)] "XLM" (stellar 2%float) _).
  intros id b Hin. apply list_elem_of_singleton in Hin as [= -> _].
  vm_compute. discriminate.
Defined.

Lemma fetchWalletBalance_margin_on_orders_witness :
  let call :=
    fetchWalletBalance
      (Returned [("exchange", [("BTC", JNum 1)]); ("margin", [("BTC", JNum 2)])])
      (Returned [("BTC", {| rb_available := Some (JNum 1);
                            rb_onOrders := Some (JNum 0.5) |})])
      (Returned [("BTC", [example_offer None 3])])
      (Returned {| provided := Some [] |}) in
  ∃ result b,
    call = Returned result
    ∧ result !! "BTC" = Some b
    ∧ available (margin b) = 2%float
    ∧ on_orders (margin b) = 0%float.
Proof.
  intros call.
  assert (∃ result b, call = Returned result ∧ result !! "BTC" = Some b
                      ∧ available (margin b) = 2%float)
    as (result & b & Hresult & Hb & Havailable)
    by (vm_compute; do 2 eexists; repeat split; reflexivity).
  exists result, b. do 3 (split; [assumption |]).
  exact (fetchWalletBalance_margin_on_orders _ _ _ _ result "BTC" b Hresult Hb).
Defined.

Lemma fetchWalletBalance_wallet_names_witness :
  (∃ result,
     fetchWalletBalance
       (Returned [("exchange", [("BTC", JNum 1)]); ("futures", [])])
       (Returned []) (Returned []) (Returned {| provided := Some [] |})
     = Returned result)
  ∧ fetchWalletBalance
      (Returned [("exchange", [("BTC", JNum 1)]); ("futures", [("BTC", JNum 2)])])
      (Returned []) (Returned []) (Returned {| provided := Some [] |})
    = Thrown TypeError.
Proof.
  split.
  - apply (proj1 (fetchWalletBalance_wallet_names
                    [("exchange", [("BTC", JNum 1)]); ("futures", [])])).
    intros wallet symbols Hin Hsymbols.
    apply elem_of_cons in Hin as [[= -> _] | Hin]; [apply list_elem_of_here |].
    apply list_elem_of_singleton in Hin as [= _ ->]. done.
  - apply (proj2 (fetchWalletBalance_wallet_names
                    [("exchange", [("BTC", JNum 1)]);
                     ("futures", [("BTC", JNum 2)])])).
    exists "futures", [("BTC", JNum 2)]. split; [| split].
    + apply list_elem_of_further, list_elem_of_here.
    + discriminate.
    + vm_compute. intros Hin.
      repeat (inversion Hin as [|? ? ? Hin']; clear Hin; rename Hin' into Hin).
Defined.

Lemma fetchActiveLoans_filters_by_symbol_witness :
  let response :=
    {| provided := Some [ example_offer (Some "STR") 1;
                          example_offer (Some "BTC") 2;
                          example_offer (Some "STR") 3 ] |} in
  (λ loans : list Offer, l_amount <$> loans)
    <$> fetchActiveLoans (Some "XLM") (Returned response)
  = Returned [1%float; 3%float].
Proof.
  intros response.
  destruct (proj1 (fetchActiveLoans_filters_by_symbol response) _ eq_refl)
    as [_ Hsymbol].
  rewrite (Hsymbol "XLM"). vm_compute. reflexivity.
Defined.

Lemma fetchOpenLoans_by_currency_witness :
  let response := [ ("STR", [example_offer None 1; example_offer None 3]);
                    ("BTC", [example_offer None 2]) ] in
  ∃ loans,
    fetchOpenLoans None (Returned response) = Returned loans
    ∧ l_amount <$> loans = [1%float; 3%float; 2%float]
    ∧ ∀ loan, loan ∈ loans →
        l_symbol loan = Some "XLM" ∨ l_symbol loan = Some "BTC".
Proof.
  intros response.
  destruct (fetchOpenLoans_by_currency response) as (Hall & _ & Hsymbols).
  eexists. split; [exact Hall |]. split; [vm_compute; reflexivity |].
  intros loan Hloan.
  destruct (Hsymbols None _ loan Hall Hloan) as (currencyId & offers & Hin & ->).
  apply elem_of_cons in Hin as [[= -> _] | Hin]; [by left |].
  apply list_elem_of_singleton in Hin as [= -> _]. by right.
Defined.


Lemma parseTransaction_withdrawal_less_fee_witness :
  let parsed :=
    parseTransaction ∅
      (example_transaction "STR" "COMPLETE: 7a3b" "withdrawal" 10 0.5) in
  x_amount parsed = Some 9.5%float
  ∧ x_fee_cost parsed = 0.5%float
  ∧ x_fee_currency parsed = Some "XLM".
Proof.
  intros parsed.
  destruct (parseTransaction_withdrawal_less_fee ∅
              (example_transaction "STR" "COMPLETE: 7a3b" "withdrawal" 10 0.5))
    as (Hfee & Hcurrency & Hwithdrawal & _).
  destruct (Hwithdrawal eq_refl) as [Hamount _].
  split; [exact (Hamount 10%float eq_refl) |]. split; [exact Hfee |].
  fold parsed in Hcurrency. rewrite Hcurrency. reflexivity.
Defined.

Lemma calculateFee_side_decides_witness :
  calculateFee example_markets example_rate "ETH/BTC" "limit" "buy" 8
    (Some 2%float) "taker"
  = Returned {| fq_type := "taker"; fq_currency := "ETH";
                fq_rate := Some 0.25%float; fq_cost := 2 |}
  ∧ calculateFee example_markets example_rate "ETH/BTC" "limit" "buy" 8
      None "taker"
    = calculateFee example_markets example_rate "ETH/BTC" "limit" "buy" 8
        (Some 2%float) "taker"
  ∧ ∃ fee,
      calculateFee example_markets example_rate "ETH/BTC" "limit" "sell" 8
        (Some 2%float) "taker" = Returned fee
      ∧ fq_currency fee = "BTC".
Proof.
  split; [vm_compute; reflexivity |]. split.
  - apply (proj1 (calculateFee_side_decides example_markets example_rate
                    "ETH/BTC" "limit" "buy" 8 "taker")). discriminate.
  - assert (∃ fee,
      calculateFee example_markets example_rate "ETH/BTC" "limit" "sell" 8
        (Some 2%float) "taker" = Returned fee) as [fee Hfee]
      by (vm_compute; eexists; reflexivity).
    exists fee. split; [exact Hfee |].
    destruct (proj1 (proj2 (calculateFee_side_decides example_markets
      example_rate "ETH/BTC" "limit" "sell" 8 "taker")) _ fee Hfee)
      as (market & Hmarket & Hcurrency & _).
    injection Hmarket as <-. exact Hcurrency.
Defined.

Lemma handleErrors_throws_on_every_error_witness :
  handleErrors (Some {| body_error := Some "toString" |}) = Thrown TypeError
  ∧ handleErrors (Some {| body_error := Some "constructor" |})
    = Thrown (StringObject "constructor")
  ∧ ∃ kind, handleErrors (Some {| body_error := Some "Not enough BTC." |})
            = Thrown (Raise kind "Not enough BTC.").
Proof.
  assert (Hthrows : ∀ message,
    ∃ e, handleErrors (Some {| body_error := Some message |}) = Thrown e).
  { intros message.
    destruct (handleErrors (Some {| body_error := Some message |})) as [[]|e] eqn:Hrun;
      [| by eauto].
    apply (proj1 (handleErrors_throws_on_every_error _)) in Hrun
      as [? | (r & [= <-] & ?)]; done. }
  split; [| split].
  - destruct (Hthrows "toString") as [e He]. rewrite He.
    destruct (proj2 (handleErrors_throws_on_every_error _) e He)
      as (r & message & [= <-] & [= <-] & _ & _ & Hmember).
    rewrite Hmember; [reflexivity | | discriminate].
    apply (bool_decide_unpack _). vm_compute. exact I.
  - destruct (Hthrows "constructor") as [e He]. rewrite He.
    destruct (proj2 (handleErrors_throws_on_every_error _) e He)
      as (r & message & [= <-] & [= <-] & _ & Hconstructor & _).
    by rewrite Hconstructor.
  - destruct (Hthrows "Not enough BTC.") as [e He]. rewrite He.
    destruct (proj2 (handleErrors_throws_on_every_error _) e He)
      as (r & message & [= <-] & [= <-] & Hclass & _ & _).
    destruct Hclass as [kind ->]; [| by exists kind].
    apply (bool_decide_unpack _). vm_compute. exact I.
Defined.
